(** * HoosierLaw: the model-call orchestration layer

    A shallow embedding of [services/geminiService.ts] (class
    [GeminiService]) and of the chat handler [Assistant.handleSend] of
    [App.tsx], with the properties of their retry, fallback, usage
    accounting, context formatting and citation merging logic. *)

From Stdlib Require Import List ZArith NArith Bool Lia String Ascii QArith.
From Stdlib Require Import Numbers.DecimalString Numbers.DecimalNat.
From Stdlib Require Import Sorting.Permutation Setoid Morphisms.
Import ListNotations.

Set Implicit Arguments.
Close Scope Q_scope.

(** ** JavaScript strings

    A JavaScript string is a sequence of UTF-16 code units; [length],
    [slice], [trim] and [includes] all work on code units.  A string is
    embedded as the list of its code units. *)
Module Js.

Definition JsString := list N.

(** An ASCII literal of the source, as code units. *)
Definition lit (s : string) : JsString :=
  map N_of_ascii (list_ascii_of_string s).

(** U+2013, the en dash used in two literals of the service. *)
Definition en_dash : N := 8211%N.

Definition eqb (a b : JsString) : bool :=
  if list_eq_dec N.eq_dec a b then true else false.

(** [WhiteSpace] and [LineTerminator] of ECMAScript, what [trim] strips. *)
Definition isWhiteSpace (c : N) : bool :=
  ((9 <=? c) && (c <=? 13) || (c =? 32) || (c =? 160) || (c =? 5760)
   || (8192 <=? c) && (c <=? 8202) || (c =? 8232) || (c =? 8233)
   || (c =? 8239) || (c =? 8287) || (c =? 12288) || (c =? 65279))%N.

Fixpoint trimStart (s : JsString) : JsString :=
  match s with
  | c :: rest => if isWhiteSpace c then trimStart rest else s
  | [] => []
  end.

Definition trimEnd (s : JsString) : JsString := rev (trimStart (rev s)).

Definition trim (s : JsString) : JsString := trimEnd (trimStart s).

(** [s.slice(0, n)] for a non-negative [n]. *)
Definition slice0 (n : nat) (s : JsString) : JsString := firstn n s.

(** [s.startsWith(m)]. *)
Fixpoint startsWith (s m : JsString) {struct m} : bool :=
  match m, s with
  | [], _ => true
  | _ :: _, [] => false
  | a :: m', b :: s' => (a =? b)%N && startsWith s' m'
  end.

(** [s.includes(m)]: some position of [s] starts an occurrence of [m]. *)
Fixpoint includes (s m : JsString) : bool :=
  startsWith s m ||
  match s with
  | [] => false
  | _ :: s' => includes s' m
  end.

(** [parts.join(sep)]. *)
Fixpoint join (sep : JsString) (parts : list JsString) : JsString :=
  match parts with
  | [] => []
  | [p] => p
  | p :: rest => p ++ sep ++ join sep rest
  end.

(** Decimal rendering of a length and of an integer ([String(n)],
    [n.toString()] and [${n}] on integers). *)
Definition ofNat (n : nat) : JsString :=
  lit (NilEmpty.string_of_uint (Nat.to_uint n)).

Definition ofZ (z : Z) : JsString :=
  lit (NilZero.string_of_int (Z.to_int z)).

(** A string is whitespace only when every code unit is white space; the
    empty string is. *)
Definition whitespaceOnly (s : JsString) : bool := forallb isWhiteSpace s.

(** A string is truthy when it is not empty. *)
Definition truthy (s : JsString) : bool :=
  match s with [] => false | _ :: _ => true end.

(** [a ?? b] *)
Definition nullish {A} (a : option A) (b : A) : A :=
  match a with Some x => x | None => b end.

(** [a ?? b] where [b] may be absent too. *)
Definition nullishChain {A} (a b : option A) : option A :=
  match a with Some _ => a | None => b end.

End Js.

Import Js.

(** ** The service: [services/geminiService.ts] *)
Module Gemini.

(** *** Data of the service *)

(** [MODELS] *)
Inductive Model := reasoning | fast.

Definition modelName (m : Model) : JsString :=
  match m with
  | reasoning => lit "gemini-3-pro-preview"
  | fast => lit "gemini-3-flash-preview"
  end.

(** The fields of [CaseFile] that the service reads. *)
Record CaseFile := { name : JsString; content : JsString }.

Record UsageMetadata := {
  totalTokenCount : option Z;
  promptTokenCount : option Z;
  candidatesTokenCount : option Z }.

Record Web := { title : option JsString; uri : option JsString }.
Record GroundingChunk := { web : option Web }.
Record GroundingMetadata := { groundingChunks : option (list GroundingChunk) }.
Record Candidate := { groundingMetadata : option GroundingMetadata }.

Record GenerateContentResponse := {
  text : option JsString;
  usageMetadata : option UsageMetadata;
  candidates : option (list Candidate) }.

(** What a rejected call carries: [err?.status], [err?.code] and
    [err?.message] are read through optional chaining, so the thrown value
    may be [null] or [undefined], and a field may be missing.  A message,
    when there is one, is a string, as it is for every [Error]; a thrown
    string or number has none of the three fields.  Numbers are the
    integers. *)
Inductive JsScalar := JNum (n : Z) | JStr (s : JsString).

Record ErrorObj := {
  status : option JsScalar;
  code : option JsScalar;
  message : option JsString }.

Inductive Thrown := Nullish | Obj (e : ErrorObj).

(** [new Error(msg)] *)
Definition newError (msg : JsString) : Thrown :=
  Obj {| status := None; code := None; message := Some msg |}.

(** The result of awaiting a promise. *)
Inductive Outcome (T : Type) :=
| Returned (v : T)
| Threw (e : Thrown).
Arguments Returned {T} v.
Arguments Threw {T} e.

Inductive Tool := googleSearch.
Record Part := { partText : JsString }.
Record HistoryTurn := { role : JsString; parts : list Part }.

(** The requests the service sends: [ai.models.generateContent] and
    [ai.chats.create] followed by [chat.sendMessage]. *)
Inductive ApiCall :=
| Generate (model : Model) (contents systemInstruction : JsString)
           (temperature : Q) (topP : option Q) (tools : list Tool)
| Chat (model : Model) (systemInstruction : JsString) (temperature : Q)
       (history : list HistoryTurn) (msg : JsString).

Definition callModel (c : ApiCall) : Model :=
  match c with
  | Generate m _ _ _ _ _ => m
  | Chat m _ _ _ _ => m
  end.

(** What [withRetry] does besides running its operations, in order.
    [CallPrimary] and [CallFallback] mark the invocations of the two
    operations; the others are the console lines and the backoff sleep.
    [Sleep attempt base] waits [base = baseDelayMs * 2^attempt]
    milliseconds plus a random jitter below 400 ms, which is not part of
    the event. *)
Inductive RetryEvent :=
| CallPrimary (attempt : Z)
| WarnRetry (attempt maxRetries : Z) (msg : option JsString)
| Sleep (attempt base : Z)
| WarnFallback
| CallFallback
| ErrorFallbackFailed (e : Thrown).

Definition isCallPrimary (e : RetryEvent) : bool :=
  match e with CallPrimary _ => true | _ => false end.
Definition isCallFallback (e : RetryEvent) : bool :=
  match e with CallFallback => true | _ => false end.
Definition isSleep (e : RetryEvent) : bool :=
  match e with Sleep _ _ => true | _ => false end.

Definition primaryCalls (l : list RetryEvent) : nat :=
  List.length (filter isCallPrimary l).
Definition fallbackCalls (l : list RetryEvent) : nat :=
  List.length (filter isCallFallback l).
Definition sleeps (l : list RetryEvent) : nat :=
  List.length (filter isSleep l).

(** *** Error classification of [withRetry] *)

(** [err?.status ?? err?.code] *)
Definition statusOf (err : Thrown) : option JsScalar :=
  match err with
  | Nullish => None
  | Obj e => nullishChain (status e) (code e)
  end.

(** [status === n] *)
Definition strictEqNum (s : option JsScalar) (n : Z) : bool :=
  match s with
  | Some (JNum k) => (k =? n)%Z
  | _ => false
  end.

(** [err?.message] *)
Definition messageOf (err : Thrown) : option JsString :=
  match err with
  | Nullish => None
  | Obj e => message e
  end.

(** [err?.message?.includes(marker)], falsy when there is no message. *)
Definition messageIncludes (err : Thrown) (marker : JsString) : bool :=
  match messageOf err with
  | Some m => includes m marker
  | None => false
  end.

Definition isRetryable (err : Thrown) : bool :=
  strictEqNum (statusOf err) 429
  || strictEqNum (statusOf err) 503
  || messageIncludes err (lit "quota")
  || messageIncludes err (lit "RESOURCE_EXHAUSTED")
  || messageIncludes err (lit "rate limit").

(** *** [withRetry] *)
Section Retry.

Variable W : Type.
Variable T : Type.

(** An async operation: it changes the world and resolves or rejects. *)
Definition Op := W -> Outcome T * W.

Variable operation : Op.
Variable fallbackOperation : option Op.
Variable maxRetries : Z.
Variable baseDelayMs : Z.

(** How the [for] loop is left: by [return] from inside [try], or by
    [break] or a false loop condition, with [lastError]. *)
Inductive LoopExit :=
| LoopReturn (v : T) (w : W)
| LoopLeft (lastError : Thrown) (w : W).

(** The [for] loop from [attempt] on; [None] when [fuel] iterations do not
    reach the end of the loop. *)
Fixpoint retryLoop (fuel : nat) (attempt : Z) (lastError : Thrown) (w : W)
  : option (LoopExit * list RetryEvent) :=
  match fuel with
  | O => None
  | S fuel' =>
      if (attempt <=? maxRetries)%Z then
        match operation w with
        | (Returned v, w1) => Some (LoopReturn v w1, [CallPrimary attempt])
        | (Threw err, w1) =>
            if negb (isRetryable err) || (attempt =? maxRetries)%Z then
              Some (LoopLeft err w1, [CallPrimary attempt])
            else
              match retryLoop fuel' (attempt + 1) err w1 with
              | Some (x, evs) =>
                  Some (x, CallPrimary attempt
                           :: WarnRetry attempt maxRetries (messageOf err)
                           :: Sleep attempt (baseDelayMs * 2 ^ attempt)
                           :: evs)
              | None => None
              end
        end
      else Some (LoopLeft lastError w, [])
  end.

(** [lastError ?? new Error("All retry attempts failed")] *)
Definition surfaced (lastError : Thrown) : Thrown :=
  match lastError with
  | Nullish => newError (lit "All retry attempts failed")
  | Obj _ => lastError
  end.

(** The loop runs at most [maxRetries + 1] times and tests its condition
    once more. *)
Definition retryFuel : nat := S (Z.to_nat (maxRetries + 1)).

Definition withRetry (w : W) : option (Outcome T * W * list RetryEvent) :=
  match retryLoop retryFuel 0 Nullish w with
  | None => None
  | Some (LoopReturn v w1, evs) => Some (Returned v, w1, evs)
  | Some (LoopLeft lastError w1, evs) =>
      match fallbackOperation with
      | Some fallback =>
          match fallback w1 with
          | (Returned v, w2) =>
              Some (Returned v, w2, evs ++ [WarnFallback; CallFallback])
          | (Threw fallbackErr, w2) =>
              Some (Threw (surfaced lastError), w2,
                    evs ++ [WarnFallback; CallFallback;
                            ErrorFallbackFailed fallbackErr])
          end
      | None => Some (Threw (surfaced lastError), w1, evs)
      end
  end.

End Retry.

Arguments LoopReturn {W T} v w.
Arguments LoopLeft {W T} lastError w.

(** *** [withRetry] across its awaits

    [withRetry] gives the control back at each [await]: while the request
    of an attempt or of the fallback is in flight, and while the backoff
    timer runs.  When two calls of it are pending together, as under
    [Promise.all], their steps interleave there.  An operation is taken
    in two halves, what it does before its own [await] (the request is
    sent, [P] is what comes back) and what it does after it; a [Chain] is
    where a call of [withRetry] stands between two steps. *)
Section Awaits.

Variable W : Type.
Variable T : Type.
Variable P : Type.

Record Awaited := {
  send : W -> P * W;
  receive : P -> W -> Outcome T * W }.

(** The operation run in one go, as [withRetry] takes it. *)
Definition whole (a : Awaited) : Op W T :=
  fun w => let (p, w1) := send a w in receive a p w1.

Inductive Chain :=
| AtLoop (attempt : Z) (lastError : Thrown)
| AwaitingPrimary (attempt : Z) (p : P)
| AwaitingFallback (lastError : Thrown) (p : P)
| Settled (r : Outcome T).

Variable operation : Awaited.
Variable fallbackOperation : option Awaited.
Variable maxRetries : Z.
Variable baseDelayMs : Z.

(** What follows the loop, up to the await of the fallback or to the
    [throw]. *)
Definition afterLoop (lastError : Thrown) (w : W)
  : Chain * W * list RetryEvent :=
  match fallbackOperation with
  | Some fallback =>
      let (p, w1) := send fallback w in
      (AwaitingFallback lastError p, w1, [WarnFallback; CallFallback])
  | None => (Settled (Threw (surfaced lastError)), w, [])
  end.

(** One step of the call: from where it stands to its next await or to
    its end.  [AtLoop] is the head of the loop, reached at the start and
    when the backoff timer fires; [AwaitingPrimary] and [AwaitingFallback]
    go on when the response comes in. *)
Definition resumeChain (c : Chain) (w : W) : Chain * W * list RetryEvent :=
  match c with
  | AtLoop attempt lastError =>
      if (attempt <=? maxRetries)%Z then
        let (p, w1) := send operation w in
        (AwaitingPrimary attempt p, w1, [CallPrimary attempt])
      else afterLoop lastError w
  | AwaitingPrimary attempt p =>
      match receive operation p w with
      | (Returned v, w1) => (Settled (Returned v), w1, [])
      | (Threw err, w1) =>
          if negb (isRetryable err) || (attempt =? maxRetries)%Z then
            afterLoop err w1
          else
            (AtLoop (attempt + 1) err, w1,
             [WarnRetry attempt maxRetries (messageOf err);
              Sleep attempt (baseDelayMs * 2 ^ attempt)])
      end
  | AwaitingFallback lastError p =>
      match fallbackOperation with
      | Some fallback =>
          match receive fallback p w with
          | (Returned v, w1) => (Settled (Returned v), w1, [])
          | (Threw fallbackErr, w1) =>
              (Settled (Threw (surfaced lastError)), w1,
               [ErrorFallbackFailed fallbackErr])
          end
      | None => (Settled (Threw (surfaced lastError)), w, [])
      end
  | Settled r => (Settled r, w, [])
  end.

(** The call of [withRetry] itself runs up to the first await. *)
Definition startChain (w : W) : Chain * W * list RetryEvent :=
  resumeChain (AtLoop 0 Nullish) w.

Definition pending (c : Chain) : bool :=
  match c with Settled _ => false | _ => true end.

(** A call that nothing else interleaves with, step after step. *)
Fixpoint runChain (fuel : nat) (c : Chain) (w : W) (evs : list RetryEvent)
  : option (Outcome T * W * list RetryEvent) :=
  match c with
  | Settled r => Some (r, w, evs)
  | _ =>
      match fuel with
      | O => None
      | S fuel' =>
          let '(c', w', e) := resumeChain c w in
          runChain fuel' c' w' (evs ++ e)
      end
  end.

End Awaits.

Arguments AtLoop {T P} attempt lastError.
Arguments AwaitingPrimary {T P} attempt p.
Arguments AwaitingFallback {T P} lastError p.
Arguments Settled {T P} r.

(** *** The service and its world *)
Section Service.

(** [S] is the state of the remote backend, [U] the state the registered
    token listener updates. *)
Variable S : Type.
Variable U : Type.

(** What a call can change: the backend, the listener's state, and the
    record of the requests sent and of the counts the listener was called
    with. *)
Record World := {
  backend : S;
  observer : U;
  apiLog : list ApiCall;
  listenerLog : list Z }.

(** [ai] is the SDK client, a function of the request and the backend
    state; [tokenListener] is the private field, [None] for [null]. *)
Record GeminiService := {
  ai : ApiCall -> S -> Outcome GenerateContentResponse * S;
  tokenListener : option (Z -> U -> U) }.

Definition setTokenListener (svc : GeminiService) (listener : Z -> U -> U)
  : GeminiService :=
  {| ai := ai svc; tokenListener := Some listener |}.

Definition callApi (svc : GeminiService) (c : ApiCall)
  : Op World GenerateContentResponse :=
  fun w =>
    let (r, s') := ai svc c (backend w) in
    (r, {| backend := s'; observer := observer w;
           apiLog := apiLog w ++ [c]; listenerLog := listenerLog w |}).

(** [usageMetadata?.totalTokenCount ?? usageMetadata?.promptTokenCount
     ?? usageMetadata?.candidatesTokenCount ?? 0] *)
Definition usageTotal (response : GenerateContentResponse) : Z :=
  match usageMetadata response with
  | None => 0%Z
  | Some u =>
      nullish
        (nullishChain (totalTokenCount u)
           (nullishChain (promptTokenCount u) (candidatesTokenCount u)))
        0%Z
  end.

Definition trackUsage (svc : GeminiService)
  (response : GenerateContentResponse) (w : World) : World :=
  match tokenListener svc with
  | None => w
  | Some listener =>
      let total := usageTotal response in
      if (total >? 0)%Z then
        {| backend := backend w; observer := listener total (observer w);
           apiLog := apiLog w; listenerLog := listenerLog w ++ [total] |}
      else w
  end.

Definition nl : JsString := [10%N].

Definition MAX_CONTENT : nat := N.to_nat 14000.

(** The block of one file, the body of the [map] in [formatCaseFiles]. *)
Definition formatCaseFile (f : CaseFile) : JsString :=
  let safeContent := slice0 MAX_CONTENT (trim (content f)) in
  lit "--- FILE: " ++ name f ++ lit " (" ++ ofNat (List.length (content f))
    ++ lit " chars) ---" ++ nl ++ safeContent ++ nl ++ lit "--- END ---".

Definition formatCaseFiles (files : list CaseFile) : JsString :=
  match files with
  | [] => []
  | _ :: _ =>
      let formatted := join (nl ++ nl) (map formatCaseFile files) in
      nl ++ nl ++ lit "<CASE_FILES>" ++ nl ++ formatted ++ nl
        ++ lit "</CASE_FILES>" ++ nl
  end.

(** **** Grounded research *)

Record Source := { srcTitle : JsString; srcUri : JsString }.

(** [res.candidates?.[0]?.groundingMetadata?.groundingChunks ?? []] *)
Definition chunksOf (res : GenerateContentResponse) : list GroundingChunk :=
  match candidates res with
  | Some (c :: _) =>
      match groundingMetadata c with
      | Some g => nullish (groundingChunks g) []
      | None => []
      end
  | _ => []
  end.

(** [c.web?.uri] as a condition: present and not the empty string. *)
Definition hasUri (c : GroundingChunk) : bool :=
  match web c with
  | Some wb => match uri wb with Some u => truthy u | None => false end
  | None => false
  end.

(** The [map] after the [filter]; a chunk that passed the filter has both
    [web] and [uri]. *)
Definition toSource (c : GroundingChunk) : Source :=
  match web c with
  | Some wb =>
      {| srcTitle := nullish (title wb) (lit "Untitled source");
         srcUri := nullish (uri wb) [] |}
  | None => {| srcTitle := lit "Untitled source"; srcUri := [] |}
  end.

Definition extractSources (res : GenerateContentResponse) : list Source :=
  map toSource (filter hasUri (chunksOf res)).

(** A JavaScript [Map] with string keys: its entries in insertion order.
    [set] on a key already there replaces the value and keeps the place. *)
Fixpoint mapSet {V} (k : JsString) (v : V) (m : list (JsString * V))
  : list (JsString * V) :=
  match m with
  | [] => [(k, v)]
  | (k', v') :: rest =>
      if Js.eqb k' k then (k', v) :: rest else (k', v') :: mapSet k v rest
  end.

(** [new Map(entries)] *)
Definition newMap {V} (entries : list (JsString * V)) : list (JsString * V) :=
  fold_left (fun m kv => mapSet (fst kv) (snd kv) m) entries [].

(** [Array.from(m.values())] *)
Definition mapValues {V} (m : list (JsString * V)) : list V := map snd m.

(** [uniqueSources] of the two responses. *)
Definition uniqueSources (caseRes statuteRes : GenerateContentResponse)
  : list Source :=
  let allSources := extractSources caseRes ++ extractSources statuteRes in
  mapValues (newMap (map (fun s => (srcUri s, s)) allSources)).

(** [t?.trim() || placeholder] *)
Definition trimmedOr (t : option JsString) (placeholder : JsString)
  : JsString :=
  match t with
  | Some s => if truthy (trim s) then trim s else placeholder
  | None => placeholder
  end.

Definition combinedText (caseRes statuteRes : GenerateContentResponse)
  : JsString :=
  join nl
    [ lit "# Indiana Civil Legal Research Report (Grounded with Google Search)";
      [];
      lit "## Civil Case Law Analysis";
      trimmedOr (text caseRes) (lit "(no case law summary returned)");
      [];
      lit "## Relevant Statutes & Trial Rules";
      trimmedOr (text statuteRes) (lit "(no statutes returned)");
      [];
      lit "**Sources (" ++ ofNat (List.length (uniqueSources caseRes statuteRes))
        ++ lit ")**: see below" ].

Record Research := { report : JsString; sources : list Source }.

(** [runTask] of [researchLegalPrecedent], around its await: the request
    goes out, and when the response is in, usage is tracked and the
    response returned. *)
Definition runTask (svc : GeminiService) (model : Model)
  (system user : JsString)
  : Awaited World GenerateContentResponse (Outcome GenerateContentResponse) :=
  {| send := callApi svc (Generate model user system 0%Q None [googleSearch]);
     receive := fun p w =>
       match p with
       | Returned response => (Returned response, trackUsage svc response w)
       | Threw e => (Threw e, w)
       end |}.

Definition caseSystem : JsString :=
  lit "You are a Senior Indiana Appellate & Supreme Court Legal Researcher specializing in civil matters. Use recent case law only. Be precise, cite holdings clearly.".
Definition caseUser (query : JsString) : JsString :=
  lit "Analyze and summarize recent Indiana civil case law relevant to: " ++ query.
Definition caseFallbackSystem : JsString :=
  lit "Senior Indiana Legal Researcher " ++ [en_dash]
    ++ lit " focus on civil case law".
Definition caseFallbackUser (query : JsString) : JsString :=
  lit "Recent Indiana civil case law for: " ++ query.
Definition statuteSystem : JsString :=
  lit "You are an expert in Indiana Code across all relevant titles for civil law, including contracts, torts, property, family, and procedural rules like Indiana Trial Rules.".
Definition statuteUser (query : JsString) : JsString :=
  lit "List and explain relevant Indiana statutes, codes, and Trial Rules for: "
    ++ query.

Definition researchFailed : Thrown :=
  newError (lit "Failed to complete grounded legal research. The search engine or model may be temporarily unavailable.").

(** The two calls of [withRetry] under [Promise.all], with the world and
    the events of each. *)
Record Racing := {
  caseChain : Chain GenerateContentResponse (Outcome GenerateContentResponse);
  statuteChain : Chain GenerateContentResponse (Outcome GenerateContentResponse);
  raceWorld : World;
  caseLog : list RetryEvent;
  statuteLog : list RetryEvent }.

Definition stepCase (svc : GeminiService) (query : JsString) (s : Racing)
  : Racing :=
  let '(c, w, e) :=
    resumeChain (runTask svc reasoning caseSystem (caseUser query))
      (Some (runTask svc fast caseFallbackSystem (caseFallbackUser query)))
      4 1800 (caseChain s) (raceWorld s) in
  {| caseChain := c; statuteChain := statuteChain s; raceWorld := w;
     caseLog := caseLog s ++ e; statuteLog := statuteLog s |}.

Definition stepStatute (svc : GeminiService) (query : JsString) (s : Racing)
  : Racing :=
  let '(c, w, e) :=
    resumeChain (runTask svc fast statuteSystem (statuteUser query))
      None 4 1800 (statuteChain s) (raceWorld s) in
  {| caseChain := caseChain s; statuteChain := c; raceWorld := w;
     caseLog := caseLog s; statuteLog := statuteLog s ++ e |}.

(** The event loop: as long as a call is pending, the response or the
    timer that comes next belongs to one of the two, and that call goes
    on to its next await.  [sched n] tells whose turn the [n]-th is when
    both are pending. *)
Fixpoint race (svc : GeminiService) (query : JsString) (fuel : nat)
  (sched : nat -> bool) (n : nat) (s : Racing) : option Racing :=
  match pending (caseChain s), pending (statuteChain s) with
  | false, false => Some s
  | caseTurn, statuteTurn =>
      match fuel with
      | O => None
      | Datatypes.S fuel' =>
          race svc query fuel' sched (Datatypes.S n)
            (if caseTurn && (sched n || negb statuteTurn)
             then stepCase svc query s else stepStatute svc query s)
      end
  end.

(** Ten steps at most for each call: two for an attempt that is retried,
    one for the last attempt and one for the fallback. *)
Definition researchFuel : nat := 20.

(** [researchLegalPrecedent].  The two calls of [withRetry] are made one
    after the other, so the case-law request goes out first and the
    statutes request second, before any response; from there on the two
    calls go on as [sched] has it.  The result is that of [Promise.all]
    and of the [catch]; the world is the one left when both calls have
    ended (a call still pending when the other has failed runs on). *)
Definition researchLegalPrecedent (svc : GeminiService) (sched : nat -> bool)
  (query : JsString) (w : World)
  : option (Outcome Research * World * (list RetryEvent * list RetryEvent)) :=
  let '(c1, w1, caseEvents) :=
    startChain (runTask svc reasoning caseSystem (caseUser query))
      (Some (runTask svc fast caseFallbackSystem (caseFallbackUser query)))
      4 1800 w in
  let '(c2, w2, statuteEvents) :=
    startChain (runTask svc fast statuteSystem (statuteUser query))
      None 4 1800 w1 in
  match
    race svc query researchFuel sched 0
      {| caseChain := c1; statuteChain := c2; raceWorld := w2;
         caseLog := caseEvents; statuteLog := statuteEvents |}
  with
  | None => None
  | Some s =>
      match caseChain s, statuteChain s with
      | Settled (Returned caseRes), Settled (Returned statuteRes) =>
          Some (Returned {| report := combinedText caseRes statuteRes;
                            sources := uniqueSources caseRes statuteRes |},
                raceWorld s, (caseLog s, statuteLog s))
      | _, _ =>
          Some (Threw researchFailed, raceWorld s, (caseLog s, statuteLog s))
      end
  end.

(** **** Drafting *)

Definition draftSystem : JsString :=
  lit "You are an experienced Indiana Civil Law Attorney handling all types of civil matters (contracts, torts, property, family, etc.). Draft formal motions in proper legal format: caption, title, numbered paragraphs, prayer for relief, certificate of service, verification block.".

Definition draftFailed : JsString :=
  lit "// Motion drafting failed " ++ [en_dash] ++ lit " please try again".

Definition draftPrompt (topic : JsString) (files : list CaseFile)
  (userInstructions : JsString) : JsString :=
  let context := formatCaseFiles files in
  join (nl ++ nl)
    (filter truthy
       [ lit "Draft a professional Indiana civil law motion regarding: " ++ topic;
         if truthy userInstructions
         then lit "Additional user instructions:" ++ nl ++ userInstructions
         else [];
         if truthy context then lit "CASE CONTEXT:" ++ nl ++ context else [] ]).

Definition runDraft (svc : GeminiService) (prompt : JsString) (model : Model)
  : Op World GenerateContentResponse :=
  callApi svc (Generate model prompt draftSystem 0.25%Q (Some 0.95%Q) []).

Definition draftMotion (svc : GeminiService) (topic : JsString)
  (files : list CaseFile) (userInstructions : JsString) (w : World)
  : option (Outcome JsString * World * list RetryEvent) :=
  let prompt := draftPrompt topic files userInstructions in
  match
    withRetry (runDraft svc prompt reasoning) (Some (runDraft svc prompt fast))
      4 1800 w
  with
  | None => None
  | Some (Returned response, w1, evs) =>
      Some (Returned (trimmedOr (text response) draftFailed),
            trackUsage svc response w1, evs)
  | Some (Threw e, w1, evs) => Some (Threw e, w1, evs)
  end.

(** **** Chat *)

Definition chatSystem : JsString :=
  lit "You are HoosierLaw " ++ [en_dash]
    ++ lit " knowledgeable, professional Indiana civil law assistant handling all types of civil matters including contracts, torts, property, family, and more. Be concise, accurate, cite authority when possible.".

Definition fullMessage (message : JsString) (files : list CaseFile)
  : JsString :=
  let context := formatCaseFiles files in
  if truthy context
  then lit "CASE DATA (do NOT repeat unless asked):" ++ nl ++ context
         ++ nl ++ nl ++ lit "USER: " ++ message
  else message.

Definition runChat (svc : GeminiService) (message : JsString)
  (files : list CaseFile) (history : list HistoryTurn) (model : Model)
  : Op World JsString :=
  fun w =>
    match
      callApi svc (Chat model chatSystem 0.45%Q history (fullMessage message files)) w
    with
    | (Returned res, w1) =>
        (Returned (match text res with
                   | Some t => trim t
                   | None => lit "No response received."
                   end),
         trackUsage svc res w1)
    | (Threw e, w1) => (Threw e, w1)
    end.

Definition chatWithExpert (svc : GeminiService) (message : JsString)
  (files : list CaseFile) (history : list HistoryTurn) (w : World)
  : option (Outcome JsString * World * list RetryEvent) :=
  withRetry (runChat svc message files history reasoning)
    (Some (runChat svc message files history fast)) 4 1800 w.

End Service.
End Gemini.

(** ** The chat view: [Assistant] of [App.tsx] *)
Module App.

Import Gemini.

(** [ChatMessage] as [handleSend] builds it. *)
Record ChatMessage := {
  id : JsString;
  role : JsString;
  text : JsString;
  timestamp : Z }.

(** The state of the component: [messages], [input] and [thinking]. *)
Record Assistant := {
  messages : list ChatMessage;
  input : JsString;
  thinking : bool }.

Definition apology : JsString :=
  lit "I encountered an error. Please try again.".

(** [messages.map(m => ({ role: m.role, parts: [{ text: m.text }] }))] *)
Definition historyOf (msgs : list ChatMessage) : list HistoryTurn :=
  map (fun m => {| Gemini.role := role m;
                   parts := [ {| partText := text m |} ] |}) msgs.

Section HandleSend.

Variable S : Type.
Variable U : Type.

(** [Date.now()], read from the state of the outside world. *)
Variable dateNow : S -> Z.

Definition stamped (w : World S U) (r t : JsString) : ChatMessage :=
  {| id := ofZ (dateNow (backend w)); role := r; text := t;
     timestamp := dateNow (backend w) |}.

(** [handleSend]: the component after the handler has run to its end.
    [messages] of the closure is the list before the user turn is added,
    and each [setMessages] appends to the list as it then is. *)
Definition handleSend (svc : GeminiService S U) (files : list CaseFile)
  (st : Assistant) (w : World S U)
  : option (Assistant * World S U * list RetryEvent) :=
  if negb (truthy (trim (input st))) then Some (st, w, [])
  else
    let userMsg := stamped w (lit "user") (input st) in
    let history := historyOf (messages st) in
    match chatWithExpert svc (text userMsg) files history w with
    | None => None
    | Some (Returned responseText, w1, evs) =>
        Some ({| messages := (messages st ++ [userMsg])
                               ++ [stamped w1 (lit "model") responseText];
                 input := []; thinking := false |}, w1, evs)
    | Some (Threw e, w1, evs) =>
        Some ({| messages := (messages st ++ [userMsg])
                               ++ [stamped w1 (lit "model") apology];
                 input := []; thinking := false |}, w1, evs)
    end.

End HandleSend.
End App.

(** ** The other components of [App.tsx] *)

(** [ResearchTool] *)
Module ResearchTool.

Import Gemini.

Record State := {
  query : JsString;
  loading : bool;
  result : option Research }.

Definition alertText : JsString := lit "Research failed. Please try again.".

(** [handleResearch]: the component after the handler has run to its end,
    the world, and the texts shown with [alert]; [sched] is the order in
    which the responses of the research come in. *)
Definition handleResearch {S U} (svc : GeminiService S U)
  (sched : nat -> bool) (st : State) (w : World S U)
  : option (State * World S U * list JsString) :=
  if negb (truthy (trim (query st))) then Some (st, w, [])
  else
    match researchLegalPrecedent svc sched (query st) w with
    | None => None
    | Some (Returned data, w1, _) =>
        Some ({| query := query st; loading := false; result := Some data |},
              w1, [])
    | Some (Threw _, w1, _) =>
        Some ({| query := query st; loading := false; result := None |},
              w1, [alertText])
    end.

End ResearchTool.

(** [MotionDrafter] *)
Module MotionDrafter.

Import Gemini.

Record State := {
  topic : JsString;
  instructions : JsString;
  draft : JsString;
  loading : bool }.

Definition alertText : JsString := lit "Drafting failed.".

(** [handleDraft] *)
Definition handleDraft {S U} (svc : GeminiService S U) (files : list CaseFile)
  (st : State) (w : World S U) : option (State * World S U * list JsString) :=
  if negb (truthy (topic st)) || negb (truthy (instructions st))
  then Some (st, w, [])
  else
    match draftMotion svc (topic st) files (instructions st) w with
    | None => None
    | Some (Returned result, w1, _) =>
        Some ({| topic := topic st; instructions := instructions st;
                 draft := result; loading := false |}, w1, [])
    | Some (Threw _, w1, _) =>
        Some ({| topic := topic st; instructions := instructions st;
                 draft := draft st; loading := false |}, w1, [alertText])
    end.

End MotionDrafter.

(** [FileManager] and the two callbacks [App] gives it. *)
Module FileManager.

Record InlineData := { mimeType : JsString; data : option JsString }.

(** [CaseFile] with all the fields [handleFileChange] fills; the service
    reads [name] and [content] only. *)
Record CaseFile := {
  id : JsString;
  name : JsString;
  type : JsString;
  content : JsString;
  inlineData : option InlineData;
  dateAdded : Z }.



Definition comma : N := 44%N.

(** [s.split(",")] *)
Fixpoint splitOn (sep : N) (s : JsString) : list JsString :=
  match s with
  | [] => [[]]
  | c :: rest =>
      if (c =? sep)%N then [] :: splitOn sep rest
      else
        match splitOn sep rest with
        | p :: ps => (c :: p) :: ps
        | [] => [[c]]
        end
  end.


(** [onUpload]: [setFiles([...files, f])] *)
Definition onUpload (f : CaseFile) (files : list CaseFile) : list CaseFile :=
  files ++ [f].

(** [onDelete]: [setFiles(files.filter(f => f.id !== id))] *)
Definition onDelete (i : JsString) (files : list CaseFile) : list CaseFile :=
  filter (fun f => negb (Js.eqb (id f) i)) files.

Definition alertText : JsString := lit "Error reading file.".


End FileManager.

(** ** The properties, in the words of the design *)
Module Spec.

Import Gemini.

(** [m] contains [marker] somewhere. *)
Definition containsMarker (m marker : JsString) : Prop :=
  exists p q, m = p ++ marker ++ q.





(** The world after [n] calls of the operation, one after the other. *)
Fixpoint worldAfter {W T} (operation : Op W T) (n : nat) (w : W) : W :=
  match n with
  | O => w
  | S k => worldAfter operation k (snd (operation w))
  end.

(** How the [n]-th call made from [w] on ends, counting from 0. *)
Definition attemptOutcome {W T} (operation : Op W T) (n : nat) (w : W)
  : Outcome T :=
  fst (operation (worldAfter operation n w)).

(** Each of the [maxRetries + 1] attempts made from [w] on fails with a
    retryable error. *)
Definition failsOnEveryAttempt {W T} (operation : Op W T) (maxRetries : Z)
  (w : W) : Prop :=
  forall i : nat, (Z.of_nat i <= maxRetries)%Z ->
    exists e, attemptOutcome operation i w = Threw e /\ isRetryable e = true.

(** The primary fails with a retryable error whenever it is called. *)
Definition alwaysRetryable {W T} (operation : Op W T) : Prop :=
  forall w, exists e w', operation w = (Threw e, w') /\ isRetryable e = true.

(** The keys of [l] in first-seen order: a key is kept where it first
    occurs and dropped afterwards; [seen] are the keys met so far. *)
Fixpoint firstSeenFrom (seen l : list JsString) : list JsString :=
  match l with
  | [] => []
  | k :: rest =>
      if existsb (Js.eqb k) seen then firstSeenFrom seen rest
      else k :: firstSeenFrom (seen ++ [k]) rest
  end.

Definition firstSeen (l : list JsString) : list JsString := firstSeenFrom [] l.

(** The world after the listener has been called with [n]. *)
Definition notified {S U} (listener : Z -> U -> U) (n : Z) (w : World S U)
  : World S U :=
  {| backend := backend w; observer := listener n (observer w);
     apiLog := apiLog w; listenerLog := listenerLog w ++ [n] |}.

(** The response [r] with a usage record of the three counts [t], [p],
    [c]. *)
Definition withUsage (r : GenerateContentResponse) (t p c : option Z)
  : GenerateContentResponse :=
  {| text := text r;
     usageMetadata :=
       Some {| totalTokenCount := t; promptTokenCount := p;
               candidatesTokenCount := c |};
     candidates := candidates r |}.

(** Every request is rejected with a retryable error. *)
Definition backendDown {S U} (svc : GeminiService S U) : Prop :=
  forall c s, exists e s', ai svc c s = (Threw e, s') /\ isRetryable e = true.

(** The three requests of [researchLegalPrecedent]. *)
Definition caseCall (query : JsString) : ApiCall :=
  Generate reasoning (caseUser query) caseSystem 0%Q None [googleSearch].
Definition caseFallbackCall (query : JsString) : ApiCall :=
  Generate fast (caseFallbackUser query) caseFallbackSystem 0%Q None
    [googleSearch].
Definition statuteCall (query : JsString) : ApiCall :=
  Generate fast (statuteUser query) statuteSystem 0%Q None [googleSearch].

(** The call did not produce a value: it ran to its end and threw. *)
Definition failed {A B C} (r : option (Outcome A * B * C)) : Prop :=
  match r with
  | Some (Threw _, _, _) => True
  | _ => False
  end.

(** The world the loop of [withRetry] leaves. *)
Definition exitWorld {W T} (x : LoopExit W T) : W :=
  match x with
  | LoopReturn _ w => w
  | LoopLeft _ w => w
  end.

(** The deterministic part of the time slept, in milliseconds: the sum of
    the bases of the [Sleep] events. *)
Definition backoffTotal (evs : list RetryEvent) : Z :=
  fold_right (fun e acc => match e with Sleep _ base => base + acc | _ => acc end)%Z
    0%Z evs.

Definition isWarnRetry (e : RetryEvent) : bool :=
  match e with WarnRetry _ _ _ => true | _ => false end.

Definition retryWarnings (evs : list RetryEvent) : nat :=
  List.length (filter isWarnRetry evs).

(** A sleep follows the backoff schedule from attempt [lo] on: it comes
    after an attempt that is not the last one, and its base doubles with
    each attempt. *)
Definition onSchedule (lo maxRetries baseDelayMs : Z) (e : RetryEvent) : Prop :=
  match e with
  | Sleep attempt base =>
      (lo <= attempt < maxRetries)%Z /\ base = (baseDelayMs * 2 ^ attempt)%Z
  | _ => True
  end.

(** The request of [draftMotion] and the request of [chatWithExpert], on
    the model [model]. *)
Definition draftCall (prompt : JsString) (model : Model) : ApiCall :=
  Generate model prompt draftSystem 0.25%Q (Some 0.95%Q) [].
Definition chatCall (message : JsString) (files : list CaseFile)
  (history : list HistoryTurn) (model : Model) : ApiCall :=
  Chat model chatSystem 0.45%Q history (fullMessage message files).

(** From [w] to [w'] the listener was not called. *)
Definition unheard {S U} (w w' : World S U) : Prop :=
  listenerLog w' = listenerLog w /\ observer w' = observer w.

(** The reply of [chatWithExpert] to a response. *)
Definition chatReply (res : GenerateContentResponse) : JsString :=
  match text res with
  | Some t => trim t
  | None => lit "No response received."
  end.

(** The turns [handleSend] replays as history. *)
Definition userTurn (t : JsString) : HistoryTurn :=
  {| role := lit "user"; parts := [ {| partText := t |} ] |}.
Definition modelTurn (t : JsString) : HistoryTurn :=
  {| role := lit "model"; parts := [ {| partText := t |} ] |}.

(** What the model turn of a send says. *)
Definition replyText (r : Outcome JsString) : JsString :=
  match r with
  | Returned t => t
  | Threw _ => App.apology
  end.

(** *** A call of [withRetry] taken step by step *)

(** A bound of the steps a call still takes: two for an attempt that is
    retried, one for the last attempt and one for the fallback. *)
Definition stepsLeft {T P} (maxRetries : Z) (c : Chain T P) : nat :=
  match c with
  | AtLoop attempt _ => 2 * Z.to_nat (maxRetries + 1 - attempt) + 1
  | AwaitingPrimary attempt _ => 2 * Z.to_nat (maxRetries - attempt) + 2
  | AwaitingFallback _ _ => 1
  | Settled _ => 0
  end.

(** What the events recorded so far say of where the call stands;
    [fallback] tells whether it was given a fallback. *)
Definition standing {T P} (fallback : bool) (maxRetries : Z) (c : Chain T P)
  (evs : list RetryEvent) : Prop :=
  match c with
  | AtLoop attempt _ =>
      (0 <= attempt <= maxRetries)%Z
      /\ Z.of_nat (primaryCalls evs) = attempt
      /\ fallbackCalls evs = 0%nat
  | AwaitingPrimary attempt _ =>
      (0 <= attempt <= maxRetries)%Z
      /\ Z.of_nat (primaryCalls evs) = (attempt + 1)%Z
      /\ fallbackCalls evs = 0%nat
  | AwaitingFallback _ _ =>
      fallback = true
      /\ (Z.of_nat (primaryCalls evs) <= maxRetries + 1)%Z
      /\ fallbackCalls evs = 1%nat
  | Settled _ =>
      (Z.of_nat (primaryCalls evs) <= maxRetries + 1)%Z
      /\ (fallbackCalls evs <= 1)%nat
      /\ (fallback = false -> fallbackCalls evs = 0%nat)
  end.

(** Every response the call waits for, and the value it returned if it
    did, is [Good]. *)
Definition holding {T} (Good : Outcome T -> Prop) (c : Chain T (Outcome T))
  : Prop :=
  match c with
  | AtLoop _ _ => True
  | AwaitingPrimary _ p => Good p
  | AwaitingFallback _ p => Good p
  | Settled r => forall v, r = Returned v -> Good (Returned v)
  end.

(** The call has used, or is using, its last attempt or its fallback only
    after all the attempts. *)
Definition exhausted {T P} (fallback : bool) (maxRetries : Z) (c : Chain T P)
  (evs : list RetryEvent) : Prop :=
  match c with
  | AwaitingFallback _ _ => Z.of_nat (primaryCalls evs) = (maxRetries + 1)%Z
  | Settled r =>
      (exists e, r = Threw e)
      /\ Z.of_nat (primaryCalls evs) = (maxRetries + 1)%Z
      /\ fallbackCalls evs = if fallback then 1%nat else 0%nat
  | _ => True
  end.

(** A rejection with a retryable error. *)
Definition rejected {T} (p : Outcome T) : Prop :=
  exists e, p = Threw e /\ isRetryable e = true.

(** [researchLegalPrecedent] when its two calls of [withRetry] have been
    made: both first requests are out, case law first, and no response is
    in. *)
Definition started {S U} (svc : GeminiService S U) (query : JsString)
  (w : World S U) : Racing S U :=
  let w1 := snd (callApi svc (caseCall query) w) in
  {| caseChain := AwaitingPrimary 0 (fst (callApi svc (caseCall query) w));
     statuteChain := AwaitingPrimary 0 (fst (callApi svc (statuteCall query) w1));
     raceWorld := snd (callApi svc (statuteCall query) w1);
     caseLog := [CallPrimary 0];
     statuteLog := [CallPrimary 0] |}.

(** What [researchLegalPrecedent] makes of the two calls when both have
    ended. *)
Definition gathered {S U} (s : Racing S U) : Outcome Research :=
  match caseChain s, statuteChain s with
  | Settled (Returned caseRes), Settled (Returned statuteRes) =>
      Returned {| report := combinedText caseRes statuteRes;
                  sources := uniqueSources caseRes statuteRes |}
  | _, _ => Threw researchFailed
  end.

(** The source a grounding chunk stands for: none unless the chunk has a
    web part with a URI that is not empty; the title is that of the web
    part, ["Untitled source"] when it has none. *)
Definition sourceOf (c : GroundingChunk) : list Source :=
  match web c with
  | Some wb =>
      match uri wb with
      | Some (k :: u) =>
          [ {| srcTitle := match title wb with
                           | Some t => t
                           | None => lit "Untitled source"
                           end;
               srcUri := k :: u |} ]
      | _ => []
      end
  | None => []
  end.

End Spec.

(** ** Concrete backends, errors and documents *)
Module Sample.

Import Gemini.

Definition err503 : Thrown :=
  Obj {| status := Some (JNum 503); code := None;
         message := Some (lit "Service Unavailable") |}.

Definition errBadRequest : Thrown :=
  Obj {| status := Some (JNum 400); code := None;
         message := Some (lit "Bad request") |}.

Definition errFallback : Thrown :=
  Obj {| status := Some (JNum 500); code := None;
         message := Some (lit "fallback model failed") |}.

(** Operations on a world that counts the calls made. *)
Definition opDown : Op nat nat := fun w => (Threw err503, S w).
Definition opBad : Op nat nat := fun w => (Threw errBadRequest, S w).
Definition fbDown : Op nat nat := fun w => (Threw errFallback, S w).
Definition fbOk : Op nat nat := fun w => (Returned 7%nat, S w).

(** A world with a stateless backend and a listener that adds the counts
    up, as [App] registers it. *)
Definition world0 : World unit Z :=
  {| backend := tt; observer := 0%Z; apiLog := []; listenerLog := [] |}.

Definition answering (r : GenerateContentResponse) : GeminiService unit Z :=
  {| ai := fun _ s => (Returned r, s); tokenListener := Some Z.add |}.

(** A backend that rejects every request with status 503. *)
Definition svcDown : GeminiService unit Z :=
  {| ai := fun _ s => (Threw err503, s); tokenListener := Some Z.add |}.

(** [{ totalTokenCount: 0, promptTokenCount: 5 }] *)
Definition usageZeroTotal : GenerateContentResponse :=
  {| text := None;
     usageMetadata :=
       Some {| totalTokenCount := Some 0%Z; promptTokenCount := Some 5%Z;
               candidatesTokenCount := None |};
     candidates := None |}.

Definition blankResponse : GenerateContentResponse :=
  {| text := Some (lit "   "); usageMetadata := None; candidates := None |}.

(** A document of 14,001 characters. *)
Definition bigFile : CaseFile :=
  {| name := lit "big.txt"; content := repeat 97%N (N.to_nat 14001) |}.

(** A response with the text [t] and one grounding chunk. *)
Definition grounded (t ttl u : string) : GenerateContentResponse :=
  {| text := Some (lit t); usageMetadata := None;
     candidates :=
       Some [ {| groundingMetadata :=
                   Some {| groundingChunks :=
                             Some [ {| web := Some {| title := Some (lit ttl);
                                                      uri := Some (lit u) |} |} ]
                        |} |} ] |}.

Definition roleA : GenerateContentResponse := grounded "A1" "X" "u1".
Definition roleB : GenerateContentResponse := grounded "B1" "Y" "u1".
Definition roleC : GenerateContentResponse := grounded "C1" "Z" "u2".

(** A component with an empty transcript and ["hi"] typed in. *)
Definition typedHi : App.Assistant :=
  {| App.messages := []; App.input := lit "hi"; App.thinking := false |}.

Definition clock : unit -> Z := fun _ => 1700000000000%Z.

(** A primary that is rejected twice with a 503 and then answers. *)
Definition opFlaky : Op nat nat :=
  fun w => if (w <? 2)%nat then (Threw err503, S w) else (Returned 7%nat, S w).

(** An answer that reports twelve tokens. *)
Definition twelveTokens : GenerateContentResponse :=
  Spec.withUsage
    {| text := Some (lit " MOTION TO MODIFY "); usageMetadata := None;
               candidates := None |}
    (Some 12%Z) None None.

Definition smallFile : CaseFile :=
  {| name := lit "order.txt"; content := lit "  So ordered. " |}.


Definition draftForm : MotionDrafter.State :=
  {| MotionDrafter.topic := lit "custody";
     MotionDrafter.instructions := lit "moved in May";
     MotionDrafter.draft := lit "earlier draft";
     MotionDrafter.loading := false |}.

Definition researchForm : ResearchTool.State :=
  {| ResearchTool.query := lit "custody relocation";
     ResearchTool.loading := false;
     ResearchTool.result :=
       Some {| report := lit "earlier report"; sources := [] |} |}.

(** A primary that is rejected with a 503 five times and would answer the
    sixth time. *)
Definition opFiveDown : Op nat nat :=
  fun w => if (w <? 5)%nat then (Threw err503, S w) else (Returned 7%nat, S w).



(** Two orders in which the responses and timers of the two research calls
    come in: in turns, and the statutes call served first. *)
Definition inTurns : nat -> bool := Nat.even.
Definition statutesFirst : nat -> bool := fun _ => false.

Definition chunk (t u : option string) : GroundingChunk :=
  {| web := Some {| title := option_map lit t; uri := option_map lit u |} |}.

(** A response with two candidates; the first has chunks with and without
    web part, title and URI, and one with an empty URI. *)
Definition twoCandidates : GenerateContentResponse :=
  {| text := None; usageMetadata := None;
     candidates :=
       Some [ {| groundingMetadata :=
                   Some {| groundingChunks :=
                             Some [ chunk (Some "T"%string) (Some "u1"%string);
                                    {| web := None |};
                                    chunk None (Some "u2"%string);
                                    chunk (Some "E"%string) (Some EmptyString);
                                    chunk (Some "N"%string) None ] |} |};
              {| groundingMetadata :=
                   Some {| groundingChunks :=
                             Some [ chunk (Some "late"%string) (Some "u3"%string) ] |} |} ] |}.

End Sample.

Unset Implicit Arguments.

(** ** Facts about the string operations *)
Module JsFacts.

Lemma eqb_eq (a b : JsString) : Js.eqb a b = true <-> a = b.
Proof.
  unfold Js.eqb. destruct (list_eq_dec N.eq_dec a b); split; congruence.
Qed.

Lemma eqb_neq (a b : JsString) : Js.eqb a b = false <-> a <> b.
Proof.
  unfold Js.eqb. destruct (list_eq_dec N.eq_dec a b); split; congruence.
Qed.



Lemma trimStart_nil_iff (s : JsString) :
  trimStart s = [] <-> whitespaceOnly s = true.
Proof.
  induction s as [|c s IH]; simpl.
  - tauto.
  - destruct (isWhiteSpace c); simpl; [exact IH | split; discriminate].
Qed.

Lemma trimStart_head (s : JsString) c r :
  trimStart s = c :: r -> isWhiteSpace c = false.
Proof.
  induction s as [|d s IH]; simpl; [discriminate|].
  destruct (isWhiteSpace d) eqn:E; [exact IH | congruence].
Qed.

Lemma trimStart_whitespaceOnly (s : JsString) :
  whitespaceOnly (trimStart s) = whitespaceOnly s.
Proof.
  induction s as [|c s IH]; simpl; [reflexivity|].
  destruct (isWhiteSpace c) eqn:E; simpl; [exact IH | now rewrite E].
Qed.

Lemma whitespaceOnly_rev (s : JsString) :
  whitespaceOnly (rev s) = whitespaceOnly s.
Proof.
  unfold whitespaceOnly. induction s as [|c s IH]; simpl; [reflexivity|].
  rewrite forallb_app, IH. simpl. rewrite andb_true_r. apply andb_comm.
Qed.

Lemma trim_nil_iff (s : JsString) :
  trim s = [] <-> whitespaceOnly s = true.
Proof.
  unfold trim, trimEnd.
  rewrite <- (trimStart_whitespaceOnly s), <- (whitespaceOnly_rev (trimStart s)).
  rewrite <- trimStart_nil_iff. split.
  - intros H. apply (f_equal (@rev N)) in H. now rewrite rev_involutive in H.
  - intros ->. reflexivity.
Qed.

Lemma trimStart_keeps_last (l : JsString) c :
  isWhiteSpace c = false -> exists x, trimStart (l ++ [c]) = x ++ [c].
Proof.
  intros Hc. induction l as [|d l [x IH]]; simpl.
  - rewrite Hc. now exists [].
  - destruct (isWhiteSpace d).
    + now exists x.
    + now exists (d :: l).
Qed.

(** A trimmed string that is not empty starts with a code unit that is
    not white space. *)
Lemma trim_head (s : JsString) c r :
  trim s = c :: r -> isWhiteSpace c = false.
Proof.
  unfold trim, trimEnd. destruct (trimStart s) as [|d t] eqn:E.
  - discriminate.
  - pose proof (trimStart_head _ _ _ E) as Hd. simpl.
    destruct (trimStart_keeps_last (rev t) d Hd) as [x ->].
    rewrite rev_app_distr. simpl. congruence.
Qed.

Lemma trim_not_whitespaceOnly (s : JsString) :
  truthy (trim s) = true -> whitespaceOnly (trim s) = false.
Proof.
  destruct (trim s) as [|c r] eqn:E; simpl; [discriminate|].
  intros _. now rewrite (trim_head _ _ _ E).
Qed.

Lemma length_slice0 n (s : JsString) :
  List.length (slice0 n s) = Nat.min n (List.length s).
Proof. apply length_firstn. Qed.

End JsFacts.

(** ** Facts about [withRetry] *)
Module RetryFacts.

Import Gemini Spec.

Section Loop.

Variables W T : Type.
Variable operation : Op W T.
Variable fallbackOperation : option (Op W T).
Variable maxRetries baseDelayMs : Z.

Let loop := retryLoop operation maxRetries baseDelayMs.

Ltac count_events :=
  unfold primaryCalls, fallbackCalls, sleeps in *; simpl in *.

(** With the fuel [withRetry] gives it the loop reaches its end; it calls
    the primary at most once per remaining attempt, sleeps between two
    calls only, and never runs the fallback. *)
Lemma retryLoop_exits fuel : forall attempt last w,
  (Z.to_nat (maxRetries + 1 - attempt) < fuel)%nat ->
  exists x evs, loop fuel attempt last w = Some (x, evs)
    /\ (primaryCalls evs <= Z.to_nat (maxRetries + 1 - attempt))%nat
    /\ fallbackCalls evs = 0%nat
    /\ ((attempt <= maxRetries)%Z -> S (sleeps evs) = primaryCalls evs)
    /\ ((maxRetries < attempt)%Z -> evs = []).
Proof.
  induction fuel as [|fuel IH]; intros attempt last w Hfuel; [lia|].
  cbn [loop retryLoop]. fold loop.
  destruct (attempt <=? maxRetries)%Z eqn:Hle.
  - apply Z.leb_le in Hle.
    destruct (operation w) as [[v|err] w1].
    + eexists _, _. split; [reflexivity|]. count_events.
      repeat split; lia.
    + destruct (negb (isRetryable err) || (attempt =? maxRetries)%Z) eqn:Hstop.
      * eexists _, _. split; [reflexivity|]. count_events.
        repeat split; lia.
      * apply orb_false_iff in Hstop. destruct Hstop as [_ Hne].
        apply Z.eqb_neq in Hne.
        destruct (IH (attempt + 1)%Z err w1) as (x & evs & -> & Hp & Hf & Hs & _);
          [lia|].
        eexists _, _. split; [reflexivity|]. count_events.
        repeat split; lia.
  - apply Z.leb_gt in Hle. eexists _, _. split; [reflexivity|]. count_events.
    repeat split; lia.
Qed.

(** When the loop is left without a value after at least one attempt,
    [lastError] is what the last call of the primary threw. *)
Lemma retryLoop_last_error fuel : forall attempt last w e w1 evs,
  loop fuel attempt last w = Some (LoopLeft e w1, evs) ->
  (attempt <= maxRetries)%Z ->
  exists w', operation w' = (Threw e, w1).
Proof.
  induction fuel as [|fuel IH]; intros attempt last w e w1 evs; [discriminate|].
  cbn [loop retryLoop]. fold loop. intros H Hle.
  apply Z.leb_le in Hle as Hle'. rewrite Hle' in H.
  destruct (operation w) as [[v|err] w2] eqn:Hop; [discriminate|].
  destruct (negb (isRetryable err) || (attempt =? maxRetries)%Z) eqn:Hstop.
  - injection H as -> -> _. now exists w.
  - apply orb_false_iff in Hstop. destruct Hstop as [_ Hne].
    apply Z.eqb_neq in Hne.
    destruct (loop fuel (attempt + 1)%Z err w2) as [[x evs']|] eqn:Hrec;
      [|discriminate].
    injection H as -> _. apply (IH _ _ _ _ _ _ Hrec). lia.
Qed.

(** A primary that fails with a retryable error on every call uses every
    attempt; [Inv k] is what is known of the world after [k] calls. *)
Lemma retryLoop_exhausts (Inv : nat -> W -> Prop) :
  (forall k w, Inv k w ->
     exists e w', operation w = (Threw e, w') /\ isRetryable e = true
                  /\ Inv (S k) w') ->
  forall fuel attempt last w k,
  (Z.to_nat (maxRetries + 1 - attempt) < fuel)%nat ->
  (attempt <= maxRetries)%Z ->
  Inv k w ->
  exists e w' evs, loop fuel attempt last w = Some (LoopLeft e w', evs)
    /\ primaryCalls evs = Z.to_nat (maxRetries + 1 - attempt)
    /\ Inv (k + Z.to_nat (maxRetries + 1 - attempt))%nat w'.
Proof.
  intros Hop. induction fuel as [|fuel IH]; intros attempt last w k Hfuel Hle HI;
    [lia|].
  cbn [loop retryLoop]. fold loop.
  apply Z.leb_le in Hle as Hle'. rewrite Hle'.
  destruct (Hop k w HI) as (e & w' & -> & Hr & HI'). rewrite Hr. simpl negb.
  cbn [orb]. destruct (attempt =? maxRetries)%Z eqn:Heq.
  - apply Z.eqb_eq in Heq. subst attempt. eexists _, _, _.
    split; [reflexivity|]. replace (maxRetries + 1 - maxRetries)%Z with 1%Z by lia.
    split; [reflexivity|]. now rewrite Nat.add_1_r.
  - apply Z.eqb_neq in Heq.
    destruct (IH (attempt + 1)%Z e w' (S k)) as (e' & w'' & evs & -> & Hp & HI'');
      [lia | lia | exact HI' |].
    eexists _, _, _. split; [reflexivity|]. count_events. split.
    + rewrite Hp. lia.
    + replace (k + Z.to_nat (maxRetries + 1 - attempt))%nat
        with (S k + Z.to_nat (maxRetries + 1 - (attempt + 1)))%nat by lia.
      exact HI''.
Qed.

Lemma primaryCalls_app a b :
  primaryCalls (a ++ b) = (primaryCalls a + primaryCalls b)%nat.
Proof. unfold primaryCalls. now rewrite filter_app, length_app. Qed.

Lemma fallbackCalls_app a b :
  fallbackCalls (a ++ b) = (fallbackCalls a + fallbackCalls b)%nat.
Proof. unfold fallbackCalls. now rewrite filter_app, length_app. Qed.

Lemma retryFuel_enough : (Z.to_nat (maxRetries + 1 - 0) < retryFuel maxRetries)%nat.
Proof. unfold retryFuel. rewrite Z.sub_0_r. lia. Qed.

(** [withRetry] always ends; it runs the fallback at most once, and not at
    all when there is none. *)
Lemma withRetry_total w :
  exists r w' evs,
    withRetry operation fallbackOperation maxRetries baseDelayMs w
      = Some (r, w', evs)
    /\ (fallbackCalls evs <= 1)%nat
    /\ (fallbackOperation = None -> fallbackCalls evs = 0%nat)
    /\ (Z.of_nat (primaryCalls evs) <= Z.max 0 (maxRetries + 1))%Z.
Proof.
  destruct (retryLoop_exits (retryFuel maxRetries) 0%Z Nullish w retryFuel_enough)
    as (x & evs & Hloop & Hp & Hf & _ & _).
  unfold withRetry. fold loop. rewrite Hloop.
  destruct x as [v w1 | lastError w1].
  - eexists _, _, _. split; [reflexivity|]. repeat split; lia.
  - destruct fallbackOperation as [fallback|].
    + destruct (fallback w1) as [[v | fallbackErr] w2];
        (eexists _, _, _; split; [reflexivity|]);
        rewrite fallbackCalls_app, primaryCalls_app, Hf; cbn;
        (repeat split; [lia | discriminate | lia]).
    + eexists _, _, _. split; [reflexivity|]. repeat split; lia.
Qed.

(** The loop of [withRetry] on a primary that fails with a retryable error
    on every call. *)
Lemma withRetry_loop_exhausted (Inv : nat -> W -> Prop) w k :
  (forall k w, Inv k w ->
     exists e w', operation w = (Threw e, w') /\ isRetryable e = true
                  /\ Inv (S k) w') ->
  (0 <= maxRetries)%Z ->
  Inv k w ->
  exists e w1 evs,
    loop (retryFuel maxRetries) 0%Z Nullish w = Some (LoopLeft e w1, evs)
    /\ primaryCalls evs = Z.to_nat (maxRetries + 1)
    /\ fallbackCalls evs = 0%nat
    /\ Inv (k + Z.to_nat (maxRetries + 1))%nat w1.
Proof.
  intros Hop Hmax HI.
  destruct (retryLoop_exhausts Inv Hop (retryFuel maxRetries) 0%Z Nullish w k
              retryFuel_enough Hmax HI) as (e & w1 & evs & Hloop & Hp & HI').
  destruct (retryLoop_exits (retryFuel maxRetries) 0%Z Nullish w retryFuel_enough)
    as (x & evs' & Hloop' & _ & Hf & _ & _).
  rewrite Hloop in Hloop'. injection Hloop' as <- <-.
  rewrite Z.sub_0_r in Hp, HI'. now exists e, w1, evs.
Qed.

(** The world after one more call is what the operation leaves from the
    world after the calls before. *)
Lemma worldAfter_succ n : forall w,
  worldAfter operation (S n) w = snd (operation (worldAfter operation n w)).
Proof.
  induction n as [|n IH]; intros w; [reflexivity|].
  change (worldAfter operation (S (S n)) w)
    with (worldAfter operation (S n) (snd (operation w))).
  now rewrite IH.
Qed.

(** The loop applies the primary once per [CallPrimary] it records, each
    time to the world the call before left: it exits in the world after
    that many calls, and with the outcome of the last of them. *)
Lemma retryLoop_trajectory fuel : forall attempt last w x evs,
  loop fuel attempt last w = Some (x, evs) ->
  exitWorld x = worldAfter operation (primaryCalls evs) w
  /\ ((attempt <= maxRetries)%Z ->
      exists k, primaryCalls evs = S k
        /\ attemptOutcome operation k w
           = match x with
             | LoopReturn v _ => Returned v
             | LoopLeft e _ => Threw e
             end).
Proof.
  induction fuel as [|fuel IH]; intros attempt last w x evs; [discriminate|].
  cbn [loop retryLoop]. fold loop.
  destruct (attempt <=? maxRetries)%Z eqn:Hle.
  - destruct (operation w) as [[v|err] w1] eqn:Hop.
    + intros H. injection H as <- <-. cbn. rewrite Hop. split; [reflexivity|].
      intros _. exists 0%nat. split; [reflexivity|].
      unfold attemptOutcome. cbn. now rewrite Hop.
    + destruct (negb (isRetryable err) || (attempt =? maxRetries)%Z) eqn:Hstop.
      * intros H. injection H as <- <-. cbn. rewrite Hop. split; [reflexivity|].
        intros _. exists 0%nat. split; [reflexivity|].
        unfold attemptOutcome. cbn. now rewrite Hop.
      * apply orb_false_iff in Hstop. destruct Hstop as [_ Hne].
        apply Z.eqb_neq in Hne. apply Z.leb_le in Hle.
        destruct (loop fuel (attempt + 1)%Z err w1) as [[x' evs']|] eqn:Hrec;
          [|discriminate].
        intros H. injection H as <- <-.
        destruct (IH _ _ _ _ _ Hrec) as [Hw Hlast].
        destruct Hlast as (k & Hk & Hout); [lia|].
        change (primaryCalls (CallPrimary attempt
                  :: WarnRetry attempt maxRetries (messageOf err)
                  :: Sleep attempt (baseDelayMs * 2 ^ attempt) :: evs'))
          with (S (primaryCalls evs')).
        split.
        -- rewrite Hw. cbn [worldAfter]. now rewrite Hop.
        -- intros _. exists (S k). split; [now rewrite Hk|].
           unfold attemptOutcome in *. cbn [worldAfter]. rewrite Hop. exact Hout.
  - intros H. injection H as <- <-. split; [reflexivity|].
    apply Z.leb_gt in Hle. lia.
Qed.

(** When every attempt that is left fails with a retryable error, the loop
    makes them all. *)
Lemma retryLoop_all_attempts fuel : forall attempt last w,
  (Z.to_nat (maxRetries + 1 - attempt) < fuel)%nat ->
  (attempt <= maxRetries)%Z ->
  (forall i : nat, (attempt + Z.of_nat i <= maxRetries)%Z ->
     exists e, attemptOutcome operation i w = Threw e /\ isRetryable e = true) ->
  exists e w' evs, loop fuel attempt last w = Some (LoopLeft e w', evs)
    /\ primaryCalls evs = Z.to_nat (maxRetries + 1 - attempt).
Proof.
  induction fuel as [|fuel IH]; intros attempt last w Hfuel Hle Hfail; [lia|].
  cbn [loop retryLoop]. fold loop.
  apply Z.leb_le in Hle as Hle'. rewrite Hle'.
  destruct (Hfail 0%nat) as (e & He & Hr); [cbn; lia|].
  unfold attemptOutcome in He. cbn [worldAfter] in He.
  destruct (operation w) as [r w1] eqn:Hop. cbn [fst] in He. subst r.
  rewrite Hr. cbn [negb orb].
  destruct (attempt =? maxRetries)%Z eqn:Heq.
  - apply Z.eqb_eq in Heq. subst attempt. eexists _, _, _.
    split; [reflexivity|].
    replace (maxRetries + 1 - maxRetries)%Z with 1%Z by lia. reflexivity.
  - apply Z.eqb_neq in Heq.
    destruct (IH (attempt + 1)%Z e w1) as (e' & w' & evs & -> & Hp);
      [lia | lia | |].
    + intros i Hi. destruct (Hfail (S i)) as (e' & He' & Hr'); [lia|].
      exists e'. split; [|exact Hr'].
      unfold attemptOutcome in *. cbn [worldAfter] in He'.
      now rewrite Hop in He'.
    + eexists _, _, _. split; [reflexivity|]. count_events. rewrite Hp. lia.
Qed.

End Loop.
End RetryFacts.

(** ** Facts about [withRetry] taken step by step *)
Module RaceFacts.

Import Gemini Spec RetryFacts.

Section Steps.

Variables W T P : Type.
Variable operation : Awaited W T P.
Variable fallbackOperation : option (Awaited W T P).
Variables maxRetries baseDelayMs : Z.

Let hasFallback : bool :=
  match fallbackOperation with Some _ => true | None => false end.

Lemma primaryCalls_snoc_call evs attempt :
  primaryCalls (evs ++ [CallPrimary attempt]) = S (primaryCalls evs).
Proof. rewrite primaryCalls_app. cbn. lia. Qed.

(** A step keeps the events in line with where the call stands, and
    brings the call nearer to its end. *)
Lemma resumeChain_standing c w c' w' e evs :
  standing hasFallback maxRetries c evs ->
  pending c = true ->
  resumeChain operation fallbackOperation maxRetries baseDelayMs c w
    = (c', w', e) ->
  standing hasFallback maxRetries c' (evs ++ e)
  /\ (stepsLeft maxRetries c' < stepsLeft maxRetries c)%nat.
Proof.
  unfold hasFallback.
  destruct c as [attempt last | attempt p | last p | r]; cbn [standing pending];
    intros Hst Hp; try discriminate Hp; cbn [resumeChain].
  - destruct Hst as (Ha & Hpc & Hfc).
    assert (Hle : (attempt <=? maxRetries)%Z = true) by (apply Z.leb_le; lia).
    rewrite Hle. destruct (send operation w) as [p w1].
    intros H. injection H as <- <- <-. cbn [standing stepsLeft]. split.
    + rewrite primaryCalls_snoc_call, fallbackCalls_app, Hfc. cbn.
      repeat split; lia.
    + lia.
  - destruct Hst as (Ha & Hpc & Hfc).
    destruct (receive operation p w) as [[v | err] w1].
    + intros H. injection H as <- <- <-. rewrite app_nil_r.
      cbn [standing stepsLeft]. repeat split; lia.
    + destruct (negb (isRetryable err) || (attempt =? maxRetries)%Z) eqn:Hstop.
      * unfold afterLoop. destruct fallbackOperation as [fallback|].
        -- destruct (send fallback w1) as [p' w2].
           intros H. injection H as <- <- <-. cbn [standing stepsLeft].
           rewrite primaryCalls_app, fallbackCalls_app, Hfc. cbn.
           repeat split; lia.
        -- intros H. injection H as <- <- <-. rewrite app_nil_r.
           cbn [standing stepsLeft]. repeat split; lia.
      * apply orb_false_iff in Hstop. destruct Hstop as [_ Hne].
        apply Z.eqb_neq in Hne.
        intros H. injection H as <- <- <-. cbn [standing stepsLeft].
        rewrite primaryCalls_app, fallbackCalls_app, Hfc. cbn.
        repeat split; lia.
  - destruct Hst as (Hfb & Hpc & Hfc).
    destruct fallbackOperation as [fallback|]; [|discriminate Hfb].
    destruct (receive fallback p w) as [[v | fallbackErr] w1];
      intros H; injection H as <- <- <-; cbn [standing stepsLeft];
      rewrite ?app_nil_r, ?primaryCalls_app, ?fallbackCalls_app, ?Hfc; cbn;
      (repeat split; try lia; discriminate).
Qed.

(** Taken alone, the steps of the call from the head of its loop are the
    loop of [withRetry] on the operation in one go, followed by what comes
    after the loop. *)
Lemma runChain_loop fuel : forall attempt last w evs x e k,
  retryLoop (whole operation) maxRetries baseDelayMs fuel attempt last w
    = Some (x, e) ->
  exists n,
    runChain operation fallbackOperation maxRetries baseDelayMs (n + k)
      (AtLoop attempt last) w evs
    = match x with
      | LoopReturn v w1 => Some (Returned v, w1, evs ++ e)
      | LoopLeft err w1 =>
          let '(c', w', e') := afterLoop fallbackOperation err w1 in
          runChain operation fallbackOperation maxRetries baseDelayMs k
            c' w' (evs ++ e ++ e')
      end.
Proof.
  induction fuel as [|fuel IH]; intros attempt last w evs x e k;
    [discriminate|].
  cbn [retryLoop]. destruct (attempt <=? maxRetries)%Z eqn:Hle.
  - unfold whole at 1. destruct (send operation w) as [p w1] eqn:Hsend.
    destruct (receive operation p w1) as [[v | err] w2] eqn:Hrecv.
    + intros H. injection H as <- <-. exists 2%nat.
      cbn [Nat.add runChain resumeChain]. rewrite Hle, Hsend.
      cbn [runChain resumeChain]. rewrite Hrecv.
      destruct k; cbn [runChain]; now rewrite app_nil_r.
    + destruct (negb (isRetryable err) || (attempt =? maxRetries)%Z) eqn:Hstop.
      * intros H. injection H as <- <-. exists 2%nat.
        cbn [Nat.add runChain resumeChain]. rewrite Hle, Hsend.
        cbn [runChain resumeChain]. rewrite Hrecv, Hstop.
        destruct (afterLoop fallbackOperation err w2) as [[c' w'] e'].
        now rewrite <- app_assoc.
      * destruct (retryLoop (whole operation) maxRetries baseDelayMs fuel
                    (attempt + 1) err w2) as [[x' e0]|] eqn:Hrec;
          [|discriminate].
        intros H. injection H as <- <-.
        destruct (IH _ _ _
                    ((evs ++ [CallPrimary attempt])
                     ++ [WarnRetry attempt maxRetries (messageOf err);
                         Sleep attempt (baseDelayMs * 2 ^ attempt)])
                    _ _ k Hrec) as [n Hn].
        exists (S (S n)). cbn [Nat.add runChain resumeChain].
        rewrite Hle, Hsend. cbn [runChain resumeChain]. rewrite Hrecv, Hstop.
        rewrite Hn. destruct x' as [v w3 | err' w3].
        -- now rewrite <- !app_assoc.
        -- destruct (afterLoop fallbackOperation err' w3) as [[c' w'] e'].
           now rewrite <- !app_assoc.
  - intros H. injection H as <- <-. exists 1%nat.
    cbn [Nat.add runChain resumeChain]. rewrite Hle.
    destruct (afterLoop fallbackOperation last w) as [[c' w'] e'].
    reflexivity.
Qed.

(** A call that nothing interleaves with is [withRetry] on the two
    operations in one go. *)
Lemma runChain_withRetry w :
  exists n,
    runChain operation fallbackOperation maxRetries baseDelayMs n
      (AtLoop 0 Nullish) w []
    = withRetry (whole operation) (option_map (@whole W T P) fallbackOperation)
        maxRetries baseDelayMs w.
Proof.
  destruct (retryLoop_exits W T (whole operation) maxRetries baseDelayMs
              (retryFuel maxRetries) 0%Z Nullish w (retryFuel_enough maxRetries))
    as (x & e & Hloop & _).
  destruct (runChain_loop _ _ _ _ [] _ _ 1%nat Hloop) as [n Hn].
  exists (n + 1)%nat. rewrite Hn. unfold withRetry. rewrite Hloop.
  destruct x as [v w1 | err w1]; [reflexivity|].
  unfold afterLoop. destruct fallbackOperation as [fallback|];
    cbn [option_map app].
  - unfold whole. destruct (send fallback w1) as [p w2].
    cbn [runChain resumeChain].
    destruct (receive fallback p w2) as [[v | fallbackErr] w3];
      cbn [runChain]; now rewrite <- !app_assoc.
  - cbn [runChain]. now rewrite app_nil_r.
Qed.

End Steps.

Section Tasks.

Variables S U : Type.
Variable svc : GeminiService S U.

Lemma trackUsage_keeps (r : GenerateContentResponse) (w : World S U) :
  backend (trackUsage svc r w) = backend w
  /\ apiLog (trackUsage svc r w) = apiLog w.
Proof.
  unfold trackUsage. destruct (tokenListener svc); [|now split].
  destruct (usageTotal r >? 0)%Z; now split.
Qed.

Lemma callApi_sent (c : ApiCall) (w : World S U) :
  fst (callApi svc c w) = fst (ai svc c (backend w))
  /\ backend (snd (callApi svc c w)) = snd (ai svc c (backend w))
  /\ apiLog (snd (callApi svc c w)) = apiLog w ++ [c].
Proof. unfold callApi. now destruct (ai svc c (backend w)). Qed.

Variables model fbModel : Model.
Variables system user fbSystem fbUser : JsString.
Variable withFallback : bool.
Variables maxRetries baseDelayMs : Z.

Let call : ApiCall := Generate model user system 0%Q None [googleSearch].
Let fbCall : ApiCall := Generate fbModel fbUser fbSystem 0%Q None [googleSearch].
Let resume :=
  resumeChain (runTask svc model system user)
    (if withFallback then Some (runTask svc fbModel fbSystem fbUser) else None)
    maxRetries baseDelayMs.

(** A step sends at most one request: the primary's with [CallPrimary],
    the fallback's with [CallFallback]. *)
Lemma resumeChain_requests c (w : World S U) c' w' e :
  resume c w = (c', w', e) ->
  (apiLog w' = apiLog w ++ [call]
   /\ primaryCalls e = 1%nat /\ fallbackCalls e = 0%nat)
  \/ (withFallback = true /\ apiLog w' = apiLog w ++ [fbCall]
      /\ primaryCalls e = 0%nat /\ fallbackCalls e = 1%nat)
  \/ (apiLog w' = apiLog w
      /\ primaryCalls e = 0%nat /\ fallbackCalls e = 0%nat).
Proof.
  assert (Hafter : forall err (w0 : World S U),
            afterLoop (if withFallback
                       then Some (runTask svc fbModel fbSystem fbUser) else None)
              err w0 = (c', w', e) ->
            (withFallback = true /\ apiLog w' = apiLog w0 ++ [fbCall]
             /\ primaryCalls e = 0%nat /\ fallbackCalls e = 1%nat)
            \/ (apiLog w' = apiLog w0
                /\ primaryCalls e = 0%nat /\ fallbackCalls e = 0%nat)).
  { intros err w0. unfold afterLoop. destruct withFallback.
    - cbn [send runTask].
      destruct (callApi_sent fbCall w0) as (_ & _ & Hlog).
      destruct (callApi svc _ w0) as [p w1].
      intros H. injection H as <- <- <-. left. now repeat split.
    - intros H. injection H as <- <- <-. right. now repeat split. }
  unfold resume. destruct c as [attempt last | attempt p | last p | r];
    cbn [resumeChain].
  - destruct (attempt <=? maxRetries)%Z.
    + cbn [send runTask].
      destruct (callApi_sent call w) as (_ & _ & Hlog).
      destruct (callApi svc _ w) as [p w1].
      intros H. injection H as <- <- <-. left. now repeat split.
    + intros H. right. exact (Hafter _ _ H).
  - cbn [receive runTask]. destruct p as [response | err].
    + intros H. injection H as <- <- <-. right. right.
      destruct (trackUsage_keeps response w) as [_ Hlog]. now repeat split.
    + destruct (negb (isRetryable err) || (attempt =? maxRetries)%Z).
      * intros H. right. exact (Hafter _ _ H).
      * intros H. injection H as <- <- <-. right. right. now repeat split.
  - destruct withFallback.
    + cbn [receive runTask]. destruct p as [response | err];
        intros H; injection H as <- <- <-; right; right.
      * destruct (trackUsage_keeps response w) as [_ Hlog]. now repeat split.
      * now repeat split.
    + intros H. injection H as <- <- <-. right. right. now repeat split.
  - intros H. injection H as <- <- <-. right. right. now repeat split.
Qed.

(** What holds of every response of the backend to the two requests holds
    of every response the call waits for, and of the value it returns. *)
Lemma resumeChain_holding (Good : Outcome GenerateContentResponse -> Prop)
  c (w : World S U) c' w' e :
  (forall s, Good (fst (ai svc call s))) ->
  (withFallback = true -> forall s, Good (fst (ai svc fbCall s))) ->
  holding Good c ->
  resume c w = (c', w', e) ->
  holding Good c'.
Proof.
  intros Hcall Hfb.
  assert (Hafter : forall err (w0 : World S U),
            afterLoop (if withFallback
                       then Some (runTask svc fbModel fbSystem fbUser) else None)
              err w0 = (c', w', e) ->
            holding Good c').
  { intros err w0. unfold afterLoop. destruct withFallback.
    - cbn [send runTask].
      destruct (callApi_sent fbCall w0) as (Hp & _ & _).
      destruct (callApi svc _ w0) as [p w1]. cbn [fst] in Hp.
      intros H. injection H as <- _ _. cbn [holding]. rewrite Hp.
      now apply Hfb.
    - intros H. injection H as <- _ _. cbn [holding]. discriminate. }
  unfold resume. destruct c as [attempt last | attempt p | last p | r];
    cbn [resumeChain holding]; intros Hc.
  - destruct (attempt <=? maxRetries)%Z.
    + cbn [send runTask].
      destruct (callApi_sent call w) as (Hp & _ & _).
      destruct (callApi svc _ w) as [p w1]. cbn [fst] in Hp.
      intros H. injection H as <- _ _. cbn [holding]. rewrite Hp. apply Hcall.
    + apply Hafter.
  - cbn [receive runTask]. destruct p as [response | err].
    + intros H. injection H as <- _ _. cbn [holding].
      intros v Hv. injection Hv as <-. exact Hc.
    + destruct (negb (isRetryable err) || (attempt =? maxRetries)%Z).
      * apply Hafter.
      * intros H. injection H as <- _ _. exact I.
  - destruct withFallback.
    + cbn [receive runTask]. destruct p as [response | err];
        intros H; injection H as <- _ _; cbn [holding].
      * intros v Hv. injection Hv as <-. exact Hc.
      * discriminate.
    + intros H. injection H as <- _ _. cbn [holding]. discriminate.
  - intros H. injection H as <- _ _. exact Hc.
Qed.

(** When every response is a rejection with a retryable error, the call
    leaves its loop with the last attempt only. *)
Lemma resumeChain_exhausted c (w : World S U) c' w' e evs :
  holding rejected c ->
  standing withFallback maxRetries c evs ->
  exhausted withFallback maxRetries c evs ->
  pending c = true ->
  resume c w = (c', w', e) ->
  exhausted withFallback maxRetries c' (evs ++ e).
Proof.
  unfold resume. destruct c as [attempt last | attempt p | last p | r];
    cbn [resumeChain holding standing exhausted pending];
    intros Hc Hst Hex Hp; try discriminate Hp.
  - destruct Hst as (Ha & _).
    assert (Hle : (attempt <=? maxRetries)%Z = true) by (apply Z.leb_le; lia).
    rewrite Hle. destruct (send _ w) as [p w1].
    intros H. injection H as <- _ _. exact I.
  - destruct Hst as (Ha & Hpc & Hfc). destruct Hc as (err & -> & Hr).
    cbn [receive runTask]. rewrite Hr. cbn [negb orb].
    destruct (attempt =? maxRetries)%Z eqn:Heq.
    + apply Z.eqb_eq in Heq. subst attempt. unfold afterLoop.
      destruct withFallback.
      * destruct (send _ w) as [p w1]. intros H. injection H as <- _ <-.
        cbn [exhausted]. rewrite primaryCalls_app. cbn. lia.
      * intros H. injection H as <- _ <-. rewrite app_nil_r. cbn [exhausted].
        split; [now eexists|]. split; assumption.
    + intros H. injection H as <- _ _. exact I.
  - destruct Hst as (Hfb & _ & Hfc). rewrite Hfb in *.
    destruct Hc as (err & -> & _). cbn [receive runTask].
    intros H. injection H as <- _ <-. cbn [exhausted].
    rewrite primaryCalls_app, fallbackCalls_app, Hfc. cbn.
    split; [now eexists|]. split; lia.
Qed.

End Tasks.

Section Race.

Variables S U : Type.
Variable svc : GeminiService S U.
Variable query : JsString.

Let caseOp := runTask svc reasoning caseSystem (caseUser query).
Let caseFb := runTask svc fast caseFallbackSystem (caseFallbackUser query).
Let statuteOp := runTask svc fast statuteSystem (statuteUser query).

Lemma stepCase_resume (s : Racing S U) :
  exists c w e,
    resumeChain caseOp (Some caseFb) 4 1800 (caseChain s) (raceWorld s)
      = (c, w, e)
    /\ stepCase svc query s
       = {| caseChain := c; statuteChain := statuteChain s; raceWorld := w;
            caseLog := caseLog s ++ e; statuteLog := statuteLog s |}.
Proof.
  unfold stepCase. fold caseOp caseFb.
  destruct (resumeChain caseOp (Some caseFb) 4 1800 (caseChain s) (raceWorld s))
    as [[c w] e].
  now exists c, w, e.
Qed.

Lemma stepStatute_resume (s : Racing S U) :
  exists c w e,
    resumeChain statuteOp None 4 1800 (statuteChain s) (raceWorld s) = (c, w, e)
    /\ stepStatute svc query s
       = {| caseChain := caseChain s; statuteChain := c; raceWorld := w;
            caseLog := caseLog s; statuteLog := statuteLog s ++ e |}.
Proof.
  unfold stepStatute. fold statuteOp.
  destruct (resumeChain statuteOp None 4 1800 (statuteChain s) (raceWorld s))
    as [[c w] e].
  now exists c, w, e.
Qed.

(** The call that goes on is one that is pending. *)
Lemma race_step fuel sched n (s : Racing S U) :
  race svc query fuel sched n s
  = if pending (caseChain s) || pending (statuteChain s) then
      match fuel with
      | O => None
      | Datatypes.S fuel' =>
          race svc query fuel' sched (Datatypes.S n)
            (if pending (caseChain s) && (sched n || negb (pending (statuteChain s)))
             then stepCase svc query s else stepStatute svc query s)
      end
    else Some s.
Proof.
  destruct fuel; cbn [race];
    destruct (pending (caseChain s)), (pending (statuteChain s)); reflexivity.
Qed.

(** What the steps of both calls keep holds when both have ended. *)
Lemma race_invariant (Inv : Racing S U -> Prop) :
  (forall s, Inv s -> pending (caseChain s) = true ->
             Inv (stepCase svc query s)) ->
  (forall s, Inv s -> pending (statuteChain s) = true ->
             Inv (stepStatute svc query s)) ->
  forall fuel sched n s s',
    Inv s -> race svc query fuel sched n s = Some s' ->
    Inv s' /\ pending (caseChain s') = false
    /\ pending (statuteChain s') = false.
Proof.
  intros Hcase Hstat. induction fuel as [|fuel IH]; intros sched n s s' HI;
    rewrite race_step.
  - destruct (pending (caseChain s)) eqn:Hp1, (pending (statuteChain s)) eqn:Hp2;
      cbn [orb]; try discriminate.
    intros H. injection H as <-. now repeat split.
  - destruct (pending (caseChain s)) eqn:Hp1, (pending (statuteChain s)) eqn:Hp2;
      cbn [orb andb negb].
    + destruct (sched n); cbn [orb]; apply IH; auto.
    + rewrite orb_true_r. apply IH; auto.
    + apply IH; auto.
    + intros H. injection H as <-. now repeat split.
Qed.

(** With a step of fuel for each step the two calls still take, the race
    ends. *)
Lemma race_total fuel : forall sched n (s : Racing S U),
  standing true 4 (caseChain s) (caseLog s) ->
  standing false 4 (statuteChain s) (statuteLog s) ->
  (stepsLeft 4 (caseChain s) + stepsLeft 4 (statuteChain s) <= fuel)%nat ->
  exists s', race svc query fuel sched n s = Some s'.
Proof.
  assert (Hcase : forall s : Racing S U,
            standing true 4 (caseChain s) (caseLog s) ->
            pending (caseChain s) = true ->
            standing true 4 (caseChain (stepCase svc query s))
              (caseLog (stepCase svc query s))
            /\ (stepsLeft 4 (caseChain (stepCase svc query s))
                < stepsLeft 4 (caseChain s))%nat
            /\ statuteChain (stepCase svc query s) = statuteChain s
            /\ statuteLog (stepCase svc query s) = statuteLog s).
  { intros s Hst Hp. destruct (stepCase_resume s) as (c & w & e & Hres & ->).
    cbn [caseChain caseLog statuteChain statuteLog].
    destruct (resumeChain_standing _ _ _ caseOp (Some caseFb) 4 1800 _ _ _ _ _ _
                Hst Hp Hres) as [H1 H2].
    now repeat split. }
  assert (Hstat : forall s : Racing S U,
            standing false 4 (statuteChain s) (statuteLog s) ->
            pending (statuteChain s) = true ->
            standing false 4 (statuteChain (stepStatute svc query s))
              (statuteLog (stepStatute svc query s))
            /\ (stepsLeft 4 (statuteChain (stepStatute svc query s))
                < stepsLeft 4 (statuteChain s))%nat
            /\ caseChain (stepStatute svc query s) = caseChain s
            /\ caseLog (stepStatute svc query s) = caseLog s).
  { intros s Hst Hp. destruct (stepStatute_resume s) as (c & w & e & Hres & ->).
    cbn [caseChain caseLog statuteChain statuteLog].
    destruct (resumeChain_standing _ _ _ statuteOp None 4 1800 _ _ _ _ _ _
                Hst Hp Hres) as [H1 H2].
    now repeat split. }
  induction fuel as [|fuel IH]; intros sched n s Hs1 Hs2 Hfuel;
    rewrite race_step.
  - destruct (caseChain s), (statuteChain s); cbn in Hfuel; try lia.
    cbn. now eexists.
  - destruct (pending (caseChain s)) eqn:Hp1, (pending (statuteChain s)) eqn:Hp2;
      cbn [orb andb negb].
    + destruct (sched n); cbn [orb].
      * destruct (Hcase s Hs1 Hp1) as (H1 & H2 & H3 & H4).
        apply IH; rewrite ?H3, ?H4; auto. lia.
      * destruct (Hstat s Hs2 Hp2) as (H1 & H2 & H3 & H4).
        apply IH; rewrite ?H3, ?H4; auto. lia.
    + rewrite orb_true_r. destruct (Hcase s Hs1 Hp1) as (H1 & H2 & H3 & H4).
      apply IH; rewrite ?H3, ?H4; auto. lia.
    + destruct (Hstat s Hs2 Hp2) as (H1 & H2 & H3 & H4).
      apply IH; rewrite ?H3, ?H4; auto. lia.
    + now eexists.
Qed.

(** [researchLegalPrecedent] is the race of its two calls from where both
    have sent their first request. *)
Lemma research_race sched (w : World S U) :
  researchLegalPrecedent svc sched query w
  = match race svc query researchFuel sched 0 (started svc query w) with
    | None => None
    | Some s => Some (gathered s, raceWorld s, (caseLog s, statuteLog s))
    end.
Proof.
  unfold researchLegalPrecedent, startChain, started. cbn [resumeChain].
  change (0 <=? 4)%Z with true. cbv iota. cbn [send runTask].
  fold (caseCall query) (statuteCall query).
  destruct (callApi svc (caseCall query) w) as [p1 w1]. cbn [fst snd].
  destruct (callApi svc (statuteCall query) w1) as [p2 w2]. cbn [fst snd].
  destruct (race svc query researchFuel sched 0 _) as [s|]; [|reflexivity].
  unfold gathered.
  destruct (caseChain s) as [| | | [caseRes|]]; try reflexivity.
  destruct (statuteChain s) as [| | | [statuteRes|]]; reflexivity.
Qed.

Lemma started_standing (w : World S U) :
  standing true 4 (caseChain (started svc query w)) (caseLog (started svc query w))
  /\ standing false 4 (statuteChain (started svc query w))
       (statuteLog (started svc query w)).
Proof. cbn. repeat split; lia. Qed.

(** The race of [researchLegalPrecedent] ends, for every schedule. *)
Lemma research_ends sched (w : World S U) :
  exists s, race svc query researchFuel sched 0 (started svc query w) = Some s.
Proof.
  destruct (started_standing w) as [H1 H2].
  apply race_total; [exact H1 | exact H2 |].
  unfold researchFuel, started. cbn [caseChain statuteChain stepsLeft].
  change (Z.to_nat (4 - 0)) with 4%nat. lia.
Qed.

(** The attempts and fallbacks of the two calls, and the requests sent. *)
Lemma research_counts sched (w : World S U) s :
  race svc query researchFuel sched 0 (started svc query w) = Some s ->
  (primaryCalls (caseLog s) <= 5)%nat
  /\ (fallbackCalls (caseLog s) <= 1)%nat
  /\ (primaryCalls (statuteLog s) <= 5)%nat
  /\ fallbackCalls (statuteLog s) = 0%nat
  /\ exists added,
       apiLog (raceWorld s)
       = apiLog w ++ caseCall query :: statuteCall query :: added
       /\ Permutation (caseCall query :: statuteCall query :: added)
            (repeat (caseCall query) (primaryCalls (caseLog s))
             ++ repeat (caseFallbackCall query) (fallbackCalls (caseLog s))
             ++ repeat (statuteCall query) (primaryCalls (statuteLog s))).
Proof.
  intros Hrace.
  apply (race_invariant
           (fun s =>
              standing true 4 (caseChain s) (caseLog s)
              /\ standing false 4 (statuteChain s) (statuteLog s)
              /\ exists added,
                   apiLog (raceWorld s)
                   = apiLog w ++ caseCall query :: statuteCall query :: added
                   /\ Permutation (caseCall query :: statuteCall query :: added)
                        (repeat (caseCall query) (primaryCalls (caseLog s))
                         ++ repeat (caseFallbackCall query)
                              (fallbackCalls (caseLog s))
                         ++ repeat (statuteCall query)
                              (primaryCalls (statuteLog s))))) in Hrace.
  - destruct Hrace as ((H1 & H2 & H3) & Hp1 & Hp2).
    destruct (caseChain s); try discriminate Hp1.
    destruct (statuteChain s); try discriminate Hp2.
    cbn [standing] in H1, H2.
    destruct H1 as (Ha1 & Ha2 & _), H2 as (Hb1 & _ & Hb3).
    refine (conj _ (conj _ (conj _ (conj _ H3)))); try lia; now apply Hb3.
  - intros s0 (H1 & H2 & added & Hlog & Hperm) Hp.
    destruct (stepCase_resume s0) as (c & w' & e & Hres & ->).
    cbn [caseChain caseLog statuteChain statuteLog raceWorld].
    split; [|split; [exact H2|]].
    + exact (proj1 (resumeChain_standing _ _ _ caseOp (Some caseFb) 4 1800
                      _ _ _ _ _ _ H1 Hp Hres)).
    + apply (resumeChain_requests S U svc reasoning fast caseSystem
               (caseUser query) caseFallbackSystem (caseFallbackUser query)
               true 4 1800) in Hres.
      rewrite primaryCalls_app, fallbackCalls_app.
      destruct Hres as [(Hl & -> & ->) | [(_ & Hl & -> & ->) | (Hl & -> & ->)]];
        rewrite Hl, Hlog, ?Nat.add_0_r.
      * exists (added ++ [caseCall query]). split.
        -- now rewrite <- !app_assoc.
        -- rewrite Nat.add_1_r. cbn [repeat app].
           transitivity (caseCall query
                           :: (caseCall query :: statuteCall query :: added)).
           ++ symmetry.
              exact (Permutation_cons_append
                       (caseCall query :: statuteCall query :: added)
                       (caseCall query)).
           ++ now constructor.
      * exists (added ++ [caseFallbackCall query]). split.
        -- now rewrite <- !app_assoc.
        -- rewrite Nat.add_1_r. cbn [repeat].
           transitivity (caseFallbackCall query
                           :: (caseCall query :: statuteCall query :: added)).
           ++ symmetry.
              exact (Permutation_cons_append
                       (caseCall query :: statuteCall query :: added)
                       (caseFallbackCall query)).
           ++ rewrite Hperm. apply Permutation_middle.
      * exists added. split; [reflexivity | exact Hperm].
  - intros s0 (H1 & H2 & added & Hlog & Hperm) Hp.
    destruct (stepStatute_resume s0) as (c & w' & e & Hres & ->).
    cbn [caseChain caseLog statuteChain statuteLog raceWorld].
    split; [exact H1|]. split.
    + exact (proj1 (resumeChain_standing _ _ _ statuteOp None 4 1800
                      _ _ _ _ _ _ H2 Hp Hres)).
    + apply (resumeChain_requests S U svc fast fast statuteSystem
               (statuteUser query) statuteSystem (statuteUser query)
               false 4 1800) in Hres.
      rewrite primaryCalls_app.
      destruct Hres as [(Hl & -> & _) | [(Hf & _) | (Hl & -> & _)]];
        [| discriminate Hf |]; rewrite Hl, Hlog, ?Nat.add_0_r.
      * exists (added ++ [statuteCall query]). split.
        -- now rewrite <- !app_assoc.
        -- rewrite Nat.add_1_r.
           transitivity (statuteCall query
                           :: (caseCall query :: statuteCall query :: added)).
           ++ symmetry.
              exact (Permutation_cons_append
                       (caseCall query :: statuteCall query :: added)
                       (statuteCall query)).
           ++ rewrite Hperm, !app_assoc. cbn [repeat].
              apply Permutation_middle.
      * exists added. split; [reflexivity | exact Hperm].
  - destruct (started_standing w) as [H1 H2].
    split; [exact H1|]. split; [exact H2|].
    exists []. cbn [started raceWorld caseLog statuteLog].
    destruct (callApi_sent S U svc (caseCall query) w) as (_ & _ & Hl1).
    destruct (callApi_sent S U svc (statuteCall query)
                (snd (callApi svc (caseCall query) w))) as (_ & _ & Hl2).
    split.
    + rewrite Hl2, Hl1, <- app_assoc. reflexivity.
    + cbn. apply perm_swap || reflexivity.
Qed.

(** A value a call returns is a response of the backend to one of its
    requests. *)
Lemma research_provenance sched (w : World S U) s :
  race svc query researchFuel sched 0 (started svc query w) = Some s ->
  (forall caseRes, caseChain s = Settled (Returned caseRes) ->
     exists st, fst (ai svc (caseCall query) st) = Returned caseRes
                \/ fst (ai svc (caseFallbackCall query) st) = Returned caseRes)
  /\ (forall statuteRes, statuteChain s = Settled (Returned statuteRes) ->
        exists st, fst (ai svc (statuteCall query) st) = Returned statuteRes).
Proof.
  intros Hrace.
  apply (race_invariant
           (fun s =>
              holding (fun p => forall v, p = Returned v ->
                         exists st,
                           fst (ai svc (caseCall query) st) = Returned v
                           \/ fst (ai svc (caseFallbackCall query) st)
                              = Returned v)
                (caseChain s)
              /\ holding (fun p => forall v, p = Returned v ->
                            exists st,
                              fst (ai svc (statuteCall query) st) = Returned v)
                   (statuteChain s))) in Hrace.
  - destruct Hrace as ((H1 & H2) & _). split.
    + intros caseRes Hc. rewrite Hc in H1. exact (H1 _ eq_refl _ eq_refl).
    + intros statuteRes Hc. rewrite Hc in H2. exact (H2 _ eq_refl _ eq_refl).
  - intros s0 (H1 & H2) _.
    destruct (stepCase_resume s0) as (c & w' & e & Hres & ->).
    cbn [caseChain statuteChain]. split; [|exact H2].
    refine (resumeChain_holding S U svc reasoning fast caseSystem
              (caseUser query) caseFallbackSystem (caseFallbackUser query)
              true 4 1800 _ _ _ _ _ _ _ _ H1 Hres).
    + intros st v Hv. exists st. now left.
    + intros _ st v Hv. exists st. now right.
  - intros s0 (H1 & H2) _.
    destruct (stepStatute_resume s0) as (c & w' & e & Hres & ->).
    cbn [caseChain statuteChain]. split; [exact H1|].
    refine (resumeChain_holding S U svc fast fast statuteSystem
              (statuteUser query) statuteSystem (statuteUser query)
              false 4 1800 _ _ _ _ _ _ _ _ H2 Hres).
    + intros st v Hv. now exists st.
    + discriminate.
  - cbn [started caseChain statuteChain holding].
    destruct (callApi_sent S U svc (caseCall query) w) as (-> & _ & _).
    destruct (callApi_sent S U svc (statuteCall query)
                (snd (callApi svc (caseCall query) w))) as (-> & _ & _).
    split; intros v Hv; eexists; [left|]; exact Hv.
Qed.

(** On a backend that rejects every request with a retryable error both
    calls use all their attempts, the case-law call its fallback as well,
    and both throw. *)
Lemma research_down sched (w : World S U) s :
  backendDown svc ->
  race svc query researchFuel sched 0 (started svc query w) = Some s ->
  gathered s = Threw researchFailed
  /\ primaryCalls (caseLog s) = 5%nat /\ fallbackCalls (caseLog s) = 1%nat
  /\ primaryCalls (statuteLog s) = 5%nat.
Proof.
  intros Hdown Hrace.
  assert (Hrej : forall c st, rejected (fst (ai svc c st))).
  { intros c st. destruct (Hdown c st) as (e & s' & He & Hr).
    exists e. split; [|exact Hr]. exact (f_equal fst He). }
  apply (race_invariant
           (fun s =>
              (standing true 4 (caseChain s) (caseLog s)
               /\ holding rejected (caseChain s)
               /\ exhausted true 4 (caseChain s) (caseLog s))
              /\ (standing false 4 (statuteChain s) (statuteLog s)
                  /\ holding rejected (statuteChain s)
                  /\ exhausted false 4 (statuteChain s) (statuteLog s))))
    in Hrace.
  - destruct Hrace as (((_ & _ & H1) & (_ & _ & H2)) & Hp1 & Hp2).
    unfold gathered.
    destruct (caseChain s) as [| | | r1]; try discriminate Hp1.
    destruct (statuteChain s) as [| | | r2]; try discriminate Hp2.
    cbn [exhausted] in H1, H2.
    destruct H1 as ((e1 & ->) & Hpc1 & Hfc1), H2 as (_ & Hpc2 & _).
    repeat split; try lia; exact Hfc1.
  - intros s0 ((H1 & H2 & H3) & HB) Hp.
    destruct (stepCase_resume s0) as (c & w' & e & Hres & ->).
    cbn [caseChain caseLog statuteChain statuteLog]. split; [|exact HB].
    split; [|split].
    + exact (proj1 (resumeChain_standing _ _ _ caseOp (Some caseFb) 4 1800
                      _ _ _ _ _ _ H1 Hp Hres)).
    + exact (resumeChain_holding S U svc reasoning fast caseSystem
               (caseUser query) caseFallbackSystem (caseFallbackUser query)
               true 4 1800 rejected _ _ _ _ _ (Hrej _) (fun _ => Hrej _)
               H2 Hres).
    + exact (resumeChain_exhausted S U svc reasoning fast caseSystem
               (caseUser query) caseFallbackSystem (caseFallbackUser query)
               true 4 1800 _ _ _ _ _ _ H2 H1 H3 Hp Hres).
  - intros s0 (HA & (H1 & H2 & H3)) Hp.
    destruct (stepStatute_resume s0) as (c & w' & e & Hres & ->).
    cbn [caseChain caseLog statuteChain statuteLog]. split; [exact HA|].
    split; [|split].
    + exact (proj1 (resumeChain_standing _ _ _ statuteOp None 4 1800
                      _ _ _ _ _ _ H1 Hp Hres)).
    + exact (resumeChain_holding S U svc fast fast statuteSystem
               (statuteUser query) statuteSystem (statuteUser query)
               false 4 1800 rejected _ _ _ _ _ (Hrej _) (fun _ => Hrej _)
               H2 Hres).
    + exact (resumeChain_exhausted S U svc fast fast statuteSystem
               (statuteUser query) statuteSystem (statuteUser query)
               false 4 1800 _ _ _ _ _ _ H2 H1 H3 Hp Hres).
  - destruct (started_standing w) as [H1 H2].
    cbn [started caseChain statuteChain caseLog statuteLog holding exhausted]
      in *.
    destruct (callApi_sent S U svc (caseCall query) w) as (-> & _ & _).
    destruct (callApi_sent S U svc (statuteCall query)
                (snd (callApi svc (caseCall query) w))) as (-> & _ & _).
    repeat split; auto; try apply H1; try apply H2.
Qed.

(** When the backend answers the two first requests, each call ends with
    its first response, in whatever order the two come in. *)
Lemma research_first_answers sched (w : World S U) caseRes statuteRes s1 s2 :
  ai svc (caseCall query) (backend w) = (Returned caseRes, s1) ->
  ai svc (statuteCall query) s1 = (Returned statuteRes, s2) ->
  exists s,
    race svc query researchFuel sched 0 (started svc query w) = Some s
    /\ caseChain s = Settled (Returned caseRes)
    /\ statuteChain s = Settled (Returned statuteRes)
    /\ caseLog s = [CallPrimary 0] /\ statuteLog s = [CallPrimary 0]
    /\ backend (raceWorld s) = s2
    /\ apiLog (raceWorld s) = apiLog w ++ [caseCall query; statuteCall query].
Proof.
  intros Hcase Hstat. unfold started, callApi. rewrite Hcase.
  cbn [fst snd backend]. rewrite Hstat. cbn [fst snd apiLog observer listenerLog].
  unfold researchFuel.
  assert (Hlog : forall a b (w0 : World S U),
            apiLog w0 = apiLog w ++ [caseCall query; statuteCall query] ->
            backend w0 = s2 ->
            backend (trackUsage svc a (trackUsage svc b w0)) = s2
            /\ apiLog (trackUsage svc a (trackUsage svc b w0))
               = apiLog w ++ [caseCall query; statuteCall query]).
  { intros a b w0 Hl Hb.
    destruct (trackUsage_keeps S U svc a (trackUsage svc b w0)) as [-> ->].
    destruct (trackUsage_keeps S U svc b w0) as [-> ->]. now split. }
  rewrite race_step. cbn [caseChain statuteChain pending orb andb negb].
  destruct (sched 0); cbn [orb].
  - unfold stepCase at 1.
    cbn [resumeChain receive runTask caseChain statuteChain raceWorld caseLog
         statuteLog app].
    rewrite race_step. cbn [caseChain statuteChain pending orb andb negb].
    unfold stepStatute at 1.
    cbn [resumeChain receive runTask caseChain statuteChain raceWorld caseLog
         statuteLog app].
    rewrite race_step. cbn [caseChain statuteChain pending orb andb negb].
    eexists. split; [reflexivity|].
    cbn [caseChain statuteChain raceWorld caseLog statuteLog].
    refine (conj eq_refl (conj eq_refl (conj eq_refl (conj eq_refl _)))).
    apply Hlog; [cbn [apiLog]; now rewrite <- app_assoc | reflexivity].
  - unfold stepStatute at 1.
    cbn [resumeChain receive runTask caseChain statuteChain raceWorld caseLog
         statuteLog app].
    rewrite race_step. cbn [caseChain statuteChain pending orb andb negb].
    rewrite orb_true_r. unfold stepCase at 1.
    cbn [resumeChain receive runTask caseChain statuteChain raceWorld caseLog
         statuteLog app].
    rewrite race_step. cbn [caseChain statuteChain pending orb andb negb].
    eexists. split; [reflexivity|].
    cbn [caseChain statuteChain raceWorld caseLog statuteLog].
    refine (conj eq_refl (conj eq_refl (conj eq_refl (conj eq_refl _)))).
    apply Hlog; [cbn [apiLog]; now rewrite <- app_assoc | reflexivity].
Qed.

End Race.

End RaceFacts.

(** ** The retrying invoker *)
Module Retrying.

Import Gemini Spec Sample RetryFacts.

(** C2 (as the code has it).  When [withRetry], given a fallback, ends by
    throwing, the fallback was run after the loop and threw; its error is
    written to the console and dropped, and what [withRetry] throws is the
    error of the last call of the primary (the generic error when that
    value was [null] or [undefined]). *)
Theorem withRetry_fallback_failure W T (operation fallback : Op W T)
  (maxRetries baseDelayMs : Z) (w w2 : W) (e : Thrown) (evs : list RetryEvent) :
  (0 <= maxRetries)%Z ->
  withRetry operation (Some fallback) maxRetries baseDelayMs w
    = Some (Threw e, w2, evs) ->
  exists w' w1 lastError fallbackErr pre,
    operation w' = (Threw lastError, w1)
    /\ fallback w1 = (Threw fallbackErr, w2)
    /\ e = surfaced lastError
    /\ evs = pre ++ [WarnFallback; CallFallback; ErrorFallbackFailed fallbackErr].
Proof.
  intros Hmax. unfold withRetry.
  destruct (retryLoop operation maxRetries baseDelayMs (retryFuel maxRetries)
              0 Nullish w) as [[[v w1 | lastError w1] pre]|] eqn:Hloop;
    try discriminate.
  destruct (fallback w1) as [[v | fallbackErr] w3] eqn:Hfb; [discriminate|].
  intros H. injection H as <- <- <-.
  destruct (retryLoop_last_error W T operation maxRetries baseDelayMs _ _ _ _ _ _ _
              Hloop Hmax) as [w' Hw'].
  exists w', w1, lastError, fallbackErr, pre. repeat split; assumption.
Qed.

Lemma withRetry_fallback_failure_witness :
  (0 <= 4)%Z
  /\ exists w' w1 lastError fallbackErr pre,
       opBad w' = (Threw lastError, w1)
       /\ fbDown w1 = (Threw fallbackErr, 2%nat)
       /\ errBadRequest = surfaced lastError
       /\ [CallPrimary 0; WarnFallback; CallFallback;
           ErrorFallbackFailed errFallback]
          = pre ++ [WarnFallback; CallFallback; ErrorFallbackFailed fallbackErr].
Proof.
  split; [lia|].
  apply (withRetry_fallback_failure nat nat opBad fbDown 4 1800 0%nat);
    [lia | reflexivity].
Defined.

(** C2, the claim as stated, fails: the primary throws a 400 error, the
    fallback a 500 error, and [withRetry] throws the primary's. *)
Lemma fallback_error_not_propagated :
  (exists w evs,
     withRetry opBad (Some fbDown) 4 1800 0%nat
       = Some (Threw errBadRequest, w, evs))
  /\ forall w evs,
       withRetry opBad (Some fbDown) 4 1800 0%nat
         <> Some (Threw errFallback, w, evs).
Proof.
  split.
  - eexists _, _. reflexivity.
  - intros w evs H. vm_compute in H. discriminate H.
Qed.

(** C5.  When the first call of the primary fails with an error that is
    not retryable, the primary is called once, nothing sleeps, the fallback
    is run once if there is one, on the world the primary left, and
    without a fallback the error is thrown again (the generic error in
    place of a thrown [null] or [undefined]). *)
Theorem withRetry_non_retryable W T (operation : Op W T)
  (fallbackOperation : option (Op W T)) (maxRetries baseDelayMs : Z)
  (w w1 : W) (e : Thrown) :
  (0 <= maxRetries)%Z ->
  operation w = (Threw e, w1) ->
  isRetryable e = false ->
  exists r w' evs,
    withRetry operation fallbackOperation maxRetries baseDelayMs w
      = Some (r, w', evs)
    /\ primaryCalls evs = 1%nat
    /\ sleeps evs = 0%nat
    /\ match fallbackOperation with
       | Some fallback =>
           fallbackCalls evs = 1%nat
           /\ w' = snd (fallback w1)
           /\ (forall v, fst (fallback w1) = Returned v -> r = Returned v)
       | None =>
           fallbackCalls evs = 0%nat
           /\ w' = w1
           /\ r = Threw (surfaced e)
           /\ (forall err, e = Obj err -> r = Threw e)
       end.
Proof.
  intros Hmax Hop Hnr. unfold withRetry, retryFuel. cbn [retryLoop].
  apply Z.leb_le in Hmax. rewrite Hmax, Hop, Hnr. cbn [negb orb].
  destruct fallbackOperation as [fallback|].
  - destruct (fallback w1) as [[v | fallbackErr] w2].
    + eexists _, _, _. split; [reflexivity|]. cbn.
      repeat split; try reflexivity. intros v' H. now rewrite H.
    + eexists _, _, _. split; [reflexivity|]. cbn.
      repeat split; try reflexivity. intros v' H. discriminate H.
  - eexists _, _, _. split; [reflexivity|]. cbn.
    repeat split; try reflexivity. intros err ->. reflexivity.
Qed.

Lemma withRetry_non_retryable_witness :
  (0 <= 4)%Z /\ opBad 0%nat = (Threw errBadRequest, 1%nat)
  /\ isRetryable errBadRequest = false
  /\ exists r w' evs,
       withRetry opBad None 4 1800 0%nat = Some (r, w', evs)
       /\ primaryCalls evs = 1%nat /\ sleeps evs = 0%nat
       /\ fallbackCalls evs = 0%nat /\ w' = 1%nat
       /\ r = Threw (surfaced errBadRequest)
       /\ (forall err, errBadRequest = Obj err -> r = Threw errBadRequest).
Proof.
  split; [lia|]. split; [reflexivity|]. split; [reflexivity|].
  apply (withRetry_non_retryable nat nat opBad None 4 1800 0%nat 1%nat
           errBadRequest); [lia | reflexivity | reflexivity].
Defined.

(** C4.  With a non-negative [maxRetries], [withRetry] ends, and what it
    did is the primary applied [k + 1] times in a row from the initial
    world, [k + 1 <= maxRetries + 1], followed by at most one run of the
    fallback.  When the last of these calls returned, that is the result
    and nothing follows.  When it threw [e], the fallback, if there is one,
    runs exactly once, on the world the calls of the primary left, and its
    value is the result; when it throws, or when there is none, [e] is
    thrown (the generic error in place of [null] or [undefined]).  When
    each of the [maxRetries + 1] attempts fails with a retryable error, the
    primary is applied exactly [maxRetries + 1] times. *)
Theorem withRetry_attempts W T (operation : Op W T)
  (fallbackOperation : option (Op W T)) (maxRetries baseDelayMs : Z) (w : W) :
  (0 <= maxRetries)%Z ->
  exists r w' pre post k,
    withRetry operation fallbackOperation maxRetries baseDelayMs w
      = Some (r, w', pre ++ post)
    /\ primaryCalls pre = S k
    /\ fallbackCalls pre = 0%nat
    /\ primaryCalls post = 0%nat
    /\ (fallbackCalls post <= 1)%nat
    /\ (Z.of_nat (S k) <= maxRetries + 1)%Z
    /\ match attemptOutcome operation k w with
       | Returned v =>
           r = Returned v /\ w' = worldAfter operation (S k) w /\ post = []
       | Threw e =>
           match fallbackOperation with
           | Some fallback =>
               fallbackCalls post = 1%nat
               /\ w' = snd (fallback (worldAfter operation (S k) w))
               /\ r = match fst (fallback (worldAfter operation (S k) w)) with
                      | Returned v => Returned v
                      | Threw _ => Threw (surfaced e)
                      end
           | None =>
               post = [] /\ w' = worldAfter operation (S k) w
               /\ r = Threw (surfaced e)
           end
       end
    /\ (failsOnEveryAttempt operation maxRetries w ->
        Z.of_nat (S k) = (maxRetries + 1)%Z).
Proof.
  intros Hmax.
  destruct (retryLoop_exits W T operation maxRetries baseDelayMs
              (retryFuel maxRetries) 0%Z Nullish w (retryFuel_enough maxRetries))
    as (x & evs & Hloop & Hp & Hf & _ & _).
  destruct (retryLoop_trajectory W T operation maxRetries baseDelayMs _ _ _ _ _ _
              Hloop) as [Hw Hlast].
  destruct (Hlast Hmax) as (k & Hk & Hout).
  assert (Hall : failsOnEveryAttempt operation maxRetries w ->
                 Z.of_nat (S k) = (maxRetries + 1)%Z).
  { intros Hfail.
    destruct (retryLoop_all_attempts W T operation maxRetries baseDelayMs
                (retryFuel maxRetries) 0%Z Nullish w (retryFuel_enough maxRetries)
                Hmax) as (e' & w'' & evs' & Hloop' & Hp').
    - intros i Hi. apply Hfail. lia.
    - rewrite Hloop in Hloop'. injection Hloop' as _ <-. rewrite <- Hk, Hp'. lia. }
  assert (Hbound : (Z.of_nat (S k) <= maxRetries + 1)%Z) by (rewrite <- Hk; lia).
  unfold withRetry. rewrite Hloop. rewrite Hk in Hw.
  destruct x as [v w1 | lastError w1]; cbn [exitWorld] in Hw.
  - exists (Returned v), w1, evs, [], k. rewrite app_nil_r, Hout.
    repeat split; try assumption; try reflexivity; cbn; lia.
  - destruct fallbackOperation as [fallback|].
    + destruct (fallback w1) as [[v | fallbackErr] w2] eqn:Hfb.
      * exists (Returned v), w2, evs, [WarnFallback; CallFallback], k.
        rewrite Hout, <- Hw, Hfb. repeat split; try assumption; try reflexivity; cbn; lia.
      * exists (Threw (surfaced lastError)), w2, evs,
          [WarnFallback; CallFallback; ErrorFallbackFailed fallbackErr], k.
        rewrite Hout, <- Hw, Hfb. repeat split; try assumption; try reflexivity; cbn; lia.
    + exists (Threw (surfaced lastError)), w1, evs, [], k.
      rewrite app_nil_r, Hout. repeat split; try assumption; try reflexivity; cbn; lia.
Qed.

Lemma withRetry_attempts_witness :
  (0 <= 4)%Z
  /\ failsOnEveryAttempt opFiveDown 4 0%nat
  /\ exists r w' pre post k,
       withRetry opFiveDown (Some fbOk) 4 1800 0%nat = Some (r, w', pre ++ post)
       /\ primaryCalls pre = S k
       /\ fallbackCalls pre = 0%nat
       /\ primaryCalls post = 0%nat
       /\ (fallbackCalls post <= 1)%nat
       /\ (Z.of_nat (S k) <= 4 + 1)%Z
       /\ match attemptOutcome opFiveDown k 0%nat with
          | Returned v =>
              r = Returned v /\ w' = worldAfter opFiveDown (S k) 0%nat
              /\ post = []
          | Threw e =>
              fallbackCalls post = 1%nat
              /\ w' = snd (fbOk (worldAfter opFiveDown (S k) 0%nat))
              /\ r = match fst (fbOk (worldAfter opFiveDown (S k) 0%nat)) with
                     | Returned v => Returned v
                     | Threw _ => Threw (surfaced e)
                     end
          end
       /\ (failsOnEveryAttempt opFiveDown 4 0%nat -> Z.of_nat (S k) = (4 + 1)%Z).
Proof.
  split; [lia|]. split.
  - intros i Hi. exists err503.
    do 5 (destruct i as [|i]; [split; reflexivity|]). lia.
  - apply (withRetry_attempts nat nat opFiveDown (Some fbOk) 4 1800 0%nat). lia.
Defined.






End Retrying.

(** ** The usage tracker *)
Module Usage.

Import Gemini Spec Sample.

(** C1 (as the code has it).  With a listener registered, a total-token
    count that is present is the count [trackUsage] takes, zero included,
    whatever the other counts are: the listener is called with it when it
    is positive and is not called otherwise, so the record with total 0
    and prompt count 5 calls nothing.  The prompt count is taken when the
    total is absent, the candidates count when both are.  A record with no
    count, or no record, calls nothing. *)
Theorem trackUsage_priority S U (svc : GeminiService S U)
  (listener : Z -> U -> U) (r : GenerateContentResponse) (w : World S U) :
  tokenListener svc = Some listener ->
  (forall t p c,
     trackUsage svc (withUsage r (Some t) p c) w
       = if (t >? 0)%Z then notified listener t w else w)
  /\ trackUsage svc (withUsage r (Some 0%Z) (Some 5%Z) None) w = w
  /\ (forall p c,
        trackUsage svc (withUsage r None (Some p) c) w
          = if (p >? 0)%Z then notified listener p w else w)
  /\ (forall c,
        trackUsage svc (withUsage r None None (Some c)) w
          = if (c >? 0)%Z then notified listener c w else w)
  /\ trackUsage svc (withUsage r None None None) w = w
  /\ (usageMetadata r = None -> trackUsage svc r w = w).
Proof.
  intros Hl. unfold trackUsage. rewrite Hl.
  refine (conj _ (conj _ (conj _ (conj _ (conj _ _))))).
  - intros t p c. unfold usageTotal. cbn. destruct (t >? 0)%Z; reflexivity.
  - reflexivity.
  - intros p c. unfold usageTotal. cbn. destruct (p >? 0)%Z; reflexivity.
  - intros c. unfold usageTotal. cbn. destruct (c >? 0)%Z; reflexivity.
  - reflexivity.
  - intros Hr. unfold usageTotal. rewrite Hr. reflexivity.
Qed.

Lemma trackUsage_priority_witness :
  tokenListener (answering blankResponse) = Some Z.add
  /\ trackUsage (answering blankResponse)
       (withUsage blankResponse (Some 7%Z) (Some 5%Z) None) world0
     = notified Z.add 7%Z world0
  /\ trackUsage (answering blankResponse)
       (withUsage blankResponse (Some 0%Z) (Some 5%Z) None) world0
     = world0
  /\ trackUsage (answering blankResponse) blankResponse world0 = world0.
Proof.
  split; [reflexivity|].
  destruct (trackUsage_priority unit Z (answering blankResponse) Z.add
              blankResponse world0 eq_refl) as (Htotal & Hzero & _ & _ & _ & Hnone).
  split; [exact (Htotal 7%Z (Some 5%Z) None)|].
  split; [exact Hzero | exact (Hnone eq_refl)].
Defined.

(** C1, the claim as stated, fails: on [{totalTokenCount: 0,
    promptTokenCount: 5}] the listener is not called at all. *)
Lemma zero_total_hides_prompt_count :
  trackUsage (answering usageZeroTotal) usageZeroTotal world0 = world0
  /\ ~ In 5%Z (listenerLog
                 (trackUsage (answering usageZeroTotal) usageZeroTotal world0)).
Proof.
  split; [reflexivity|]. intros H. exact H.
Qed.

End Usage.

(** ** The context formatter *)
Module Formatting.

Import Gemini Spec Sample.





(** The block of the 14,001-character document: its header says 14001 and
    14,000 characters follow. *)
Example formatCaseFile_bigFile :
  formatCaseFile bigFile
  = lit "--- FILE: big.txt (14001 chars) ---" ++ nl
      ++ repeat 97%N (N.to_nat 14000) ++ nl ++ lit "--- END ---".
Proof. vm_compute. reflexivity. Qed.

End Formatting.

(** ** The research aggregator *)
Module Research.

Import Gemini Spec Sample.

Lemma existsb_eqb_In (k : JsString) (seen : list JsString) :
  existsb (Js.eqb k) seen = true <-> In k seen.
Proof.
  rewrite existsb_exists. split.
  - intros [x [Hin Heq]]. apply JsFacts.eqb_eq in Heq. now subst.
  - intros Hin. exists k. split; [exact Hin | now apply JsFacts.eqb_eq].
Qed.

Lemma existsb_eqb_not_In (k : JsString) (seen : list JsString) :
  existsb (Js.eqb k) seen = false <-> ~ In k seen.
Proof.
  rewrite <- existsb_eqb_In. destruct (existsb (Js.eqb k) seen); split;
    congruence.
Qed.

Section MapOfEntries.

Variable V : Type.

Let step := fun (m : list (JsString * V)) kv => mapSet (fst kv) (snd kv) m.

Lemma mapSet_keys k (v : V) m :
  map fst (mapSet k v m)
  = if existsb (Js.eqb k) (map fst m) then map fst m else map fst m ++ [k].
Proof.
  induction m as [|[k' v'] m IH]; simpl; [reflexivity|].
  destruct (Js.eqb k' k) eqn:E.
  - apply JsFacts.eqb_eq in E. subst k'.
    replace (Js.eqb k k) with true by (symmetry; now apply JsFacts.eqb_eq).
    reflexivity.
  - apply JsFacts.eqb_neq in E.
    replace (Js.eqb k k') with false
      by (symmetry; apply JsFacts.eqb_neq; congruence).
    simpl. rewrite IH. now destruct (existsb (Js.eqb k) (map fst m)).
Qed.

Lemma mapSet_fresh k (v : V) m :
  ~ In k (map fst m) -> mapSet k v m = m ++ [(k, v)].
Proof.
  induction m as [|[k' v'] m IH]; simpl; intros Hn; [reflexivity|].
  destruct (Js.eqb k' k) eqn:E.
  - apply JsFacts.eqb_eq in E. tauto.
  - rewrite IH; tauto.
Qed.

Lemma mapSet_values k (v : V) m x :
  In x (map snd (mapSet k v m)) -> x = v \/ In x (map snd m).
Proof.
  induction m as [|[k' v'] m IH]; simpl.
  - intros [H | []]. now left.
  - destruct (Js.eqb k' k); simpl.
    + intros [H | H]; [now left | now right; right].
    + intros [H | H]; [now right; left|].
      apply IH in H. destruct H; [now left | now right; right].
Qed.

(** The keys of a map built from entries are the keys of the entries, each
    where it was first inserted. *)
Lemma fold_mapSet_keys entries : forall m,
  map fst (fold_left step entries m)
  = map fst m ++ firstSeenFrom (map fst m) (map fst entries).
Proof.
  induction entries as [|[k v] entries IH]; intros m; simpl.
  - now rewrite app_nil_r.
  - rewrite IH. change (step m (k, v)) with (mapSet k v m). rewrite mapSet_keys.
    destruct (existsb (Js.eqb k) (map fst m)); [reflexivity|].
    now rewrite <- app_assoc.
Qed.

Lemma fold_mapSet_values entries : forall m x,
  In x (map snd (fold_left step entries m)) ->
  In x (map snd m) \/ In x (map snd entries).
Proof.
  induction entries as [|[k v] entries IH]; intros m x; simpl; [tauto|].
  intros H. apply IH in H. destruct H as [H | H]; [|tauto].
  change (step m (k, v)) with (mapSet k v m) in H.
  apply mapSet_values in H. destruct H as [-> | H]; [right; now left | now left].
Qed.

Lemma fold_mapSet_fresh entries : forall m,
  NoDup (map fst m ++ map fst entries) ->
  fold_left step entries m = m ++ entries.
Proof.
  induction entries as [|[k v] entries IH]; intros m Hnd; simpl.
  - now rewrite app_nil_r.
  - simpl in Hnd. change (step m (k, v)) with (mapSet k v m).
    rewrite mapSet_fresh.
    + rewrite IH.
      * now rewrite <- app_assoc.
      * rewrite map_app, <- app_assoc. exact Hnd.
    + apply NoDup_remove_2 in Hnd. intros Hin. apply Hnd.
      apply in_or_app. now left.
Qed.

(** An entry keeps the key it was inserted under. *)
Lemma mapSet_keyed (key : V -> JsString) k v m :
  key v = k ->
  Forall (fun kv => key (snd kv) = fst kv) m ->
  Forall (fun kv => key (snd kv) = fst kv) (mapSet k v m).
Proof.
  intros Hk. induction 1 as [|[k' v'] m Hx Hm IH]; simpl.
  - constructor; [exact Hk | constructor].
  - destruct (Js.eqb k' k) eqn:E.
    + apply JsFacts.eqb_eq in E. subst k'. constructor; [exact Hk | exact Hm].
    + constructor; [exact Hx | exact IH].
Qed.

Lemma fold_mapSet_keyed (key : V -> JsString) entries : forall m,
  Forall (fun kv => key (snd kv) = fst kv) entries ->
  Forall (fun kv => key (snd kv) = fst kv) m ->
  Forall (fun kv => key (snd kv) = fst kv) (fold_left step entries m).
Proof.
  induction entries as [|[k v] entries IH]; intros m He Hm; simpl;
    [exact Hm|].
  inversion He as [|? ? Hkv He']; subst. apply IH; [exact He'|].
  change (step m (k, v)) with (mapSet k v m).
  apply mapSet_keyed; assumption.
Qed.

End MapOfEntries.

Lemma firstSeenFrom_In l : forall seen u,
  In u (firstSeenFrom seen l) <-> In u l /\ ~ In u seen.
Proof.
  induction l as [|k l IH]; intros seen u; simpl; [tauto|].
  destruct (existsb (Js.eqb k) seen) eqn:E.
  - apply existsb_eqb_In in E. rewrite IH. split.
    + tauto.
    + intros [[-> | H] Hn]; tauto.
  - apply existsb_eqb_not_In in E. simpl. rewrite IH, in_app_iff. simpl.
    split.
    + intros [-> | [H Hn]]; tauto.
    + intros [[-> | H] Hn]; [tauto|].
      destruct (list_eq_dec N.eq_dec k u); [tauto|]. right. tauto.
Qed.

Lemma firstSeenFrom_NoDup l : forall seen, NoDup (firstSeenFrom seen l).
Proof.
  induction l as [|k l IH]; intros seen; simpl; [constructor|].
  destruct (existsb (Js.eqb k) seen); [apply IH|].
  constructor; [|apply IH]. rewrite firstSeenFrom_In, in_app_iff. simpl. tauto.
Qed.

Lemma firstSeenFrom_distinct l : forall seen,
  NoDup (seen ++ l) -> firstSeenFrom seen l = l.
Proof.
  induction l as [|k l IH]; intros seen Hnd; simpl; [reflexivity|].
  assert (Hn : ~ In k seen).
  { apply NoDup_remove_2 in Hnd. intros H. apply Hnd, in_or_app. now left. }
  apply existsb_eqb_not_In in Hn. rewrite Hn. f_equal. apply IH.
  rewrite <- app_assoc. exact Hnd.
Qed.


Section Merge.

Variables caseRes statuteRes : GenerateContentResponse.

Let allSources := extractSources caseRes ++ extractSources statuteRes.
Let entries := map (fun s => (srcUri s, s)) allSources.

Lemma entries_keys : map fst entries = map srcUri allSources.
Proof. unfold entries. rewrite map_map. reflexivity. Qed.

Lemma keyed_values (m : list (JsString * Source)) :
  Forall (fun kv => srcUri (snd kv) = fst kv) m ->
  map srcUri (map snd m) = map fst m.
Proof.
  induction 1 as [|[k v] m Hx _ IH]; simpl; [reflexivity|].
  simpl in Hx. now rewrite Hx, IH.
Qed.

Lemma uniqueSources_keys :
  map srcUri (uniqueSources caseRes statuteRes)
  = firstSeen (map srcUri allSources).
Proof.
  unfold uniqueSources, mapValues, newMap. fold allSources. fold entries.
  rewrite keyed_values.
  - rewrite fold_mapSet_keys. simpl. now rewrite entries_keys.
  - apply fold_mapSet_keyed; [|constructor].
    unfold entries. apply Forall_forall. intros kv Hin.
    apply in_map_iff in Hin. destruct Hin as [s [<- _]]. reflexivity.
Qed.

End Merge.

(** C7.  The merged citation list of [researchLegalPrecedent] has one
    entry for each URI among the sources extracted from the two responses
    and no other: its URIs are those of the case-law sources followed by
    the statutes sources, each kept where it first occurs, so every such
    URI occurs once, also when both roles cite it; every entry is one of
    the extracted sources; and when all the URIs are distinct the list is
    the whole concatenation, one entry per source. *)
Theorem uniqueSources_first_seen (caseRes statuteRes : GenerateContentResponse) :
  let allSources := extractSources caseRes ++ extractSources statuteRes in
  let merged := uniqueSources caseRes statuteRes in
  map srcUri merged = firstSeen (map srcUri allSources)
  /\ NoDup (map srcUri merged)
  /\ (forall u, In u (map srcUri merged) <-> In u (map srcUri allSources))
  /\ (forall u, In u (map srcUri allSources) ->
        count_occ (list_eq_dec N.eq_dec) (map srcUri merged) u = 1%nat)
  /\ (forall s, In s merged -> In s allSources)
  /\ (NoDup (map srcUri allSources) ->
        merged = allSources
        /\ List.length merged
           = (List.length (extractSources caseRes)
              + List.length (extractSources statuteRes))%nat).
Proof.
  intros allSources merged.
  assert (Hkeys : map srcUri merged = firstSeen (map srcUri allSources))
    by apply uniqueSources_keys.
  assert (Hnd : NoDup (map srcUri merged)).
  { rewrite Hkeys. apply firstSeenFrom_NoDup. }
  assert (Hin : forall u, In u (map srcUri merged) <-> In u (map srcUri allSources)).
  { intros u. rewrite Hkeys. unfold firstSeen. rewrite firstSeenFrom_In.
    simpl. tauto. }
  refine (conj Hkeys (conj Hnd (conj Hin (conj _ (conj _ _))))).
  - intros u Hu. apply NoDup_count_occ'; [exact Hnd | now apply Hin].
  - intros s Hs. unfold merged, uniqueSources, mapValues, newMap in Hs.
    apply fold_mapSet_values in Hs. destruct Hs as [[] | Hs].
    rewrite map_map, map_id in Hs. exact Hs.
  - intros Hdistinct.
    assert (Heq : merged = allSources).
    { unfold merged, uniqueSources, mapValues, newMap.
      rewrite fold_mapSet_fresh.
      - simpl. rewrite map_map. apply map_id.
      - simpl. rewrite map_map. exact Hdistinct. }
    split; [exact Heq|]. rewrite Heq. apply length_app.
Qed.

Lemma uniqueSources_first_seen_witness :
  NoDup (map srcUri (extractSources roleA ++ extractSources roleC))
  /\ uniqueSources roleA roleC = extractSources roleA ++ extractSources roleC
  /\ List.length (uniqueSources roleA roleC) = 2%nat
  /\ (In (lit "u1") (map srcUri (uniqueSources roleA roleB))
      <-> In (lit "u1") (map srcUri (extractSources roleA ++ extractSources roleB))).
Proof.
  assert (Hnd : NoDup (map srcUri (extractSources roleA ++ extractSources roleC))).
  { repeat constructor; simpl; intuition discriminate. }
  split; [exact Hnd|].
  destruct (uniqueSources_first_seen roleA roleC)
    as (_ & _ & _ & _ & _ & Hall).
  destruct (Hall Hnd) as [Heq Hlen].
  split; [exact Heq|]. split; [exact Hlen|].
  destruct (uniqueSources_first_seen roleA roleB) as (_ & _ & Hin & _).
  apply Hin.
Defined.

(** The scenario of the design: both roles cite ["u1"], under the titles
    ["X"] and ["Y"]; the merged list has one entry for it, with the title
    written last, and the report gives the two texts in order. *)
Example uniqueSources_same_uri :
  uniqueSources roleA roleB = [ {| srcTitle := lit "Y"; srcUri := lit "u1" |} ]
  /\ includes (combinedText roleA roleB)
       (lit "A1" ++ nl ++ nl ++ lit "## Relevant Statutes & Trial Rules" ++ nl
          ++ lit "B1") = true.
Proof. split; vm_compute; reflexivity. Qed.

(** C3 (as the code has it).  In whatever order the responses and timers
    of its two calls come in, [researchLegalPrecedent] ends.  Its case-law
    call is retried, five attempts at most, and has a fallback on the fast
    model, run at most once; its statutes call, on the fast model from the
    start, is retried, five attempts at most, and has no fallback.  On a
    backend that rejects every request with a retryable error the research
    fails with its fixed error after five case-law requests, one case-law
    fallback request and five statutes requests, and nothing else was
    sent. *)
Theorem research_fallback_case_law_only S U (svc : GeminiService S U)
  (sched : nat -> bool) (query : JsString) (w : World S U) :
  exists r w' caseEvents statuteEvents,
    researchLegalPrecedent svc sched query w
      = Some (r, w', (caseEvents, statuteEvents))
    /\ (primaryCalls caseEvents <= 5)%nat
    /\ (fallbackCalls caseEvents <= 1)%nat
    /\ (primaryCalls statuteEvents <= 5)%nat
    /\ fallbackCalls statuteEvents = 0%nat
    /\ (backendDown svc ->
        r = Threw researchFailed
        /\ primaryCalls caseEvents = 5%nat /\ fallbackCalls caseEvents = 1%nat
        /\ primaryCalls statuteEvents = 5%nat
        /\ exists sent,
             apiLog w' = apiLog w ++ sent
             /\ Permutation sent
                  (repeat (caseCall query) 5 ++ [caseFallbackCall query]
                   ++ repeat (statuteCall query) 5)).
Proof.
  destruct (RaceFacts.research_ends S U svc query sched w) as [s Hrace].
  destruct (RaceFacts.research_counts S U svc query sched w s Hrace)
    as (Hp1 & Hf1 & Hp2 & Hf2 & added & Hlog & Hperm).
  exists (gathered s), (raceWorld s), (caseLog s), (statuteLog s).
  rewrite RaceFacts.research_race, Hrace.
  refine (conj eq_refl (conj Hp1 (conj Hf1 (conj Hp2 (conj Hf2 _))))).
  intros Hdown.
  destruct (RaceFacts.research_down S U svc query sched w s Hdown Hrace)
    as (Hr & Hc1 & Hc2 & Hc3).
  refine (conj Hr (conj Hc1 (conj Hc2 (conj Hc3 _)))).
  exists (caseCall query :: statuteCall query :: added).
  split; [exact Hlog|]. rewrite Hc1, Hc2, Hc3 in Hperm. exact Hperm.
Qed.

Lemma research_fallback_case_law_only_witness :
  backendDown svcDown
  /\ exists w' caseEvents statuteEvents,
       researchLegalPrecedent svcDown inTurns (lit "custody relocation") world0
         = Some (Threw researchFailed, w', (caseEvents, statuteEvents))
       /\ primaryCalls caseEvents = 5%nat
       /\ fallbackCalls caseEvents = 1%nat
       /\ primaryCalls statuteEvents = 5%nat
       /\ fallbackCalls statuteEvents = 0%nat.
Proof.
  assert (Hdown : backendDown svcDown).
  { intros c s. exists err503, s. split; reflexivity. }
  split; [exact Hdown|].
  destruct (research_fallback_case_law_only unit Z svcDown inTurns
              (lit "custody relocation") world0)
    as (r & w' & caseEvents & statuteEvents & Heq & _ & _ & _ & Hf2 & Hexact).
  destruct (Hexact Hdown) as (Hr & Hp1 & Hf1 & Hp2 & _).
  exists w', caseEvents, statuteEvents. rewrite <- Hr.
  repeat split; assumption.
Defined.

(** C3, the claim as stated, fails for the statutes role: with every
    request rejected by a 503, the five attempts of the statutes call are
    followed by no fallback attempt, whether the two calls are served in
    turns or the statutes call first; the only request on the fast model
    besides the five statutes requests is the case-law fallback. *)
Lemma statutes_role_has_no_fallback :
  (exists w' caseEvents statuteEvents,
     researchLegalPrecedent svcDown inTurns (lit "custody relocation") world0
       = Some (Threw researchFailed, w', (caseEvents, statuteEvents))
     /\ primaryCalls statuteEvents = 5%nat
     /\ filter isCallFallback statuteEvents = []
     /\ filter isCallFallback caseEvents = [CallFallback]
     /\ map callModel (apiLog w')
        = [reasoning; fast; reasoning; fast; reasoning; fast; reasoning; fast;
           reasoning; fast; fast])
  /\ (exists w' caseEvents statuteEvents,
        researchLegalPrecedent svcDown statutesFirst (lit "custody relocation")
          world0
          = Some (Threw researchFailed, w', (caseEvents, statuteEvents))
        /\ primaryCalls statuteEvents = 5%nat
        /\ filter isCallFallback statuteEvents = []
        /\ filter isCallFallback caseEvents = [CallFallback]
        /\ map callModel (apiLog w')
           = [reasoning; fast; fast; fast; fast; fast; reasoning; reasoning;
              reasoning; reasoning; fast]).
Proof.
  split; (eexists _, _, _; split; [vm_compute; reflexivity|]); repeat split.
Qed.

End Research.

(** ** Drafting *)
Module Drafting.

Import Gemini Spec Sample.

Lemma trimmedOr_blank (t : option JsString) (placeholder : JsString) :
  t = None \/ (exists s, t = Some s /\ whitespaceOnly s = true) ->
  trimmedOr t placeholder = placeholder.
Proof.
  intros [-> | [s [-> Hs]]]; [reflexivity|]. unfold trimmedOr.
  apply JsFacts.trim_nil_iff in Hs. now rewrite Hs.
Qed.

Lemma trimmedOr_not_blank (t : option JsString) (placeholder : JsString) :
  whitespaceOnly placeholder = false ->
  whitespaceOnly (trimmedOr t placeholder) = false.
Proof.
  intros Hp. unfold trimmedOr. destruct t as [s|]; [|exact Hp].
  destruct (truthy (trim s)) eqn:E; [|exact Hp].
  now apply JsFacts.trim_not_whitespaceOnly.
Qed.

Lemma draftFailed_not_blank : whitespaceOnly draftFailed = false.
Proof. reflexivity. Qed.

(** C10.  When the call behind [draftMotion] succeeds with a text that
    is absent, empty or made of white space only, [draftMotion] returns
    the placeholder; and whatever [draftMotion] returns is neither empty
    nor made of white space only. *)
Theorem draftMotion_never_blank S U (svc : GeminiService S U)
  (topic : JsString) (files : list CaseFile) (userInstructions : JsString)
  (w : World S U) :
  let prompt := draftPrompt topic files userInstructions in
  (forall response w1 evs,
     withRetry (runDraft svc prompt reasoning) (Some (runDraft svc prompt fast))
       4 1800 w = Some (Returned response, w1, evs) ->
     text response = None
     \/ (exists t, text response = Some t /\ whitespaceOnly t = true) ->
     draftMotion svc topic files userInstructions w
       = Some (Returned draftFailed, trackUsage svc response w1, evs))
  /\ (forall s w' evs,
        draftMotion svc topic files userInstructions w
          = Some (Returned s, w', evs) ->
        s <> [] /\ whitespaceOnly s = false).
Proof.
  intros prompt. split.
  - intros response w1 evs Hcall Hblank. unfold draftMotion. fold prompt.
    rewrite Hcall. now rewrite trimmedOr_blank.
  - intros s w' evs. unfold draftMotion. fold prompt.
    destruct (withRetry _ _ _ _ w) as [[[[response | e] w1] evs']|];
      try discriminate.
    intros H. injection H as <- _ _.
    pose proof (trimmedOr_not_blank (text response) draftFailed
                  draftFailed_not_blank) as Hnb.
    split; [|exact Hnb]. intros Hnil. rewrite Hnil in Hnb. discriminate Hnb.
Qed.

Lemma draftMotion_never_blank_witness :
  exists w' evs,
    draftMotion (answering blankResponse) (lit "custody") [] [] world0
      = Some (Returned draftFailed, w', evs)
    /\ draftFailed <> [] /\ whitespaceOnly draftFailed = false.
Proof.
  destruct (draftMotion_never_blank unit Z (answering blankResponse)
              (lit "custody") [] [] world0) as [Hblank Hnever].
  pose proof (Hblank blankResponse _ _ eq_refl
                (or_intror (ex_intro _ (lit "   ") (conj eq_refl eq_refl))))
    as Hdraft.
  eexists _, _. split; [exact Hdraft|]. exact (Hnever _ _ _ Hdraft).
Defined.

End Drafting.

(** ** The chat *)
Module Chatting.

Import Gemini Spec Sample.

(** With every request rejected by a retryable error, [chatWithExpert]
    uses its five attempts and its fallback and throws. *)
Lemma chatWithExpert_down S U (svc : GeminiService S U) message files history w :
  backendDown svc -> failed (chatWithExpert svc message files history w).
Proof.
  intros Hdown.
  assert (Hrun : forall model w0, exists e w1,
             runChat svc message files history model w0 = (Threw e, w1)
             /\ isRetryable e = true).
  { intros model w0. unfold runChat, callApi.
    destruct (Hdown (Chat model chatSystem 0.45%Q history
                       (fullMessage message files)) (backend w0))
      as (e & s' & -> & Hr).
    eexists _, _. split; [reflexivity | exact Hr]. }
  unfold chatWithExpert, withRetry.
  destruct (RetryFacts.withRetry_loop_exhausted _ _
              (runChat svc message files history reasoning) 4 1800
              (fun _ _ => True) w 0) as (e1 & w1 & ev1 & -> & _); auto.
  - intros k w0 _. destruct (Hrun reasoning w0) as (e & w' & H1 & H2).
    now exists e, w'.
  - lia.
  - destruct (Hrun fast w1) as (e2 & w2 & -> & _). exact I.
Qed.

(** C9.  When there is something to send and the call of
    [chatWithExpert] ends by throwing, [handleSend] leaves the transcript
    with two more turns: the user's, then a turn of the model whose text
    is the fixed apology; the error itself is not in it. *)
Theorem handleSend_apology S U (dateNow : S -> Z) (svc : GeminiService S U)
  (files : list CaseFile) (st : App.Assistant) (w : World S U) :
  truthy (trim (App.input st)) = true ->
  failed (chatWithExpert svc (App.input st) files
            (App.historyOf (App.messages st)) w) ->
  exists st' w' evs userMsg apologyMsg,
    App.handleSend dateNow svc files st w = Some (st', w', evs)
    /\ App.messages st' = App.messages st ++ [userMsg; apologyMsg]
    /\ App.role userMsg = lit "user" /\ App.text userMsg = App.input st
    /\ App.role apologyMsg = lit "model"
    /\ App.text apologyMsg = lit "I encountered an error. Please try again."
    /\ List.length (App.messages st') = (List.length (App.messages st) + 2)%nat
    /\ App.thinking st' = false.
Proof.
  intros Hinput Hfail. unfold App.handleSend. rewrite Hinput. cbn [negb].
  cbn [App.text App.stamped].
  destruct (chatWithExpert svc (App.input st) files
              (App.historyOf (App.messages st)) w)
    as [[[[responseText | e] w1] evs]|]; try contradiction.
  eexists _, _, _, _, _. split; [reflexivity|]. cbn.
  rewrite <- app_assoc. split; [reflexivity|].
  rewrite length_app. cbn. repeat split.
Qed.

Lemma handleSend_apology_witness :
  truthy (trim (App.input typedHi)) = true
  /\ failed (chatWithExpert svcDown (App.input typedHi) []
               (App.historyOf (App.messages typedHi)) world0)
  /\ exists st' w' evs userMsg apologyMsg,
       App.handleSend clock svcDown [] typedHi world0 = Some (st', w', evs)
       /\ App.messages st' = App.messages typedHi ++ [userMsg; apologyMsg]
       /\ App.role userMsg = lit "user" /\ App.text userMsg = App.input typedHi
       /\ App.role apologyMsg = lit "model"
       /\ App.text apologyMsg = lit "I encountered an error. Please try again."
       /\ List.length (App.messages st')
          = (List.length (App.messages typedHi) + 2)%nat
       /\ App.thinking st' = false.
Proof.
  assert (H1 : truthy (trim (App.input typedHi)) = true) by reflexivity.
  assert (H2 : failed (chatWithExpert svcDown (App.input typedHi) []
                         (App.historyOf (App.messages typedHi)) world0))
    by (vm_compute; exact I).
  split; [exact H1|]. split; [exact H2|].
  exact (handleSend_apology unit Z clock svcDown [] typedHi world0 H1 H2).
Defined.

End Chatting.

(** ** More on [withRetry]: recovery, backoff, provenance *)
Module RetryMore.

Import Gemini Spec Sample RetryFacts.

Section Loop.

Variables W T : Type.
Variable operation : Op W T.
Variable fallbackOperation : option (Op W T).
Variable maxRetries baseDelayMs : Z.

Let loop := retryLoop operation maxRetries baseDelayMs.

Lemma retryWarnings_app a b :
  retryWarnings (a ++ b) = (retryWarnings a + retryWarnings b)%nat.
Proof. unfold retryWarnings. now rewrite filter_app, length_app. Qed.

Lemma sleeps_app a b : sleeps (a ++ b) = (sleeps a + sleeps b)%nat.
Proof. unfold sleeps. now rewrite filter_app, length_app. Qed.

Lemma backoffTotal_app a b :
  backoffTotal (a ++ b) = (backoffTotal a + backoffTotal b)%Z.
Proof.
  induction a as [|e a IH]; simpl; [reflexivity|].
  destruct e; simpl; rewrite ?IH; lia.
Qed.

(** Whatever relation the calls of the primary keep, the loop keeps. *)
Lemma retryLoop_rel (R : W -> W -> Prop) :
  (forall w, R w w) ->
  (forall a b c, R a b -> R b c -> R a c) ->
  (forall w, R w (snd (operation w))) ->
  forall fuel attempt last w x evs,
    loop fuel attempt last w = Some (x, evs) -> R w (exitWorld x).
Proof.
  intros Hrefl Htrans Hop.
  induction fuel as [|fuel IH]; intros attempt last w x evs; [discriminate|].
  cbn [loop retryLoop]. fold loop.
  destruct (attempt <=? maxRetries)%Z.
  - pose proof (Hop w) as Hstep.
    destruct (operation w) as [[v|err] w1]; simpl in Hstep.
    + intros H. injection H as <- _. exact Hstep.
    + destruct (negb (isRetryable err) || (attempt =? maxRetries)%Z).
      * intros H. injection H as <- _. exact Hstep.
      * destruct (loop fuel (attempt + 1)%Z err w1) as [[x' evs']|] eqn:Hrec;
          [|discriminate].
        intros H. injection H as <- _.
        exact (Htrans _ _ _ Hstep (IH _ _ _ _ _ Hrec)).
  - intros H. injection H as <- _. apply Hrefl.
Qed.

(** A value the loop returns is one the primary returned, in the world
    the loop leaves. *)
Lemma retryLoop_returned fuel : forall attempt last w v w1 evs,
  loop fuel attempt last w = Some (LoopReturn v w1, evs) ->
  exists w0, operation w0 = (Returned v, w1).
Proof.
  induction fuel as [|fuel IH]; intros attempt last w v w1 evs; [discriminate|].
  cbn [loop retryLoop]. fold loop.
  destruct (attempt <=? maxRetries)%Z; [|discriminate].
  destruct (operation w) as [[v'|err] w2] eqn:Hop.
  - intros H. injection H as -> -> _. now exists w.
  - destruct (negb (isRetryable err) || (attempt =? maxRetries)%Z);
      [discriminate|].
    destruct (loop fuel (attempt + 1)%Z err w2) as [[x' evs']|] eqn:Hrec;
      [|discriminate].
    intros H. injection H as -> _. exact (IH _ _ _ _ _ _ Hrec).
Qed.

(** The events of the loop: no fallback, as many warnings as sleeps, every
    sleep on schedule, and a call of the primary last. *)
Lemma retryLoop_events fuel : forall attempt last w x evs,
  (0 <= attempt)%Z ->
  loop fuel attempt last w = Some (x, evs) ->
  Forall (onSchedule attempt maxRetries baseDelayMs) evs
  /\ retryWarnings evs = sleeps evs
  /\ fallbackCalls evs = 0%nat
  /\ ((attempt <= maxRetries)%Z ->
      exists pre a, evs = pre ++ [CallPrimary a]
                    /\ S (sleeps evs) = primaryCalls evs)
  /\ ((maxRetries < attempt)%Z -> evs = []).
Proof.
  induction fuel as [|fuel IH]; intros attempt last w x evs Hpos; [discriminate|].
  cbn [loop retryLoop]. fold loop.
  destruct (attempt <=? maxRetries)%Z eqn:Hle.
  - apply Z.leb_le in Hle.
    assert (Hone : forall y, Some (y, [CallPrimary attempt]) = Some (x, evs) ->
              Forall (onSchedule attempt maxRetries baseDelayMs) evs
              /\ retryWarnings evs = sleeps evs
              /\ fallbackCalls evs = 0%nat
              /\ ((attempt <= maxRetries)%Z ->
                  exists pre a, evs = pre ++ [CallPrimary a]
                                /\ S (sleeps evs) = primaryCalls evs)
              /\ ((maxRetries < attempt)%Z -> evs = [])).
    { intros y H. injection H as _ <-. split; [repeat constructor|].
      split; [reflexivity|]. split; [reflexivity|]. split; [|lia].
      intros _. exists [], attempt. split; reflexivity. }
    destruct (operation w) as [[v|err] w1]; [apply Hone|].
    destruct (negb (isRetryable err) || (attempt =? maxRetries)%Z) eqn:Hstop;
      [apply Hone|].
    apply orb_false_iff in Hstop. destruct Hstop as [_ Hne].
    apply Z.eqb_neq in Hne.
    destruct (loop fuel (attempt + 1)%Z err w1) as [[x' evs']|] eqn:Hrec;
      [|discriminate].
    intros H. injection H as _ <-.
    assert (Hpos' : (0 <= attempt + 1)%Z) by lia.
    destruct (IH _ _ _ _ _ Hpos' Hrec) as (Hs & Hw & Hf & Hlast & _).
    assert (Hle' : (attempt + 1 <= maxRetries)%Z) by lia.
    destruct (Hlast Hle') as (pre & a & Hpre & Hcount).
    split.
    { constructor; [exact I|]. constructor; [exact I|].
      constructor; [split; [lia | reflexivity]|].
      eapply Forall_impl; [|exact Hs]. intros [] H; simpl in *; try exact I.
      split; [lia | tauto]. }
    split.
    { unfold retryWarnings, sleeps in *. simpl. now rewrite Hw. }
    split; [exact Hf|]. split; [|lia]. intros _.
    exists (CallPrimary attempt :: WarnRetry attempt maxRetries (messageOf err)
              :: Sleep attempt (baseDelayMs * 2 ^ attempt) :: pre), a.
    split; [now rewrite Hpre|].
    unfold sleeps, primaryCalls in *. simpl. now rewrite Hcount.
  - apply Z.leb_gt in Hle. intros H. injection H as _ <-.
    split; [constructor|]. repeat split; try reflexivity. lia.
Qed.

(** The time slept is bounded by the geometric sum of the schedule. *)
Lemma retryLoop_backoff fuel : forall attempt last w x evs,
  (0 <= attempt <= maxRetries)%Z -> (0 <= baseDelayMs)%Z ->
  loop fuel attempt last w = Some (x, evs) ->
  (0 <= backoffTotal evs <= baseDelayMs * (2 ^ maxRetries - 2 ^ attempt))%Z.
Proof.
  induction fuel as [|fuel IH]; intros attempt last w x evs Hr Hb;
    [discriminate|].
  cbn [loop retryLoop]. fold loop.
  assert (Hpow : (0 < 2 ^ attempt <= 2 ^ maxRetries)%Z).
  { split; [apply Z.pow_pos_nonneg; lia | apply Z.pow_le_mono_r; lia]. }
  replace (attempt <=? maxRetries)%Z with true by (symmetry; apply Z.leb_le; lia).
  assert (Hone : forall y, Some (y, [CallPrimary attempt]) = Some (x, evs) ->
            (0 <= backoffTotal evs
             <= baseDelayMs * (2 ^ maxRetries - 2 ^ attempt))%Z).
  { intros y H. injection H as _ <-. simpl. nia. }
  destruct (operation w) as [[v|err] w1]; [apply Hone|].
  destruct (negb (isRetryable err) || (attempt =? maxRetries)%Z) eqn:Hstop;
    [apply Hone|].
  apply orb_false_iff in Hstop. destruct Hstop as [_ Hne].
  apply Z.eqb_neq in Hne.
  destruct (loop fuel (attempt + 1)%Z err w1) as [[x' evs']|] eqn:Hrec;
    [|discriminate].
  intros H. injection H as _ <-.
  assert (Hr' : (0 <= attempt + 1 <= maxRetries)%Z) by lia.
  pose proof (IH _ _ _ _ _ Hr' Hb Hrec) as Hrest.
  rewrite Z.pow_add_r, Z.pow_1_r in Hrest by lia. simpl. nia.
Qed.

(** With every call rejected by a retryable error the whole schedule is
    slept. *)
Lemma retryLoop_backoff_exhausted fuel : forall attempt last w x evs,
  alwaysRetryable operation ->
  (0 <= attempt <= maxRetries)%Z ->
  loop fuel attempt last w = Some (x, evs) ->
  backoffTotal evs = (baseDelayMs * (2 ^ maxRetries - 2 ^ attempt))%Z.
Proof.
  intros attempt last w x evs Hop. revert attempt last w x evs.
  induction fuel as [|fuel IH]; intros attempt last w x evs Hr; [discriminate|].
  cbn [loop retryLoop]. fold loop.
  replace (attempt <=? maxRetries)%Z with true by (symmetry; apply Z.leb_le; lia).
  destruct (Hop w) as (e & w1 & -> & Hretry). rewrite Hretry. cbn [negb orb].
  destruct (attempt =? maxRetries)%Z eqn:Heq.
  - apply Z.eqb_eq in Heq. subst attempt. intros H. injection H as _ <-.
    simpl. lia.
  - apply Z.eqb_neq in Heq.
    destruct (loop fuel (attempt + 1)%Z e w1) as [[x' evs']|] eqn:Hrec;
      [|discriminate].
    intros H. injection H as _ <-.
    assert (Hr' : (0 <= attempt + 1 <= maxRetries)%Z) by lia.
    pose proof (IH _ _ _ _ _ Hr' Hrec) as Hrest.
    rewrite Z.pow_add_r, Z.pow_1_r in Hrest by lia. simpl. lia.
Qed.

(** After [d] rejections with a retryable error the primary answers, and
    the loop returns its value. *)
Lemma retryLoop_recovers (Inv : nat -> W -> Prop) (k : nat) (v : T) :
  (forall j w0, (j < k)%nat -> Inv j w0 ->
     exists e w1, operation w0 = (Threw e, w1) /\ isRetryable e = true
                  /\ Inv (S j) w1) ->
  (forall w0, Inv k w0 -> exists w1, operation w0 = (Returned v, w1)) ->
  forall d j attempt last w fuel,
    (j + d = k)%nat -> (attempt + Z.of_nat d <= maxRetries)%Z ->
    (d < fuel)%nat -> Inv j w ->
    exists w' evs,
      loop fuel attempt last w = Some (LoopReturn v w', evs)
      /\ primaryCalls evs = S d /\ sleeps evs = d.
Proof.
  intros Hfail Hok.
  induction d as [|d IH]; intros j attempt last w fuel Hj Hle Hfuel HI;
    (destruct fuel as [|fuel]; [lia|]); cbn [loop retryLoop]; fold loop;
    (replace (attempt <=? maxRetries)%Z with true
       by (symmetry; apply Z.leb_le; lia)).
  - replace j with k in HI by lia.
    destruct (Hok w HI) as (w1 & ->). eexists _, _. repeat split.
  - destruct (Hfail j w ltac:(lia) HI) as (e & w1 & -> & Hretry & HI').
    rewrite Hretry. cbn [negb orb].
    replace (attempt =? maxRetries)%Z with false
      by (symmetry; apply Z.eqb_neq; lia).
    destruct (IH (S j) (attempt + 1)%Z e w1 fuel) as (w' & evs & -> & Hp & Hs);
      [lia | lia | lia | exact HI' |].
    eexists _, _. split; [reflexivity|].
    unfold primaryCalls, sleeps in *. simpl. now rewrite Hp, Hs.
Qed.

(** Each call of an operation that records itself leaves one more entry
    in the record. *)
Lemma retryLoop_log (A : Type) (log : W -> list A) (c : A) :
  (forall w, log (snd (operation w)) = log w ++ [c]) ->
  forall fuel attempt last w x evs,
    loop fuel attempt last w = Some (x, evs) ->
    log (exitWorld x) = log w ++ repeat c (primaryCalls evs).
Proof.
  intros Hop.
  induction fuel as [|fuel IH]; intros attempt last w x evs; [discriminate|].
  cbn [loop retryLoop]. fold loop.
  destruct (attempt <=? maxRetries)%Z.
  - pose proof (Hop w) as Hstep.
    destruct (operation w) as [[v|err] w1]; simpl in Hstep.
    + intros H. injection H as <- <-. exact Hstep.
    + destruct (negb (isRetryable err) || (attempt =? maxRetries)%Z).
      * intros H. injection H as <- <-. exact Hstep.
      * destruct (loop fuel (attempt + 1)%Z err w1) as [[x' evs']|] eqn:Hrec;
          [|discriminate].
        intros H. injection H as <- <-.
        rewrite (IH _ _ _ _ _ Hrec), Hstep, <- app_assoc. reflexivity.
  - intros H. injection H as <- <-. simpl. now rewrite app_nil_r.
Qed.

(** How [withRetry] ends, from how its loop ends. *)
Lemma withRetry_cases w r w' evs :
  withRetry operation fallbackOperation maxRetries baseDelayMs w
    = Some (r, w', evs) ->
  exists x levs post,
    loop (retryFuel maxRetries) 0%Z Nullish w = Some (x, levs)
    /\ evs = levs ++ post
    /\ ((exists v, x = LoopReturn v w' /\ r = Returned v /\ post = [])
        \/ (exists last, x = LoopLeft last w' /\ fallbackOperation = None
              /\ r = Threw (surfaced last) /\ post = [])
        \/ (exists last w1 fallback v,
              x = LoopLeft last w1 /\ fallbackOperation = Some fallback
              /\ fallback w1 = (Returned v, w') /\ r = Returned v
              /\ post = [WarnFallback; CallFallback])
        \/ (exists last w1 fallback fallbackErr,
              x = LoopLeft last w1 /\ fallbackOperation = Some fallback
              /\ fallback w1 = (Threw fallbackErr, w')
              /\ r = Threw (surfaced last)
              /\ post = [WarnFallback; CallFallback;
                         ErrorFallbackFailed fallbackErr])).
Proof.
  unfold withRetry. fold loop.
  destruct (loop (retryFuel maxRetries) 0%Z Nullish w)
    as [[[v w1 | last w1] levs]|]; [| |discriminate].
  - intros H. injection H as <- <- <-. exists (LoopReturn v w1), levs, [].
    rewrite app_nil_r. split; [reflexivity|]. split; [reflexivity|].
    left. now exists v.
  - destruct fallbackOperation as [fallback|].
    + destruct (fallback w1) as [[v | fallbackErr] w2] eqn:Hfb;
        intros H; injection H as <- <- <-;
        eexists _, levs, _; (split; [reflexivity|]); (split; [reflexivity|]).
      * right; right; left. now exists last, w1, fallback, v.
      * right; right; right. now exists last, w1, fallback, fallbackErr.
    + intros H. injection H as <- <- <-. exists (LoopLeft last w1), levs, [].
      rewrite app_nil_r. split; [reflexivity|]. split; [reflexivity|].
      right; left. now exists last.
Qed.

(** A primary that answers at once is called once and nothing else
    happens. *)
Lemma withRetry_first_try w v w1 :
  (0 <= maxRetries)%Z ->
  operation w = (Returned v, w1) ->
  withRetry operation fallbackOperation maxRetries baseDelayMs w
  = Some (Returned v, w1, [CallPrimary 0]).
Proof.
  intros Hmax Hop. unfold withRetry, retryFuel. cbn [retryLoop].
  apply Z.leb_le in Hmax. now rewrite Hmax, Hop.
Qed.

(** Where a value returned by [withRetry] comes from. *)
Lemma withRetry_returned w w' v evs :
  withRetry operation fallbackOperation maxRetries baseDelayMs w
    = Some (Returned v, w', evs) ->
  (fallbackCalls evs = 0%nat /\ exists w0, operation w0 = (Returned v, w'))
  \/ (fallbackCalls evs = 1%nat
      /\ exists fallback w0,
           fallbackOperation = Some fallback
           /\ fallback w0 = (Returned v, w')).
Proof.
  intros H.
  destruct (withRetry_cases _ _ _ _ H) as (x & levs & post & Hloop & -> & Hcase).
  destruct (retryLoop_events _ _ _ _ _ _ (Z.le_refl 0) Hloop)
    as (_ & _ & Hnf & _).
  rewrite fallbackCalls_app, Hnf.
  destruct Hcase as [(v0 & -> & Hr & ->) | [(last & _ & _ & Hr & _)
    | [(last & w1 & fallback & v0 & _ & Hsome & Hrun & Hr & ->)
      | (last & w1 & fallback & fe & _ & _ & _ & Hr & _)]]];
    try discriminate Hr.
  - injection Hr as ->. left. split; [reflexivity|].
    exact (retryLoop_returned _ _ _ _ _ _ _ Hloop).
  - injection Hr as ->. right. split; [reflexivity|].
    now exists fallback, w1.
Qed.

(** Whatever relation the calls of the two operations keep, [withRetry]
    keeps. *)
Lemma withRetry_rel (R : W -> W -> Prop) w r w' evs :
  (forall w, R w w) ->
  (forall a b c, R a b -> R b c -> R a c) ->
  (forall w, R w (snd (operation w))) ->
  (forall fallback, fallbackOperation = Some fallback ->
                    forall w, R w (snd (fallback w))) ->
  withRetry operation fallbackOperation maxRetries baseDelayMs w
    = Some (r, w', evs) ->
  R w w'.
Proof.
  intros Hrefl Htrans Hop Hfb H.
  destruct (withRetry_cases _ _ _ _ H) as (x & levs & post & Hloop & _ & Hcase).
  pose proof (retryLoop_rel R Hrefl Htrans Hop _ _ _ _ _ _ Hloop) as Hw.
  destruct Hcase as [(v & -> & _) | [(last & -> & _)
    | [(last & w1 & fallback & v & -> & Hsome & Hrun & _)
      | (last & w1 & fallback & fe & -> & Hsome & Hrun & _)]]];
    simpl in Hw; try exact Hw.
  - apply (Htrans _ _ _ Hw). pose proof (Hfb _ Hsome w1) as H1.
    now rewrite Hrun in H1.
  - apply (Htrans _ _ _ Hw). pose proof (Hfb _ Hsome w1) as H1.
    now rewrite Hrun in H1.
Qed.

(** The record of two operations that record themselves, after
    [withRetry]. *)
Lemma withRetry_log (A : Type) (log : W -> list A) (c d : A) w r w' evs :
  (forall w, log (snd (operation w)) = log w ++ [c]) ->
  (forall fallback, fallbackOperation = Some fallback ->
                    forall w, log (snd (fallback w)) = log w ++ [d]) ->
  withRetry operation fallbackOperation maxRetries baseDelayMs w
    = Some (r, w', evs) ->
  log w' = log w ++ repeat c (primaryCalls evs) ++ repeat d (fallbackCalls evs)
  /\ (Z.of_nat (primaryCalls evs) <= Z.max 0 (maxRetries + 1))%Z
  /\ (fallbackCalls evs <= 1)%nat.
Proof.
  intros Hop Hfb H.
  destruct (withRetry_total W T operation fallbackOperation maxRetries
              baseDelayMs w) as (r0 & w0 & evs0 & H0 & Hf1 & _ & Hp1).
  rewrite H in H0. injection H0 as <- <- <-.
  split; [|split; assumption].
  destruct (withRetry_cases _ _ _ _ H) as (x & levs & post & Hloop & -> & Hcase).
  pose proof (retryLoop_log A log c Hop _ _ _ _ _ _ Hloop) as Hlog.
  destruct (retryLoop_events _ _ _ _ _ _ (Z.le_refl 0) Hloop)
    as (_ & _ & Hnf & _).
  rewrite primaryCalls_app, fallbackCalls_app, Hnf.
  destruct Hcase as [(v & -> & _ & ->) | [(last & -> & _ & _ & ->)
    | [(last & w1 & fallback & v & -> & Hsome & Hrun & _ & ->)
      | (last & w1 & fallback & fe & -> & Hsome & Hrun & _ & ->)]]];
    simpl in Hlog; cbn.
  - now rewrite Nat.add_0_r, app_nil_r.
  - now rewrite Nat.add_0_r, app_nil_r.
  - pose proof (Hfb _ Hsome w1) as H1. rewrite Hrun in H1. simpl in H1.
    now rewrite H1, Hlog, Nat.add_0_r, <- app_assoc.
  - pose proof (Hfb _ Hsome w1) as H1. rewrite Hrun in H1. simpl in H1.
    now rewrite H1, Hlog, Nat.add_0_r, <- app_assoc.
Qed.

End Loop.

(** X1.  When the primary is rejected [k] times with a retryable error and
    then answers, and [k] is within the retry budget, [withRetry] returns
    the primary's value after [k + 1] calls and [k] sleeps, and the
    fallback is never run. *)
Theorem withRetry_recovers W T (operation : Op W T)
  (fallbackOperation : option (Op W T)) (maxRetries baseDelayMs : Z)
  (Inv : nat -> W -> Prop) (k : nat) (v : T) (w : W) :
  (Z.of_nat k <= maxRetries)%Z ->
  (forall j w0, (j < k)%nat -> Inv j w0 ->
     exists e w1, operation w0 = (Threw e, w1) /\ isRetryable e = true
                  /\ Inv (S j) w1) ->
  (forall w0, Inv k w0 -> exists w1, operation w0 = (Returned v, w1)) ->
  Inv 0%nat w ->
  exists w' evs,
    withRetry operation fallbackOperation maxRetries baseDelayMs w
      = Some (Returned v, w', evs)
    /\ primaryCalls evs = S k /\ sleeps evs = k /\ fallbackCalls evs = 0%nat.
Proof.
  intros Hk Hfail Hok HI.
  destruct (retryLoop_recovers W T operation maxRetries baseDelayMs Inv k v
              Hfail Hok k 0%nat 0%Z Nullish w (retryFuel maxRetries))
    as (w' & evs & Hloop & Hp & Hs);
    [reflexivity | lia | unfold retryFuel; lia | exact HI |].
  exists w', evs. unfold withRetry. rewrite Hloop.
  split; [reflexivity|]. split; [exact Hp|]. split; [exact Hs|].
  destruct (retryLoop_events W T operation maxRetries baseDelayMs _ _ _ _ _ _
              (Z.le_refl 0) Hloop) as (_ & _ & Hf & _).
  exact Hf.
Qed.

Lemma withRetry_recovers_witness :
  exists w' evs,
    withRetry opFlaky (Some fbOk) 4 1800 0%nat = Some (Returned 7%nat, w', evs)
    /\ primaryCalls evs = 3%nat /\ sleeps evs = 2%nat
    /\ fallbackCalls evs = 0%nat.
Proof.
  apply (withRetry_recovers nat nat opFlaky (Some fbOk) 4 1800
           (fun j w => w = j) 2 7%nat 0%nat).
  - lia.
  - intros j w0 Hj ->. exists err503, (S j). unfold opFlaky.
    replace (j <? 2)%nat with true by (symmetry; apply Nat.ltb_lt; exact Hj).
    repeat split.
  - intros w0 ->. exists 3%nat. reflexivity.
  - reflexivity.
Defined.

(** X2.  The backoff of [withRetry]: every sleep comes after an attempt
    that is not the last one and lasts [baseDelayMs * 2^attempt] (plus
    the jitter); there are at most [maxRetries] sleeps and their bases add
    up to at most [baseDelayMs * (2^maxRetries - 1)], which is reached when
    every call of the primary is rejected with a retryable error. *)
Theorem withRetry_backoff W T (operation : Op W T)
  (fallbackOperation : option (Op W T)) (maxRetries baseDelayMs : Z)
  (w w' : W) (r : Outcome T) (evs : list RetryEvent) :
  (0 <= maxRetries)%Z -> (0 <= baseDelayMs)%Z ->
  withRetry operation fallbackOperation maxRetries baseDelayMs w
    = Some (r, w', evs) ->
  Forall (onSchedule 0 maxRetries baseDelayMs) evs
  /\ (Z.of_nat (sleeps evs) <= maxRetries)%Z
  /\ (0 <= backoffTotal evs <= baseDelayMs * (2 ^ maxRetries - 1))%Z
  /\ (alwaysRetryable operation ->
      backoffTotal evs = (baseDelayMs * (2 ^ maxRetries - 1))%Z).
Proof.
  intros Hmax Hbase H.
  destruct (withRetry_cases W T operation fallbackOperation maxRetries
              baseDelayMs _ _ _ _ H) as (x & levs & post & Hloop & -> & Hcase).
  destruct (retryLoop_events W T operation maxRetries baseDelayMs _ _ _ _ _ _
              (Z.le_refl 0) Hloop) as (Hsched & _ & _ & Hlast & _).
  destruct (Hlast Hmax) as (_ & _ & _ & Hcount).
  destruct (retryLoop_exits W T operation maxRetries baseDelayMs
              (retryFuel maxRetries) 0%Z Nullish w (retryFuel_enough maxRetries))
    as (x0 & levs0 & Hloop0 & Hp & _).
  rewrite Hloop in Hloop0. injection Hloop0 as <- <-.
  pose proof (retryLoop_backoff W T operation maxRetries baseDelayMs _ _ _ _ _ _
                (conj (Z.le_refl 0) Hmax) Hbase Hloop) as Hb.
  rewrite Z.pow_0_r in Hb.
  assert (Hpost : Forall (onSchedule 0 maxRetries baseDelayMs) post
                  /\ sleeps post = 0%nat /\ backoffTotal post = 0%Z).
  { destruct Hcase as [(? & _ & _ & ->) | [(? & _ & _ & _ & ->)
      | [(? & ? & ? & ? & _ & _ & _ & _ & ->)
        | (? & ? & ? & ? & _ & _ & _ & _ & ->)]]];
      repeat constructor. }
  destruct Hpost as (Hps & Hpz & Hpb).
  rewrite sleeps_app, backoffTotal_app, Hpz, Hpb, Z.add_0_r, Nat.add_0_r.
  split; [apply Forall_app; split; assumption|].
  split; [rewrite Z.sub_0_r in Hp; lia|]. split; [exact Hb|].
  intros Hall.
  rewrite (retryLoop_backoff_exhausted W T operation maxRetries baseDelayMs
             _ _ _ _ _ _ Hall (conj (Z.le_refl 0) Hmax) Hloop).
  now rewrite Z.pow_0_r.
Qed.

Lemma withRetry_backoff_witness :
  (0 <= 4)%Z /\ (0 <= 1800)%Z
  /\ exists r w' evs,
       withRetry opDown (Some fbOk) 4 1800 0%nat = Some (r, w', evs)
       /\ Forall (onSchedule 0 4 1800) evs
       /\ (Z.of_nat (sleeps evs) <= 4)%Z
       /\ backoffTotal evs = 27000%Z.
Proof.
  split; [lia|]. split; [lia|].
  eexists _, _, _. split; [reflexivity|].
  destruct (withRetry_backoff nat nat opDown (Some fbOk) 4 1800 0%nat _ _ _
              ltac:(lia) ltac:(lia) eq_refl) as (Hs & Hn & _ & Hall).
  split; [exact Hs|]. split; [exact Hn|].
  apply Hall. intros w. exists err503, (S w). split; reflexivity.
Defined.

(** X3.  With a non-negative [maxRetries], [withRetry] sleeps only
    between two calls of the primary: there is one sleep less than there
    are calls, one warning for each sleep, and nothing sleeps after the
    last call of the primary, before the fallback or the throw. *)
Theorem withRetry_sleeps_between_attempts W T (operation : Op W T)
  (fallbackOperation : option (Op W T)) (maxRetries baseDelayMs : Z)
  (w w' : W) (r : Outcome T) (evs : list RetryEvent) :
  (0 <= maxRetries)%Z ->
  withRetry operation fallbackOperation maxRetries baseDelayMs w
    = Some (r, w', evs) ->
  S (sleeps evs) = primaryCalls evs
  /\ retryWarnings evs = sleeps evs
  /\ exists pre attempt post,
       evs = pre ++ CallPrimary attempt :: post
       /\ sleeps post = 0%nat /\ primaryCalls post = 0%nat.
Proof.
  intros Hmax H.
  destruct (withRetry_cases W T operation fallbackOperation maxRetries
              baseDelayMs _ _ _ _ H) as (x & levs & post & Hloop & -> & Hcase).
  destruct (retryLoop_events W T operation maxRetries baseDelayMs _ _ _ _ _ _
              (Z.le_refl 0) Hloop) as (_ & Hw & _ & Hlast & _).
  destruct (Hlast Hmax) as (pre & a & Hpre & Hcount).
  assert (Hpost : sleeps post = 0%nat /\ primaryCalls post = 0%nat
                  /\ retryWarnings post = 0%nat).
  { destruct Hcase as [(? & _ & _ & ->) | [(? & _ & _ & _ & ->)
      | [(? & ? & ? & ? & _ & _ & _ & _ & ->)
        | (? & ? & ? & ? & _ & _ & _ & _ & ->)]]];
      repeat split. }
  destruct Hpost as (Hps & Hpp & Hpw).
  rewrite sleeps_app, primaryCalls_app, retryWarnings_app, Hps, Hpp, Hpw,
    !Nat.add_0_r.
  split; [exact Hcount|]. split; [exact Hw|].
  exists pre, a, post. rewrite Hpre, <- app_assoc. repeat split; assumption.
Qed.

Lemma withRetry_sleeps_between_attempts_witness :
  (0 <= 4)%Z
  /\ exists r w' evs,
       withRetry opFlaky None 4 1800 0%nat = Some (r, w', evs)
       /\ S (sleeps evs) = primaryCalls evs
       /\ retryWarnings evs = sleeps evs.
Proof.
  split; [lia|]. eexists _, _, _. split; [reflexivity|].
  destruct (withRetry_sleeps_between_attempts nat nat opFlaky None 4 1800
              0%nat _ _ _ ltac:(lia) eq_refl) as (H1 & H2 & _).
  split; [exact H1 | exact H2].
Defined.

(** X4.  With a negative [maxRetries] the primary is never called: the
    fallback, if there is one, is run at once on the untouched world, and
    when there is none or it throws, [withRetry] throws the generic error
    ["All retry attempts failed"]. *)
Theorem withRetry_negative_budget W T (operation : Op W T)
  (fallbackOperation : option (Op W T)) (maxRetries baseDelayMs : Z) (w : W) :
  (maxRetries < 0)%Z ->
  exists r w' evs,
    withRetry operation fallbackOperation maxRetries baseDelayMs w
      = Some (r, w', evs)
    /\ primaryCalls evs = 0%nat /\ sleeps evs = 0%nat
    /\ match fallbackOperation with
       | None =>
           r = Threw (newError (lit "All retry attempts failed")) /\ w' = w
       | Some fallback =>
           w' = snd (fallback w)
           /\ match fst (fallback w) with
              | Returned v => r = Returned v
              | Threw _ => r = Threw (newError (lit "All retry attempts failed"))
              end
       end.
Proof.
  intros Hneg. unfold withRetry, retryFuel. cbn [retryLoop].
  replace (0 <=? maxRetries)%Z with false by (symmetry; apply Z.leb_gt; lia).
  destruct fallbackOperation as [fallback|].
  - destruct (fallback w) as [[v | fallbackErr] w2];
      eexists _, _, _; (split; [reflexivity|]); repeat split.
  - eexists _, _, _. split; [reflexivity|]. repeat split.
Qed.

Lemma withRetry_negative_budget_witness :
  (-1 < 0)%Z
  /\ exists r w' evs,
       withRetry opFlaky None (-1) 1800 0%nat = Some (r, w', evs)
       /\ primaryCalls evs = 0%nat /\ sleeps evs = 0%nat
       /\ r = Threw (newError (lit "All retry attempts failed")) /\ w' = 0%nat.
Proof.
  split; [lia|].
  exact (withRetry_negative_budget nat nat opFlaky None (-1) 1800 0%nat
           ltac:(lia)).
Defined.

(** X5.  A value [withRetry] returns is one that the primary returned, the
    fallback not having run, or one that the fallback returned, once, after
    the loop; the world returned is the one that call left. *)
Theorem withRetry_value_provenance W T (operation : Op W T)
  (fallbackOperation : option (Op W T)) (maxRetries baseDelayMs : Z)
  (w w' : W) (v : T) (evs : list RetryEvent) :
  withRetry operation fallbackOperation maxRetries baseDelayMs w
    = Some (Returned v, w', evs) ->
  (fallbackCalls evs = 0%nat /\ exists w0, operation w0 = (Returned v, w'))
  \/ (fallbackCalls evs = 1%nat
      /\ exists fallback w0,
           fallbackOperation = Some fallback
           /\ fallback w0 = (Returned v, w')).
Proof.
  intros H.
  destruct (withRetry_cases W T operation fallbackOperation maxRetries
              baseDelayMs _ _ _ _ H) as (x & levs & post & Hloop & -> & Hcase).
  destruct (retryLoop_events W T operation maxRetries baseDelayMs _ _ _ _ _ _
              (Z.le_refl 0) Hloop) as (_ & _ & Hnf & _).
  rewrite fallbackCalls_app, Hnf.
  destruct Hcase as [(v0 & -> & Hr & ->) | [(last & _ & _ & Hr & _)
    | [(last & w1 & fallback & v0 & _ & Hsome & Hrun & Hr & ->)
      | (last & w1 & fallback & fe & _ & _ & _ & Hr & _)]]];
    try discriminate Hr.
  - injection Hr as ->. left. split; [reflexivity|].
    exact (retryLoop_returned W T operation maxRetries baseDelayMs _ _ _ _ _ _ _
             Hloop).
  - injection Hr as ->. right. split; [reflexivity|].
    now exists fallback, w1.
Qed.

Lemma withRetry_value_provenance_witness :
  (fallbackCalls [CallPrimary 0; WarnFallback; CallFallback] = 0%nat
   /\ exists w0, opBad w0 = (Returned 7%nat, 2%nat))
  \/ (fallbackCalls [CallPrimary 0; WarnFallback; CallFallback] = 1%nat
      /\ exists fallback w0,
           Some fbOk = Some fallback /\ fallback w0 = (Returned 7%nat, 2%nat)).
Proof.
  exact (withRetry_value_provenance nat nat opBad (Some fbOk) 4 1800 0%nat
           2%nat 7%nat [CallPrimary 0; WarnFallback; CallFallback] eq_refl).
Defined.
End RetryMore.

(** ** More on the context formatter *)
Module FormattingMore.

Import Gemini Spec Sample.

Lemma join_contains (sep : JsString) (parts : list JsString) (p : JsString) :
  In p parts -> containsMarker (join sep parts) p.
Proof.
  unfold containsMarker. induction parts as [|q parts IH]; [intros []|].
  intros [-> | Hin].
  - destruct parts as [|q' parts].
    + exists [], []. simpl. now rewrite app_nil_r.
    + exists [], (sep ++ join sep (q' :: parts)). reflexivity.
  - destruct (IH Hin) as (a & b & Hab). destruct parts as [|q' parts];
      [destruct Hin|].
    exists (q ++ sep ++ a), b. cbn [join] in *. rewrite Hab.
    now rewrite <- !app_assoc.
Qed.

Lemma length_trimStart (s : JsString) :
  (List.length (trimStart s) <= List.length s)%nat.
Proof.
  induction s as [|c s IH]; simpl; [lia|].
  destruct (isWhiteSpace c); simpl; lia.
Qed.

Lemma length_trim (s : JsString) :
  (List.length (trim s) <= List.length s)%nat.
Proof.
  unfold trim, trimEnd. rewrite length_rev.
  etransitivity; [apply length_trimStart|]. rewrite length_rev.
  apply length_trimStart.
Qed.

Lemma length_lit_const :
  List.length (lit "--- FILE: ") = 10%nat /\ List.length (lit " (") = 2%nat
  /\ List.length (lit " chars) ---") = 11%nat
  /\ List.length (lit "--- END ---") = 11%nat.
Proof. repeat split. Qed.

(** X8.  The context of a list of files is empty only for the empty
    list; for any other list it is the opening tag line, a body and the
    closing tag line, and the block of every file of the list occurs in
    it: no file is left out. *)
Theorem formatCaseFiles_wraps_every_file (files : list CaseFile) :
  (formatCaseFiles files = [] <-> files = [])
  /\ (files <> [] ->
      truthy (formatCaseFiles files) = true
      /\ exists body,
           formatCaseFiles files
           = (nl ++ nl ++ lit "<CASE_FILES>" ++ nl) ++ body
               ++ (nl ++ lit "</CASE_FILES>" ++ nl)
           /\ forall f, In f files -> containsMarker body (formatCaseFile f)).
Proof.
  split.
  - destruct files as [|f0 files]; split; intros H; try reflexivity;
      discriminate H.
  - intros Hne. destruct files as [|f0 files]; [congruence|].
    split; [reflexivity|].
    exists (join (nl ++ nl) (map formatCaseFile (f0 :: files))).
    split; [unfold formatCaseFiles; now rewrite <- !app_assoc|].
    intros f Hin. apply join_contains. now apply in_map.
Qed.

Lemma formatCaseFiles_wraps_every_file_witness :
  [smallFile; bigFile] <> []
  /\ truthy (formatCaseFiles [smallFile; bigFile]) = true
  /\ exists body,
       formatCaseFiles [smallFile; bigFile]
       = (nl ++ nl ++ lit "<CASE_FILES>" ++ nl) ++ body
           ++ (nl ++ lit "</CASE_FILES>" ++ nl)
       /\ containsMarker body (formatCaseFile bigFile).
Proof.
  assert (Hne : [smallFile; bigFile] <> []) by discriminate.
  split; [exact Hne|].
  destruct (formatCaseFiles_wraps_every_file [smallFile; bigFile]) as [_ Hwrap].
  destruct (Hwrap Hne) as (Ht & body & Heq & Hall).
  split; [exact Ht|]. exists body. split; [exact Heq|].
  apply Hall. right. now left.
Defined.

(** X9.  The block of a file is 36 code units, the name, the digits of
    the length and at most 14,000 code units of content long, however
    long the content is.  The length printed is that of the content
    before trimming, so it is never less than what the block includes;
    and a content whose trimmed form has at most 14,000 code units is
    included whole in that form. *)
Theorem formatCaseFile_size (f : CaseFile) :
  let included := slice0 MAX_CONTENT (trim (content f)) in
  List.length (formatCaseFile f)
  = (36 + List.length (name f)
     + List.length (ofNat (List.length (content f)))
     + Nat.min (N.to_nat 14000) (List.length (trim (content f))))%nat
  /\ (List.length included <= List.length (content f))%nat
  /\ ((List.length (trim (content f)) <= N.to_nat 14000)%nat ->
      formatCaseFile f
      = lit "--- FILE: " ++ name f ++ lit " ("
          ++ ofNat (List.length (content f)) ++ lit " chars) ---" ++ nl
          ++ trim (content f) ++ nl ++ lit "--- END ---").
Proof.
  intros included. destruct length_lit_const as (H1 & H2 & H3 & H4).
  split; [|split].
  - unfold formatCaseFile. rewrite !length_app, JsFacts.length_slice0, H1, H2, H3, H4.
    unfold MAX_CONTENT, nl. simpl List.length. lia.
  - unfold included. rewrite JsFacts.length_slice0.
    pose proof (length_trim (content f)). lia.
  - intros Hshort. unfold formatCaseFile, slice0, MAX_CONTENT.
    now rewrite firstn_all2 by exact Hshort.
Qed.

Lemma formatCaseFile_size_witness :
  (List.length (trim (content smallFile)) <= N.to_nat 14000)%nat
  /\ formatCaseFile smallFile
     = lit "--- FILE: " ++ name smallFile ++ lit " ("
         ++ ofNat (List.length (content smallFile)) ++ lit " chars) ---" ++ nl
         ++ trim (content smallFile) ++ nl ++ lit "--- END ---"
  /\ formatCaseFile smallFile
     = lit "--- FILE: order.txt (14 chars) ---" ++ nl ++ lit "So ordered."
         ++ nl ++ lit "--- END ---".
Proof.
  assert (H : (List.length (trim (content smallFile)) <= N.to_nat 14000)%nat).
  { apply Nat.leb_le. vm_compute. reflexivity. }
  split; [exact H|].
  destruct (formatCaseFile_size smallFile) as (_ & _ & Hwhole).
  split; [exact (Hwhole H) | vm_compute; reflexivity].
Defined.

End FormattingMore.

(** ** More on the citations and on the research report *)
Module ResearchMore.

Import Gemini Spec Sample.

Lemma toSource_uri (c : GroundingChunk) :
  hasUri c = true -> srcUri (toSource c) <> [].
Proof.
  unfold hasUri, toSource. destruct (web c) as [wb|]; [|discriminate].
  destruct (uri wb) as [u|]; [|discriminate]. destruct u; [discriminate|].
  intros _. discriminate.
Qed.

Section LastWrite.

Variable V : Type.

Let step := fun (m : list (JsString * V)) kv => mapSet (fst kv) (snd kv) m.

Lemma mapSet_entries k0 (v0 : V) m k v :
  NoDup (map fst m) ->
  In (k, v) (mapSet k0 v0 m) ->
  (k, v) = (k0, v0) \/ (In (k, v) m /\ k <> k0).
Proof.
  induction m as [|[k' v'] m IH]; simpl; intros Hnd Hin.
  - destruct Hin as [H | []]. now left.
  - inversion Hnd as [|? ? Hfresh Hnd']; subst.
    destruct (Js.eqb k' k0) eqn:E.
    + apply JsFacts.eqb_eq in E. subst k'. destruct Hin as [H | H].
      * now left.
      * right. split; [now right|]. intros ->. apply Hfresh.
        change k0 with (fst (k0, v)). now apply in_map.
    + apply JsFacts.eqb_neq in E. destruct Hin as [H | H].
      * injection H as <- <-. right. split; [now left | exact E].
      * destruct (IH Hnd' H) as [H1 | [H1 H2]]; [now left|].
        right. split; [now right | exact H2].
Qed.

Lemma mapSet_NoDup k0 (v0 : V) m :
  NoDup (map fst m) -> NoDup (map fst (mapSet k0 v0 m)).
Proof.
  intros Hnd. rewrite Research.mapSet_keys.
  destruct (existsb (Js.eqb k0) (map fst m)) eqn:E; [exact Hnd|].
  apply Research.existsb_eqb_not_In in E.
  apply NoDup_app; [exact Hnd | repeat constructor; intros [] |].
  intros x Hx [<- | []]. exact (E Hx).
Qed.

(** Every entry of a map built from entries is the last entry given for
    its key. *)
Lemma fold_mapSet_last entries : forall m k v,
  NoDup (map fst m) ->
  In (k, v) (fold_left step entries m) ->
  (In (k, v) m /\ ~ In k (map fst entries))
  \/ exists pre post,
       entries = pre ++ (k, v) :: post /\ ~ In k (map fst post).
Proof.
  induction entries as [|[k0 v0] entries IH]; intros m k v Hnd Hin; simpl in *.
  - left. tauto.
  - change (step m (k0, v0)) with (mapSet k0 v0 m) in Hin.
    destruct (IH _ _ _ (mapSet_NoDup k0 v0 m Hnd) Hin)
      as [[Hm Hfresh] | (pre & post & -> & Hfresh)].
    + destruct (mapSet_entries _ _ _ _ _ Hnd Hm) as [H | [H Hne]].
      * injection H as -> ->. right. now exists [], entries.
      * left. split; [exact H|]. intros [-> | H']; [now apply Hne | tauto].
    + right. now exists ((k0, v0) :: pre), post.
Qed.

End LastWrite.

(** X11.  When several extracted sources share a URI, the merged list
    keeps the one that comes last in the concatenation (the statutes
    role's over the case-law role's): every merged entry is a source after
    which no source with the same URI follows. *)
Theorem uniqueSources_last_write_wins
  (caseRes statuteRes : GenerateContentResponse) (s : Source) :
  In s (uniqueSources caseRes statuteRes) ->
  exists pre post,
    extractSources caseRes ++ extractSources statuteRes = pre ++ s :: post
    /\ forall s', In s' post -> srcUri s' <> srcUri s.
Proof.
  unfold uniqueSources, mapValues, newMap. intros Hin.
  apply in_map_iff in Hin. destruct Hin as ([k v] & Hv & Hin). simpl in Hv.
  subst v.
  apply fold_mapSet_last in Hin; [|constructor].
  destruct Hin as [[[] _] | (pre & post & Heq & Hfresh)].
  apply map_eq_app in Heq. destruct Heq as (pre' & rest & Hall & Hpre & Hrest).
  apply map_eq_cons in Hrest.
  destruct Hrest as (s0 & post' & -> & Hs0 & Hpost).
  injection Hs0 as Hk <-. exists pre', post'. split; [exact Hall|].
  intros s' Hs' Heq. apply Hfresh. rewrite <- Hpost, map_map. simpl.
  rewrite <- Hk, <- Heq. now apply in_map.
Qed.

Lemma uniqueSources_last_write_wins_witness :
  In {| srcTitle := lit "Y"; srcUri := lit "u1" |} (uniqueSources roleA roleB)
  /\ exists pre post,
       extractSources roleA ++ extractSources roleB
       = pre ++ {| srcTitle := lit "Y"; srcUri := lit "u1" |} :: post
       /\ forall s', In s' post -> srcUri s' <> lit "u1".
Proof.
  assert (H : In {| srcTitle := lit "Y"; srcUri := lit "u1" |}
                (uniqueSources roleA roleB)) by (now left).
  split; [exact H|].
  exact (uniqueSources_last_write_wins roleA roleB _ H).
Defined.


Lemma join_ends_with_last (sep p : JsString) (parts : list JsString) :
  exists body, join sep (parts ++ [p]) = body ++ p.
Proof.
  induction parts as [|q parts [body IH]].
  - now exists [].
  - destruct parts as [|q' parts].
    + exists (q ++ sep). cbn. now rewrite <- app_assoc.
    + exists (q ++ sep ++ body). cbn [app join] in *. rewrite IH.
      now rewrite <- !app_assoc.
Qed.

(** X12.  [researchLegalPrecedent] throws nothing but its own fixed
    error.  When it returns, the report and the sources are built from
    two responses of the backend, one to the case-law request or to its
    fallback request and one to the statutes request, and the report ends
    with the count of the sources returned. *)
Theorem research_result S U (svc : GeminiService S U) (sched : nat -> bool)
  (query : JsString) (w w' : World S U) (r : Outcome Research)
  (evs : list RetryEvent * list RetryEvent) :
  researchLegalPrecedent svc sched query w = Some (r, w', evs) ->
  match r with
  | Threw e => e = researchFailed
  | Returned res =>
      exists caseRes statuteRes,
        report res = combinedText caseRes statuteRes
        /\ sources res = uniqueSources caseRes statuteRes
        /\ (exists s, fst (ai svc (caseCall query) s) = Returned caseRes
                      \/ fst (ai svc (caseFallbackCall query) s)
                         = Returned caseRes)
        /\ (exists s, fst (ai svc (statuteCall query) s) = Returned statuteRes)
        /\ exists body,
             report res
             = body ++ lit "**Sources (" ++ ofNat (List.length (sources res))
                 ++ lit ")**: see below"
  end.
Proof.
  rewrite RaceFacts.research_race.
  destruct (race svc query researchFuel sched 0 (started svc query w))
    as [s|] eqn:Hrace; [|discriminate].
  destruct (RaceFacts.research_provenance S U svc query sched w s Hrace)
    as [Hcase Hstat].
  intros H. injection H as <- _ _. unfold gathered.
  destruct (caseChain s) as [| | | [caseRes|]]; try reflexivity.
  destruct (statuteChain s) as [| | | [statuteRes|]]; try reflexivity.
  exists caseRes, statuteRes. cbn [report sources].
  split; [reflexivity|]. split; [reflexivity|].
  split; [exact (Hcase _ eq_refl)|]. split; [exact (Hstat _ eq_refl)|].
  unfold combinedText.
  exact (join_ends_with_last nl
           (lit "**Sources ("
              ++ ofNat (List.length (uniqueSources caseRes statuteRes))
              ++ lit ")**: see below")
           [ lit "# Indiana Civil Legal Research Report (Grounded with Google Search)";
             [];
             lit "## Civil Case Law Analysis";
             trimmedOr (text caseRes) (lit "(no case law summary returned)");
             [];
             lit "## Relevant Statutes & Trial Rules";
             trimmedOr (text statuteRes) (lit "(no statutes returned)");
             [] ]).
Qed.

Lemma research_result_witness :
  exists res w' evs,
    researchLegalPrecedent (answering roleA) inTurns (lit "custody") world0
      = Some (Returned res, w', evs)
    /\ exists caseRes statuteRes,
         report res = combinedText caseRes statuteRes
         /\ sources res = uniqueSources caseRes statuteRes
         /\ (exists s,
               fst (ai (answering roleA) (caseCall (lit "custody")) s)
                 = Returned caseRes
               \/ fst (ai (answering roleA) (caseFallbackCall (lit "custody")) s)
                  = Returned caseRes)
         /\ (exists s,
               fst (ai (answering roleA) (statuteCall (lit "custody")) s)
                 = Returned statuteRes)
         /\ exists body,
              report res
              = body ++ lit "**Sources (" ++ ofNat (List.length (sources res))
                  ++ lit ")**: see below".
Proof.
  eexists _, _, _. split; [reflexivity|].
  exact (research_result unit Z (answering roleA) inTurns (lit "custody") world0
           _ _ _ eq_refl).
Defined.

(** X13.  In whatever order the responses and timers of its two calls
    come in, [researchLegalPrecedent] first sends the case-law request and
    then the statutes request, before any response is in; all it sends are
    at most five case-law requests on the reasoning model, at most one
    case-law fallback request on the fast model and at most five statutes
    requests on the fast model, one for each attempt and fallback run.
    When the backend answers the first case-law request and the first
    statutes request, these two requests are all it sends, nothing is
    retried, and the report and the sources are those of the two
    answers. *)
Theorem research_requests S U (svc : GeminiService S U) (sched : nat -> bool)
  (query : JsString) (w : World S U) :
  (forall r w' caseEvents statuteEvents,
     researchLegalPrecedent svc sched query w
       = Some (r, w', (caseEvents, statuteEvents)) ->
     (exists later,
        apiLog w' = apiLog w ++ caseCall query :: statuteCall query :: later
        /\ Permutation (caseCall query :: statuteCall query :: later)
             (repeat (caseCall query) (primaryCalls caseEvents)
              ++ repeat (caseFallbackCall query) (fallbackCalls caseEvents)
              ++ repeat (statuteCall query) (primaryCalls statuteEvents)))
     /\ (primaryCalls caseEvents <= 5)%nat
     /\ (fallbackCalls caseEvents <= 1)%nat
     /\ (primaryCalls statuteEvents <= 5)%nat)
  /\ (forall caseRes statuteRes s1 s2,
        ai svc (caseCall query) (backend w) = (Returned caseRes, s1) ->
        ai svc (statuteCall query) s1 = (Returned statuteRes, s2) ->
        exists w',
          researchLegalPrecedent svc sched query w
            = Some (Returned {| report := combinedText caseRes statuteRes;
                                sources := uniqueSources caseRes statuteRes |},
                    w', ([CallPrimary 0], [CallPrimary 0]))
          /\ backend w' = s2
          /\ apiLog w' = apiLog w ++ [caseCall query; statuteCall query]).
Proof.
  split.
  - intros r w' caseEvents statuteEvents. rewrite RaceFacts.research_race.
    destruct (race svc query researchFuel sched 0 (started svc query w))
      as [s|] eqn:Hrace; [|discriminate].
    destruct (RaceFacts.research_counts S U svc query sched w s Hrace)
      as (Hp1 & Hf1 & Hp2 & _ & Hsent).
    intros H. injection H as _ <- <- <-.
    exact (conj Hsent (conj Hp1 (conj Hf1 Hp2))).
  - intros caseRes statuteRes s1 s2 Hcase Hstat.
    destruct (RaceFacts.research_first_answers S U svc query sched w
                caseRes statuteRes s1 s2 Hcase Hstat)
      as (s & Hrace & Hc1 & Hc2 & Hl1 & Hl2 & Hb & Hlog).
    exists (raceWorld s). rewrite RaceFacts.research_race, Hrace.
    unfold gathered. rewrite Hc1, Hc2, Hl1, Hl2.
    split; [reflexivity|]. split; assumption.
Qed.

Lemma research_requests_witness :
  ai (answering roleA) (caseCall (lit "custody")) (backend world0)
    = (Returned roleA, tt)
  /\ ai (answering roleA) (statuteCall (lit "custody")) tt = (Returned roleA, tt)
  /\ exists w',
       researchLegalPrecedent (answering roleA) statutesFirst (lit "custody")
         world0
         = Some (Returned {| report := combinedText roleA roleA;
                             sources := uniqueSources roleA roleA |},
                 w', ([CallPrimary 0], [CallPrimary 0]))
       /\ backend w' = tt
       /\ apiLog w' = apiLog world0
                        ++ [caseCall (lit "custody"); statuteCall (lit "custody")].
Proof.
  split; [reflexivity|]. split; [reflexivity|].
  destruct (research_requests unit Z (answering roleA) statutesFirst
              (lit "custody") world0) as [_ Hhappy].
  exact (Hhappy roleA roleA tt tt eq_refl eq_refl).
Defined.

Lemma sources_of_chunks (chunks : list GroundingChunk) :
  map toSource (filter hasUri chunks) = flat_map sourceOf chunks.
Proof.
  induction chunks as [|c chunks IH]; [reflexivity|].
  assert (Hc : (if hasUri c then [toSource c] else []) = sourceOf c).
  { unfold hasUri, sourceOf, toSource. destruct (web c) as [wb|]; [|reflexivity].
    destruct (uri wb) as [[|k u]|]; try reflexivity.
    all: cbn [truthy nullish]; now destruct (title wb). }
  cbn [filter flat_map]. rewrite <- IH, <- Hc.
  now destruct (hasUri c).
Qed.

(** X10.  [extractSources] reads the grounding chunks of the first
    candidate and of no other: its result is, chunk by chunk and in order,
    one source for each chunk that has a web part with a URI that is not
    empty, under the chunk's title or ["Untitled source"] when it has
    none, and nothing for the other chunks.  Without candidates, with an
    empty list of them, or when the first has no grounding metadata or no
    chunks, there are no sources.  No source has an empty URI. *)
Theorem extractSources_first_candidate (res : GenerateContentResponse) :
  (forall first rest g chunks,
     candidates res = Some (first :: rest) ->
     groundingMetadata first = Some g ->
     groundingChunks g = Some chunks ->
     extractSources res = flat_map sourceOf chunks)
  /\ (candidates res = None \/ candidates res = Some []
      \/ (exists first rest,
            candidates res = Some (first :: rest)
            /\ (groundingMetadata first = None
                \/ exists g, groundingMetadata first = Some g
                             /\ groundingChunks g = None)) ->
      extractSources res = [])
  /\ Forall (fun s => srcUri s <> []) (extractSources res).
Proof.
  split; [|split].
  - intros first rest g chunks Hc Hg Hk.
    unfold extractSources, chunksOf. rewrite Hc, Hg, Hk.
    apply sources_of_chunks.
  - unfold extractSources, chunksOf.
    intros [-> | [-> | (first & rest & -> & [-> | (g & -> & ->)])]];
      reflexivity.
  - unfold extractSources. apply Forall_forall. intros s Hs.
    apply in_map_iff in Hs. destruct Hs as (c & <- & Hc).
    apply filter_In in Hc. apply toSource_uri. tauto.
Qed.

Lemma extractSources_first_candidate_witness :
  extractSources twoCandidates
  = [ {| srcTitle := lit "T"; srcUri := lit "u1" |};
      {| srcTitle := lit "Untitled source"; srcUri := lit "u2" |} ].
Proof.
  rewrite (proj1 (extractSources_first_candidate twoCandidates) _ _ _ _
             eq_refl eq_refl eq_refl).
  reflexivity.
Defined.

End ResearchMore.

(** ** More on drafting and on the chat *)
Module DraftChatMore.

Import Gemini Spec Sample.

(** X14.  The prompt of [draftMotion] is the request line with the
    topic, then the instructions section if instructions are given, then
    the case-context section if there are files, each after an empty
    line; with neither, it is the request line alone, with no separator
    left over. *)
Theorem draftPrompt_sections (topic : JsString) (files : list CaseFile)
  (userInstructions : JsString) :
  draftPrompt topic files userInstructions
  = (lit "Draft a professional Indiana civil law motion regarding: " ++ topic)
      ++ (if truthy userInstructions
          then nl ++ nl ++ lit "Additional user instructions:" ++ nl
                 ++ userInstructions
          else [])
      ++ match files with
         | [] => []
         | _ :: _ => nl ++ nl ++ lit "CASE CONTEXT:" ++ nl ++ formatCaseFiles files
         end.
Proof.
  unfold draftPrompt.
  assert (Hline : truthy (lit "Draft a professional Indiana civil law motion regarding: "
                            ++ topic) = true) by reflexivity.
  assert (Hui : truthy (lit "Additional user instructions:" ++ nl ++ userInstructions)
                = true) by reflexivity.
  assert (Hctx : forall c, truthy (lit "CASE CONTEXT:" ++ nl ++ c) = true)
    by reflexivity.
  destruct files as [|f files].
  - change (formatCaseFiles []) with (@nil N). cbn [truthy].
    destruct (truthy userInstructions); cbn [filter]; rewrite Hline, ?Hui;
      cbn [truthy join]; now rewrite ?app_nil_r, <- ?app_assoc.
  - assert (Hfmt : truthy (formatCaseFiles (f :: files)) = true) by reflexivity.
    rewrite Hfmt.
    destruct (truthy userInstructions); cbn [filter]; rewrite Hline, ?Hui, Hctx;
      cbn [truthy join]; now rewrite <- ?app_assoc.
Qed.

Section Effects.

Variables S U : Type.
Variable svc : GeminiService S U.

Lemma unheard_refl (w : World S U) : unheard w w.
Proof. now split. Qed.

Lemma unheard_trans (a b c : World S U) :
  unheard a b -> unheard b c -> unheard a c.
Proof. intros [H1 H2] [H3 H4]. split; congruence. Qed.

Lemma callApi_unheard c (w : World S U) : unheard w (snd (callApi svc c w)).
Proof. unfold callApi. destruct (ai svc c (backend w)). now split. Qed.

Lemma callApi_log c (w : World S U) :
  apiLog (snd (callApi svc c w)) = apiLog w ++ [c].
Proof. unfold callApi. now destruct (ai svc c (backend w)). Qed.

Lemma trackUsage_log r (w : World S U) :
  apiLog (trackUsage svc r w) = apiLog w.
Proof.
  unfold trackUsage. destruct (tokenListener svc); [|reflexivity].
  now destruct (usageTotal r >? 0)%Z.
Qed.

Lemma trackUsage_heard r (w : World S U) :
  unheard w (trackUsage svc r w)
  \/ ((0 < usageTotal r)%Z
      /\ listenerLog (trackUsage svc r w) = listenerLog w ++ [usageTotal r]).
Proof.
  unfold trackUsage. destruct (tokenListener svc); [|left; now split].
  destruct (usageTotal r >? 0)%Z eqn:E; [|left; now split].
  apply Z.gtb_lt in E. right. now split.
Qed.

Lemma runChat_log message files history model (w : World S U) :
  apiLog (snd (runChat svc message files history model w))
  = apiLog w ++ [chatCall message files history model].
Proof.
  unfold runChat.
  pose proof (callApi_log (chatCall message files history model) w) as Hc.
  unfold chatCall in *.
  destruct (callApi svc _ w) as [[r | e] w1]; cbn in *; [|exact Hc].
  now rewrite trackUsage_log.
Qed.

Lemma runChat_returned message files history model (w0 w1 : World S U) s :
  runChat svc message files history model w0 = (Returned s, w1) ->
  exists res,
    fst (ai svc (chatCall message files history model) (backend w0))
      = Returned res
    /\ s = chatReply res.
Proof.
  unfold runChat, callApi, chatCall.
  destruct (ai svc _ (backend w0)) as [[r | e] s']; intros H;
    [|discriminate].
  injection H as <- _. now exists r.
Qed.

End Effects.

(** X15.  [draftMotion] sends the same prompt in every request: at most
    five on the reasoning model, then at most one on the fast model.  It
    reports usage only when it succeeds, and then once, for the response
    it returns from: when it throws, the listener has not been called. *)
Theorem draftMotion_effects S U (svc : GeminiService S U) (topic : JsString)
  (files : list CaseFile) (userInstructions : JsString) (w w' : World S U)
  (r : Outcome JsString) (evs : list RetryEvent) :
  draftMotion svc topic files userInstructions w = Some (r, w', evs) ->
  let prompt := draftPrompt topic files userInstructions in
  apiLog w'
  = apiLog w ++ repeat (draftCall prompt reasoning) (primaryCalls evs)
      ++ repeat (draftCall prompt fast) (fallbackCalls evs)
  /\ (primaryCalls evs <= 5)%nat /\ (fallbackCalls evs <= 1)%nat
  /\ match r with
     | Threw _ => unheard w w'
     | Returned s =>
         exists response,
           s = trimmedOr (text response) draftFailed
           /\ (unheard w w'
               \/ ((0 < usageTotal response)%Z
                   /\ listenerLog w' = listenerLog w ++ [usageTotal response]))
     end.
Proof.
  intros H prompt. unfold draftMotion in H. fold prompt in H.
  destruct (withRetry _ _ _ _ w) as [[[r0 w1] evs0]|] eqn:Hrun; [|discriminate].
  assert (Hquiet : unheard w w1).
  { apply (RetryMore.withRetry_rel _ _ _ _ _ _ (@unheard S U) _ _ _ _
             (@unheard_refl S U) (@unheard_trans S U)) in Hrun.
    - exact Hrun.
    - intros w0. apply callApi_unheard.
    - intros fallback Hfb w0. injection Hfb as <-. apply callApi_unheard. }
  apply (RetryMore.withRetry_log _ _ _ _ _ _ _ (@apiLog S U)
           (draftCall prompt reasoning) (draftCall prompt fast)) in Hrun;
    [| intros w0; apply callApi_log
     | intros fallback Hfb w0; injection Hfb as <-; apply callApi_log].
  destruct Hrun as (Hlog & Hp & Hf).
  destruct r0 as [response | e]; injection H as <- <- <-.
  - rewrite trackUsage_log. split; [exact Hlog|]. split; [lia|].
    split; [exact Hf|]. exists response. split; [reflexivity|].
    destruct Hquiet as [Hl Ho].
    destruct (trackUsage_heard S U svc response w1) as [[H1 H2] | [H1 H2]].
    + left. split; congruence.
    + right. split; [exact H1 | congruence].
  - split; [exact Hlog|]. split; [lia|]. split; [exact Hf | exact Hquiet].
Qed.

Lemma draftMotion_effects_witness :
  exists s w' evs,
    draftMotion (answering twelveTokens) (lit "custody") [] [] world0
      = Some (Returned s, w', evs)
    /\ apiLog w'
       = apiLog world0
           ++ repeat (draftCall (draftPrompt (lit "custody") [] []) reasoning)
                (primaryCalls evs)
           ++ repeat (draftCall (draftPrompt (lit "custody") [] []) fast)
                (fallbackCalls evs)
    /\ (primaryCalls evs <= 5)%nat /\ (fallbackCalls evs <= 1)%nat
    /\ exists response,
         s = trimmedOr (text response) draftFailed
         /\ (unheard world0 w'
             \/ ((0 < usageTotal response)%Z
                 /\ listenerLog w' = listenerLog world0 ++ [usageTotal response])).
Proof.
  eexists _, _, _. split; [reflexivity|].
  exact (draftMotion_effects unit Z (answering twelveTokens) (lit "custody")
           [] [] world0 _ _ _ eq_refl).
Defined.


Lemma chatWithExpert_log S U (svc : GeminiService S U) message files history
  (w w' : World S U) r evs :
  chatWithExpert svc message files history w = Some (r, w', evs) ->
  apiLog w'
  = apiLog w ++ repeat (chatCall message files history reasoning) (primaryCalls evs)
      ++ repeat (chatCall message files history fast) (fallbackCalls evs)
  /\ (primaryCalls evs <= 5)%nat /\ (fallbackCalls evs <= 1)%nat.
Proof.
  unfold chatWithExpert. intros Hrun.
  apply (RetryMore.withRetry_log _ _ _ _ _ _ _ (@apiLog S U)
           (chatCall message files history reasoning)
           (chatCall message files history fast)) in Hrun;
    [| intros w0; apply runChat_log
     | intros fallback Hfb w0; injection Hfb as <-; apply runChat_log].
  destruct Hrun as (Hlog & Hp & Hf). split; [exact Hlog|]. split; [lia | exact Hf].
Qed.

(** X16.  Every request of [chatWithExpert] carries the history it was
    given, unchanged, and the same message, which is the user's message
    itself when there are no files and otherwise ends with ["USER: "] and
    that message after the case data; at most five requests go to the
    reasoning model and then at most one to the fast model.  A reply it
    returns is the trimmed text of a response of the backend, or ["No
    response received."] when that response has no text. *)
Theorem chatWithExpert_effects S U (svc : GeminiService S U)
  (message : JsString) (files : list CaseFile) (history : list HistoryTurn)
  (w w' : World S U) (r : Outcome JsString) (evs : list RetryEvent) :
  chatWithExpert svc message files history w = Some (r, w', evs) ->
  apiLog w'
  = apiLog w ++ repeat (chatCall message files history reasoning) (primaryCalls evs)
      ++ repeat (chatCall message files history fast) (fallbackCalls evs)
  /\ (primaryCalls evs <= 5)%nat /\ (fallbackCalls evs <= 1)%nat
  /\ fullMessage message [] = message
  /\ (files <> [] ->
      exists caseData, fullMessage message files = caseData ++ lit "USER: " ++ message)
  /\ (forall s, r = Returned s ->
        exists model state res,
          fst (ai svc (chatCall message files history model) state) = Returned res
          /\ s = chatReply res).
Proof.
  intros Hrun.
  destruct (chatWithExpert_log _ _ _ _ _ _ _ _ _ _ Hrun) as (Hlog & Hp & Hf).
  split; [exact Hlog|]. split; [exact Hp|]. split; [exact Hf|].
  split; [reflexivity|]. split.
  - intros Hne. destruct files as [|f files]; [congruence|].
    unfold fullMessage.
    assert (Hfmt : truthy (formatCaseFiles (f :: files)) = true) by reflexivity.
    rewrite Hfmt.
    exists (lit "CASE DATA (do NOT repeat unless asked):" ++ nl
              ++ formatCaseFiles (f :: files) ++ nl ++ nl).
    now rewrite <- !app_assoc.
  - intros s ->. unfold chatWithExpert in Hrun.
    apply RetryMore.withRetry_returned in Hrun.
    destruct Hrun as [[_ (w0 & H0)] | [_ (fallback & w0 & Hfb & H0)]].
    + destruct (runChat_returned _ _ _ _ _ _ _ _ _ _ H0) as (res & Hres & Hs).
      now exists reasoning, (backend w0), res.
    + injection Hfb as <-.
      destruct (runChat_returned _ _ _ _ _ _ _ _ _ _ H0) as (res & Hres & Hs).
      now exists fast, (backend w0), res.
Qed.

Lemma chatWithExpert_effects_witness :
  [smallFile] <> []
  /\ exists w' evs,
       chatWithExpert (answering twelveTokens) (lit "hi") [smallFile] [] world0
         = Some (Returned (lit "MOTION TO MODIFY"), w', evs)
       /\ (exists caseData,
             fullMessage (lit "hi") [smallFile]
             = caseData ++ lit "USER: " ++ lit "hi")
       /\ exists model state res,
            fst (ai (answering twelveTokens)
                   (chatCall (lit "hi") [smallFile] [] model) state)
              = Returned res
            /\ lit "MOTION TO MODIFY" = chatReply res.
Proof.
  assert (Hne : [smallFile] <> []) by discriminate.
  split; [exact Hne|]. eexists _, _. split; [reflexivity|].
  destruct (chatWithExpert_effects unit Z (answering twelveTokens) (lit "hi")
              [smallFile] [] world0 _ _ _ eq_refl)
    as (_ & _ & _ & _ & Hfiles & Hreply).
  split; [exact (Hfiles Hne) | exact (Hreply _ eq_refl)].
Defined.

(** X17.  When the backend answers the first request, [chatWithExpert]
    returns after that one request, with the trimmed text; a text of white
    space only gives the empty string as the reply (the placeholder stands
    in only for a response without text), so a chat reply can be empty
    where a draft cannot. *)
Theorem chatWithExpert_first_answer S U (svc : GeminiService S U)
  (message : JsString) (files : list CaseFile) (history : list HistoryTurn)
  (w : World S U) (res : GenerateContentResponse) (s' : S) :
  ai svc (chatCall message files history reasoning) (backend w)
    = (Returned res, s') ->
  exists w',
    chatWithExpert svc message files history w
      = Some (Returned (chatReply res), w', [CallPrimary 0])
    /\ backend w' = s'
    /\ apiLog w' = apiLog w ++ [chatCall message files history reasoning]
    /\ (text res = None -> chatReply res = lit "No response received.")
    /\ (forall t, text res = Some t -> whitespaceOnly t = true ->
          chatReply res = []).
Proof.
  intros Hai.
  assert (Hrun : exists w',
             runChat svc message files history reasoning w
               = (Returned (chatReply res), w')
             /\ backend w' = s'
             /\ apiLog w' = apiLog w ++ [chatCall message files history reasoning]).
  { unfold runChat, callApi. unfold chatCall in Hai. rewrite Hai.
    eexists. split; [reflexivity|]. rewrite trackUsage_log.
    split; [|reflexivity].
    unfold trackUsage. destruct (tokenListener svc); [|reflexivity].
    now destruct (usageTotal res >? 0)%Z. }
  destruct Hrun as (w' & Hrun & Hb & Hl). exists w'.
  unfold chatWithExpert.
  rewrite (RetryMore.withRetry_first_try _ _ _ _ 4 1800 _ _ _ ltac:(lia) Hrun).
  split; [reflexivity|]. split; [exact Hb|]. split; [exact Hl|].
  unfold chatReply. split.
  - intros ->. reflexivity.
  - intros t -> Hws. now apply JsFacts.trim_nil_iff.
Qed.

Lemma chatWithExpert_first_answer_witness :
  ai (answering blankResponse) (chatCall (lit "hi") [] [] reasoning)
    (backend world0) = (Returned blankResponse, tt)
  /\ exists w',
       chatWithExpert (answering blankResponse) (lit "hi") [] [] world0
         = Some (Returned [], w', [CallPrimary 0])
       /\ backend w' = tt.
Proof.
  split; [reflexivity|].
  destruct (chatWithExpert_first_answer unit Z (answering blankResponse)
              (lit "hi") [] [] world0 blankResponse tt eq_refl)
    as (w' & Hrun & Hb & _ & _ & Hblank).
  exists w'. rewrite (Hblank (lit "   ") eq_refl eq_refl) in Hrun.
  split; [exact Hrun | exact Hb].
Defined.
End DraftChatMore.

(** ** More on the components of [App.tsx] *)
Module ComponentsMore.

Import Gemini Spec Sample.

Section Sending.

Variables S U : Type.
Variable dateNow : S -> Z.
Variable svc : GeminiService S U.
Variable files : list CaseFile.

(** What a send that reaches the model leaves. *)
Lemma handleSend_sent (st st' : App.Assistant) (w w' : World S U) evs :
  truthy (trim (App.input st)) = true ->
  App.handleSend dateNow svc files st w = Some (st', w', evs) ->
  exists r,
    chatWithExpert svc (App.input st) files (App.historyOf (App.messages st)) w
      = Some (r, w', evs)
    /\ st' = {| App.messages :=
                  App.messages st
                    ++ [ App.stamped dateNow w (lit "user") (App.input st);
                         App.stamped dateNow w' (lit "model") (replyText r) ];
                App.input := []; App.thinking := false |}.
Proof.
  intros Hinput. unfold App.handleSend. rewrite Hinput. cbn [negb].
  cbn [App.text App.stamped].
  destruct (chatWithExpert svc (App.input st) files
              (App.historyOf (App.messages st)) w)
    as [[[[responseText | e] w1] evs1]|]; [| |discriminate];
    intros H; injection H as <- <- <-; eexists; (split; [reflexivity|]);
    now rewrite <- app_assoc.
Qed.

Lemma historyOf_app (a b : list App.ChatMessage) :
  App.historyOf (a ++ b) = App.historyOf a ++ App.historyOf b.
Proof. apply map_app. Qed.

End Sending.

(** X18.  [handleSend] on a blank input does nothing and sends nothing.
    Otherwise it leaves the earlier turns as they were and adds the
    user's turn, with the input as typed, and one turn of the model, and
    clears the input; every request it sends carries as history the
    transcript before this send and as message the input (after the case
    data when there are files). *)
Theorem handleSend_transcript S U (dateNow : S -> Z) (svc : GeminiService S U)
  (files : list CaseFile) (st st' : App.Assistant) (w w' : World S U)
  (evs : list RetryEvent) :
  App.handleSend dateNow svc files st w = Some (st', w', evs) ->
  (truthy (trim (App.input st)) = false -> st' = st /\ w' = w /\ evs = [])
  /\ (truthy (trim (App.input st)) = true ->
      (exists userMsg reply,
         App.messages st' = App.messages st ++ [userMsg; reply]
         /\ App.role userMsg = lit "user" /\ App.text userMsg = App.input st
         /\ App.role reply = lit "model")
      /\ App.input st' = [] /\ App.thinking st' = false
      /\ apiLog w'
         = apiLog w
             ++ repeat (chatCall (App.input st) files
                          (App.historyOf (App.messages st)) reasoning)
                  (primaryCalls evs)
             ++ repeat (chatCall (App.input st) files
                          (App.historyOf (App.messages st)) fast)
                  (fallbackCalls evs)).
Proof.
  intros H. split.
  - intros Hblank. unfold App.handleSend in H. rewrite Hblank in H.
    cbn [negb] in H. injection H as <- <- <-. now repeat split.
  - intros Hinput.
    destruct (handleSend_sent _ _ _ _ _ _ _ _ _ _ Hinput H) as (r & Hchat & ->).
    cbn [App.messages App.input App.thinking].
    split; [eexists _, _; repeat split|]. split; [reflexivity|].
    split; [reflexivity|].
    exact (proj1 (DraftChatMore.chatWithExpert_log _ _ _ _ _ _ _ _ _ _ Hchat)).
Qed.

Lemma handleSend_transcript_witness :
  truthy (trim (App.input typedHi)) = true
  /\ exists st' w' evs,
       App.handleSend clock svcDown [] typedHi world0 = Some (st', w', evs)
       /\ App.input st' = [] /\ App.thinking st' = false
       /\ apiLog w'
          = apiLog world0
              ++ repeat (chatCall (lit "hi") [] [] reasoning) (primaryCalls evs)
              ++ repeat (chatCall (lit "hi") [] [] fast) (fallbackCalls evs).
Proof.
  assert (Hinput : truthy (trim (App.input typedHi)) = true) by reflexivity.
  split; [exact Hinput|]. eexists _, _, _. split; [vm_compute; reflexivity|].
  destruct (handleSend_transcript unit Z clock svcDown [] typedHi _ world0 _ _
              ltac:(vm_compute; reflexivity)) as [_ Hsent].
  destruct (Hsent Hinput) as (_ & Hi & Ht & Hlog).
  split; [exact Hi|]. split; [exact Ht | exact Hlog].
Defined.

(** X19.  What one send adds to the transcript is replayed to the model
    by the next send: its requests carry as history the earlier
    transcript followed by the user turn and the model turn of the send
    before, and when that send failed the model turn replayed is the
    apology. *)
Theorem handleSend_replays_previous_send S U (dateNow : S -> Z)
  (svc : GeminiService S U) (files : list CaseFile)
  (st st1 st3 : App.Assistant) (w w1 w3 : World S U) (next : JsString)
  (ev1 ev3 : list RetryEvent) :
  truthy (trim (App.input st)) = true ->
  truthy (trim next) = true ->
  App.handleSend dateNow svc files st w = Some (st1, w1, ev1) ->
  App.handleSend dateNow svc files
    {| App.messages := App.messages st1; App.input := next;
       App.thinking := App.thinking st1 |} w1 = Some (st3, w3, ev3) ->
  exists said,
    App.historyOf (App.messages st1)
    = App.historyOf (App.messages st) ++ [userTurn (App.input st); modelTurn said]
    /\ apiLog w3
       = apiLog w1
           ++ repeat (chatCall next files (App.historyOf (App.messages st1))
                        reasoning) (primaryCalls ev3)
           ++ repeat (chatCall next files (App.historyOf (App.messages st1)) fast)
                (fallbackCalls ev3)
    /\ (failed (chatWithExpert svc (App.input st) files
                  (App.historyOf (App.messages st)) w) ->
        said = App.apology).
Proof.
  intros Hinput Hnext H1 H3.
  destruct (handleSend_sent _ _ _ _ _ _ _ _ _ _ Hinput H1) as (r & Hchat & ->).
  cbn [App.messages App.thinking] in *.
  apply handleSend_sent in H3; [|exact Hnext].
  destruct H3 as (r3 & Hchat3 & _). cbn [App.messages App.input] in Hchat3.
  exists (replyText r). split; [|split].
  - rewrite historyOf_app. reflexivity.
  - exact (proj1 (DraftChatMore.chatWithExpert_log _ _ _ _ _ _ _ _ _ _ Hchat3)).
  - rewrite Hchat. destruct r as [t | e]; [intros [] | reflexivity].
Qed.

Lemma handleSend_replays_previous_send_witness :
  exists st1 w1 ev1 st3 w3 ev3,
    App.handleSend clock svcDown [] typedHi world0 = Some (st1, w1, ev1)
    /\ App.handleSend clock svcDown []
         {| App.messages := App.messages st1; App.input := lit "again";
            App.thinking := App.thinking st1 |} w1 = Some (st3, w3, ev3)
    /\ App.historyOf (App.messages st1)
       = [userTurn (lit "hi"); modelTurn App.apology]
    /\ apiLog w3
       = apiLog w1
           ++ repeat (chatCall (lit "again") []
                        [userTurn (lit "hi"); modelTurn App.apology] reasoning) 5
           ++ repeat (chatCall (lit "again") []
                        [userTurn (lit "hi"); modelTurn App.apology] fast) 1.
Proof.
  eexists _, _, _, _, _, _.
  split; [vm_compute; reflexivity|]. split; [vm_compute; reflexivity|].
  destruct (handleSend_replays_previous_send unit Z clock svcDown [] typedHi
              _ _ world0 _ _ (lit "again") _ _ eq_refl eq_refl
              ltac:(vm_compute; reflexivity) ltac:(vm_compute; reflexivity))
    as (said & Hhist & Hlog & Hfail).
  rewrite (Hfail ltac:(vm_compute; exact I)) in Hhist.
  split; [exact Hhist|]. rewrite Hhist in Hlog. exact Hlog.
Defined.


(** X20.  [handleDraft] does nothing unless both the topic and the
    instructions are filled in.  Otherwise it calls [draftMotion] once
    with the topic, the files and the instructions as they are, and ends
    with the form as typed, [loading] off and the world the call left:
    when the call returns, the draft shown is replaced by the one
    returned, which is not blank, and nothing is alerted; when the call
    throws, the draft shown before stays and ["Drafting failed."] is
    alerted, once. *)
Theorem handleDraft_outcomes S U (svc : GeminiService S U)
  (files : list CaseFile) (st : MotionDrafter.State) (w : World S U) :
  (MotionDrafter.topic st = [] \/ MotionDrafter.instructions st = [] ->
   MotionDrafter.handleDraft svc files st w = Some (st, w, []))
  /\ (MotionDrafter.topic st <> [] -> MotionDrafter.instructions st <> [] ->
      exists r w' evs,
        draftMotion svc (MotionDrafter.topic st) files
          (MotionDrafter.instructions st) w = Some (r, w', evs)
        /\ MotionDrafter.handleDraft svc files st w
           = Some ({| MotionDrafter.topic := MotionDrafter.topic st;
                      MotionDrafter.instructions := MotionDrafter.instructions st;
                      MotionDrafter.draft :=
                        match r with
                        | Returned d => d
                        | Threw _ => MotionDrafter.draft st
                        end;
                      MotionDrafter.loading := false |},
                   w',
                   match r with
                   | Returned _ => []
                   | Threw _ => [lit "Drafting failed."]
                   end)
        /\ (forall d, r = Returned d -> whitespaceOnly d = false)).
Proof.
  unfold MotionDrafter.handleDraft. split.
  - intros Hempty.
    assert (Hguard : negb (truthy (MotionDrafter.topic st))
                     || negb (truthy (MotionDrafter.instructions st)) = true).
    { destruct Hempty as [-> | ->]; [reflexivity|]. apply orb_true_r. }
    now rewrite Hguard.
  - intros Ht Hi.
    assert (Hguard : negb (truthy (MotionDrafter.topic st))
                     || negb (truthy (MotionDrafter.instructions st)) = false).
    { destruct (MotionDrafter.topic st); [congruence|].
      destruct (MotionDrafter.instructions st); [congruence | reflexivity]. }
    rewrite Hguard. unfold draftMotion.
    destruct (RetryFacts.withRetry_total _ _
                (runDraft svc (draftPrompt (MotionDrafter.topic st) files
                                 (MotionDrafter.instructions st)) reasoning)
                (Some (runDraft svc (draftPrompt (MotionDrafter.topic st) files
                                       (MotionDrafter.instructions st)) fast))
                4 1800 w) as (r0 & w1 & evs & -> & _).
    destruct r0 as [response | e]; eexists _, _, _;
      (split; [reflexivity|]); (split; [reflexivity|]); intros d Hd.
    + injection Hd as <-. apply Drafting.trimmedOr_not_blank.
      exact Drafting.draftFailed_not_blank.
    + discriminate Hd.
Qed.

Lemma handleDraft_outcomes_witness :
  MotionDrafter.topic draftForm <> []
  /\ MotionDrafter.instructions draftForm <> []
  /\ (exists w',
        MotionDrafter.handleDraft svcDown [] draftForm world0
        = Some ({| MotionDrafter.topic := lit "custody";
                   MotionDrafter.instructions := lit "moved in May";
                   MotionDrafter.draft := lit "earlier draft";
                   MotionDrafter.loading := false |},
                w', [lit "Drafting failed."])
        /\ map callModel (apiLog w')
           = [reasoning; reasoning; reasoning; reasoning; reasoning; fast])
  /\ (exists w',
        MotionDrafter.handleDraft (answering twelveTokens) [] draftForm world0
        = Some ({| MotionDrafter.topic := lit "custody";
                   MotionDrafter.instructions := lit "moved in May";
                   MotionDrafter.draft := lit "MOTION TO MODIFY";
                   MotionDrafter.loading := false |}, w', [])
        /\ map callModel (apiLog w') = [reasoning]).
Proof.
  assert (Ht : MotionDrafter.topic draftForm <> []) by discriminate.
  assert (Hi : MotionDrafter.instructions draftForm <> []) by discriminate.
  split; [exact Ht|]. split; [exact Hi|]. split.
  - destruct (proj2 (handleDraft_outcomes unit Z svcDown [] draftForm world0)
                Ht Hi) as (r & w' & evs & Hrun & Hend & _).
    exists w'. rewrite Hend. vm_compute in Hrun. injection Hrun as <- <- _.
    split; reflexivity.
  - destruct (proj2 (handleDraft_outcomes unit Z (answering twelveTokens) []
                       draftForm world0) Ht Hi)
      as (r & w' & evs & Hrun & Hend & _).
    exists w'. rewrite Hend. vm_compute in Hrun. injection Hrun as <- <- _.
    split; reflexivity.
Defined.

Lemma uniqueSources_links (caseRes statuteRes : GenerateContentResponse) :
  NoDup (map srcUri (uniqueSources caseRes statuteRes))
  /\ Forall (fun s => srcUri s <> []) (uniqueSources caseRes statuteRes).
Proof.
  split.
  - rewrite Research.uniqueSources_keys. apply Research.firstSeenFrom_NoDup.
  - apply Forall_forall. intros s Hs.
    unfold uniqueSources, mapValues, newMap in Hs.
    apply Research.fold_mapSet_values in Hs. destruct Hs as [[] | Hs].
    rewrite map_map, map_id in Hs. apply in_app_or in Hs.
    unfold extractSources in Hs.
    destruct Hs as [Hs | Hs]; apply in_map_iff in Hs;
      destruct Hs as (c & <- & Hc); apply filter_In in Hc;
      apply ResearchMore.toSource_uri; tauto.
Qed.

(** X21.  [handleResearch] does nothing on a query that is blank.
    Otherwise it calls [researchLegalPrecedent] once with the query as
    typed, untrimmed, and ends with [loading] off and the world the call
    left, in whatever order the responses come in: when the call returns,
    its result is shown, whose sources have links that are not empty and
    pairwise distinct, and nothing is alerted; when the call throws, no
    result is shown, whatever was shown before, and
    ["Research failed. Please try again."] is alerted, once. *)
Theorem handleResearch_outcomes S U (svc : GeminiService S U)
  (sched : nat -> bool) (st : ResearchTool.State) (w : World S U) :
  (whitespaceOnly (ResearchTool.query st) = true ->
   ResearchTool.handleResearch svc sched st w = Some (st, w, []))
  /\ (whitespaceOnly (ResearchTool.query st) = false ->
      exists r w' evs,
        researchLegalPrecedent svc sched (ResearchTool.query st) w
          = Some (r, w', evs)
        /\ ResearchTool.handleResearch svc sched st w
           = Some ({| ResearchTool.query := ResearchTool.query st;
                      ResearchTool.loading := false;
                      ResearchTool.result :=
                        match r with
                        | Returned data => Some data
                        | Threw _ => None
                        end |},
                   w',
                   match r with
                   | Returned _ => []
                   | Threw _ => [lit "Research failed. Please try again."]
                   end)
        /\ (forall data, r = Returned data ->
              NoDup (map srcUri (sources data))
              /\ Forall (fun s => srcUri s <> []) (sources data))).
Proof.
  unfold ResearchTool.handleResearch. split.
  - intros Hblank. apply JsFacts.trim_nil_iff in Hblank. now rewrite Hblank.
  - intros Hquery.
    assert (Hguard : negb (truthy (trim (ResearchTool.query st))) = false).
    { destruct (trim (ResearchTool.query st)) eqn:Htrim; [|reflexivity].
      apply JsFacts.trim_nil_iff in Htrim. congruence. }
    rewrite Hguard, RaceFacts.research_race.
    destruct (RaceFacts.research_ends S U svc (ResearchTool.query st) sched w)
      as [s ->].
    exists (gathered s), (raceWorld s), (caseLog s, statuteLog s).
    split; [reflexivity|]. split.
    + now destruct (gathered s).
    + unfold gathered. intros data.
      destruct (caseChain s) as [| | | [caseRes|]]; try discriminate.
      destruct (statuteChain s) as [| | | [statuteRes|]]; try discriminate.
      intros H. injection H as <-. cbn [sources]. apply uniqueSources_links.
Qed.

Lemma handleResearch_outcomes_witness :
  whitespaceOnly (ResearchTool.query researchForm) = false
  /\ (exists w',
        ResearchTool.handleResearch svcDown inTurns researchForm world0
        = Some ({| ResearchTool.query := lit "custody relocation";
                   ResearchTool.loading := false;
                   ResearchTool.result := None |},
                w', [lit "Research failed. Please try again."])
        /\ List.length (apiLog w') = 11%nat)
  /\ (exists w',
        ResearchTool.handleResearch (answering roleA) statutesFirst
          researchForm world0
        = Some ({| ResearchTool.query := lit "custody relocation";
                   ResearchTool.loading := false;
                   ResearchTool.result :=
                     Some {| report := combinedText roleA roleA;
                             sources := [ {| srcTitle := lit "X";
                                             srcUri := lit "u1" |} ] |} |},
                w', [])
        /\ List.length (apiLog w') = 2%nat).
Proof.
  assert (Hq : whitespaceOnly (ResearchTool.query researchForm) = false)
    by reflexivity.
  split; [exact Hq|]. split.
  - destruct (proj2 (handleResearch_outcomes unit Z svcDown inTurns
                       researchForm world0) Hq)
      as (r & w' & evs & Hrun & Hend & _).
    exists w'. rewrite Hend. vm_compute in Hrun. injection Hrun as <- <- _.
    split; reflexivity.
  - destruct (proj2 (handleResearch_outcomes unit Z (answering roleA)
                       statutesFirst researchForm world0) Hq)
      as (r & w' & evs & Hrun & Hend & _).
    exists w'. rewrite Hend. vm_compute in Hrun. injection Hrun as <- <- _.
    split; reflexivity.
Defined.

End ComponentsMore.

(** ** The file manager *)
Module FileManagerFacts.

Import Spec Sample FileManager.

Lemma kept_iff (i : JsString) (f : CaseFile) :
  negb (Js.eqb (id f) i) = true <-> id f <> i.
Proof.
  rewrite negb_true_iff. apply JsFacts.eqb_neq.
Qed.

(** X22.  [onDelete] removes every file stored under the id given (ids
    are times in milliseconds, so two files can share one) and keeps the
    others in order; deleting an id that is not there changes nothing;
    deleting twice is deleting once; and deleting the id of a file just
    uploaded, when no other file has it, gives the list back as it was
    before the upload. *)
Theorem onDelete_removes_by_id (i : JsString) (files : list CaseFile) :
  (forall f, In f (onDelete i files) <-> In f files /\ id f <> i)
  /\ (~ In i (map id files) -> onDelete i files = files)
  /\ onDelete i (onDelete i files) = onDelete i files
  /\ (List.length (onDelete i files) <= List.length files)%nat
  /\ (forall f, id f = i -> ~ In i (map id files) ->
        onDelete i (onUpload f files) = files).
Proof.
  assert (Hfresh : forall l, ~ In i (map id l) -> onDelete i l = l).
  { intros l Hn. unfold onDelete. apply forallb_filter_id.
    apply forallb_forall. intros f Hf. apply kept_iff. intros Heq.
    apply Hn. rewrite <- Heq. now apply in_map. }
  split; [|split; [|split; [|split]]].
  - intros f. unfold onDelete. rewrite filter_In, kept_iff. reflexivity.
  - apply Hfresh.
  - apply Hfresh. intros Hin. apply in_map_iff in Hin.
    destruct Hin as (f & Hid & Hf). unfold onDelete in Hf.
    apply filter_In in Hf. destruct Hf as [_ Hf]. apply kept_iff in Hf.
    contradiction.
  - apply filter_length_le.
  - intros f Hid Hn. unfold onUpload, onDelete. rewrite filter_app.
    fold (onDelete i files). rewrite (Hfresh files Hn). cbn [filter].
    replace (negb (Js.eqb (id f) i)) with false.
    + apply app_nil_r.
    + symmetry. apply negb_false_iff. now apply JsFacts.eqb_eq.
Qed.

Lemma onDelete_removes_by_id_witness :
  ~ In (lit "17") (map id (@nil CaseFile))
  /\ onDelete (lit "17")
       (onUpload {| id := lit "17"; name := lit "a.txt"; type := lit "text/plain";
                    content := lit "x"; inlineData := None; dateAdded := 17%Z |}
          [])
     = [].
Proof.
  assert (Hn : ~ In (lit "17") (map id (@nil CaseFile))) by (intros []).
  split; [exact Hn|].
  destruct (onDelete_removes_by_id (lit "17") []) as (_ & _ & _ & _ & Hround).
  apply Hround; [reflexivity | exact Hn].
Defined.

Lemma splitOn_nonempty (sep : N) (s : JsString) : splitOn sep s <> [].
Proof.
  destruct s as [|c s]; simpl; [discriminate|].
  destruct (c =? sep)%N; [discriminate|].
  destruct (splitOn sep s); discriminate.
Qed.

Lemma splitOn_no_sep (sep : N) (s : JsString) :
  ~ In sep s -> splitOn sep s = [s].
Proof.
  induction s as [|c s IH]; simpl; intros Hn; [reflexivity|].
  destruct (c =? sep)%N eqn:E.
  - apply N.eqb_eq in E. tauto.
  - rewrite IH by tauto. reflexivity.
Qed.

Lemma splitOn_first (sep : N) (p rest : JsString) :
  ~ In sep p -> splitOn sep (p ++ sep :: rest) = p :: splitOn sep rest.
Proof.
  induction p as [|c p IH]; simpl; intros Hn.
  - now rewrite N.eqb_refl.
  - destruct (c =? sep)%N eqn:E.
    + apply N.eqb_eq in E. tauto.
    + rewrite IH by tauto. reflexivity.
Qed.

(** X23.  Splitting at the commas and joining with commas gives the
    string back.  The second piece of a data URL, which is what
    [handleFileChange] stores, is the payload after the first comma when
    neither the header nor the payload has a comma, and there is no
    second piece when the string has no comma. *)
Theorem splitOn_comma_payload (s : JsString) :
  join [comma] (splitOn comma s) = s
  /\ (forall header payload,
        s = header ++ comma :: payload ->
        ~ In comma header -> ~ In comma payload ->
        nth_error (splitOn comma s) 1 = Some payload)
  /\ (~ In comma s -> nth_error (splitOn comma s) 1 = None).
Proof.
  split; [|split].
  - induction s as [|c s IH]; [reflexivity|]. cbn [splitOn].
    destruct (c =? comma)%N eqn:E.
    + apply N.eqb_eq in E. subst c.
      pose proof (splitOn_nonempty comma s) as Hne.
      destruct (splitOn comma s) as [|p ps]; [congruence|].
      cbn [join app] in *. now rewrite IH.
    + pose proof (splitOn_nonempty comma s) as Hne.
      destruct (splitOn comma s) as [|p ps]; [congruence|].
      destruct ps as [|p' ps]; cbn [join app] in *; now rewrite <- IH.
  - intros header payload -> Hh Hp.
    rewrite splitOn_first by exact Hh. rewrite splitOn_no_sep by exact Hp.
    reflexivity.
  - intros Hn. now rewrite splitOn_no_sep.
Qed.

Lemma splitOn_comma_payload_witness :
  nth_error (splitOn comma (lit "data:application/pdf;base64,JVBERi0=")) 1
  = Some (lit "JVBERi0=").
Proof.
  destruct (splitOn_comma_payload (lit "data:application/pdf;base64,JVBERi0="))
    as (_ & Hpayload & _).
  apply (Hpayload (lit "data:application/pdf;base64") (lit "JVBERi0="));
    [reflexivity | |]; vm_compute; intuition discriminate.
Defined.




End FileManagerFacts.
